(** * balena-cli: OS version resolution, image download, memoized lookups
      and the release export/import commands

    A shallow embedding of [lib/utils/cloud.ts], [lib/commands/release/export.ts]
    and [lib/commands/release/import.ts].

    - JavaScript strings are [string]s; the few [String.prototype] methods the
      code uses ([indexOf], [substring], [slice], [endsWith]) are written out.
      All the characters the code looks for (['v'], the space, ['.dev'],
      ['.prod']) are ASCII, so working on character codes agrees with
      JavaScript's UTF-16 code units.
    - An [async] function is a computation in the monad [M]: it threads the
      observable state (console output, prompts, files, caches) and ends in
      an [Outcome]: the promise is fulfilled, rejected, or never settles.
    - The collaborators the code calls but does not define (the SDK, the CLI
      form, the image manager, the unzip parser, the [stripIndent] tag) are
      fields of a record that every function takes as an argument. *)

From Stdlib Require Import String Ascii List ZArith Lia Bool.
From Stdlib.Strings Require Byte.
From stdpp Require Import base option gmap strings list pretty.
Import ListNotations.

Local Open Scope string_scope.
Local Open Scope list_scope.
Local Open Scope Z_scope.

(** ** JavaScript string methods *)

Module JsString.

(** [s[0] === c] *)
Definition firstCharIs (c : ascii) (s : string) : bool :=
  match s with
  | String c' _ => Ascii.eqb c' c
  | EmptyString => false
  end.

(** [s.slice(1)] *)
Definition slice1 (s : string) : string :=
  match s with
  | String _ rest => rest
  | EmptyString => EmptyString
  end.

(** Drop the first [n] characters. *)
Fixpoint dropChars (n : nat) (s : string) : string :=
  match n, s with
  | O, _ => s
  | S n', String _ rest => dropChars n' rest
  | S _, EmptyString => EmptyString
  end.

(** [s.substring(start)]: a negative [start] is clamped to 0 and one past
    the end to the length. *)
Definition substringFrom (s : string) (start : Z) : string :=
  dropChars (Z.to_nat start) s.

(** [s.indexOf(pat)] scanning from position [i]: the least position at
    which [pat] occurs, or [-1]. *)
Fixpoint indexOfFrom (pat s : string) (i : Z) : Z :=
  if String.prefix pat s then i
  else match s with
       | EmptyString => -1
       | String _ rest => indexOfFrom pat rest (i + 1)
       end.

Definition indexOf (s pat : string) : Z := indexOfFrom pat s 0.

(** [s.endsWith(suffix)] *)
Definition endsWith (s suffix : string) : bool :=
  let n := String.length s in
  let m := String.length suffix in
  if (m <=? n)%nat
  then String.eqb (dropChars (n - m) s) suffix
  else false.

(** [xs.includes(s)] on an array of strings *)
Definition includes (xs : list string) (s : string) : bool :=
  existsb (String.eqb s) xs.

(** The text of a template literal: the literal parts interleaved with the
    placeholders' values. *)
Fixpoint interpolate (parts subs : list string) : string :=
  match parts with
  | [] => EmptyString
  | p :: parts' =>
      match subs with
      | [] => p +:+ interpolate parts' []
      | x :: subs' => p +:+ x +:+ interpolate parts' subs'
      end
  end.

End JsString.

Import JsString.

(** ** Errors, outcomes and the monad of asynchronous functions *)

(** A thrown value. [ExpectedError] is the CLI's class for user-facing
    failures; every other error object is a [JsError]. Both carry
    [.message]. *)
Inductive Error : Type :=
| ExpectedError (message : string)
| JsError (message : string).

Definition errorMessage (e : Error) : string :=
  match e with
  | ExpectedError m => m
  | JsError m => m
  end.

(** How a promise ends. *)
Inductive Outcome (A : Type) : Type :=
| Returned (a : A)
| Thrown (e : Error)
| Pending.

Arguments Returned {A} a.
Arguments Thrown {A} e.
Arguments Pending {A}.

Definition M (S A : Type) : Type := S -> Outcome A * S.

Definition ret {S A} (a : A) : M S A := fun s => (Returned a, s).

Definition throw {S A} (e : Error) : M S A := fun s => (Thrown e, s).

Definition bind {S A B} (m : M S A) (k : A -> M S B) : M S B :=
  fun s =>
    match m s with
    | (Returned a, s') => k a s'
    | (Thrown e, s') => (Thrown e, s')
    | (Pending, s') => (Pending, s')
    end.

(** A promise handed out by a collaborator settles: it is fulfilled with a
    value or rejected with an error. *)
Inductive Promise (A : Type) : Type :=
| Fulfilled (a : A)
| Rejected (e : Error).

Arguments Fulfilled {A} a.
Arguments Rejected {A} e.

(** [await p] *)
Definition await {S A} (p : Promise A) : M S A :=
  fun s =>
    match p with
    | Fulfilled a => (Returned a, s)
    | Rejected e => (Thrown e, s)
    end.

(** [await] of a promise that the code builds around event listeners: it
    ends as the listeners make it end, or never. *)
Definition awaitListeners {S A} (o : Outcome A) : M S A := fun s => (o, s).

Definition modify {S} (f : S -> S) : M S unit := fun s => (Returned tt, f s).

Definition gets {S A} (f : S -> A) : M S A := fun s => (Returned (f s), s).

(** [try { body } catch (error) { handler }] *)
Definition tryCatch {S A} (body : M S A) (handler : Error -> M S A) : M S A :=
  fun s =>
    match body s with
    | (Thrown e, s') => handler e s'
    | r => r
    end.

Declare Scope js_scope.
Delimit Scope js_scope with js.
Notation "x <- m ;; k" := (bind m (fun x => k))
  (at level 100, m at next level, right associativity) : js_scope.
Notation "m ;;; k" := (bind m (fun _ => k))
  (at level 100, right associativity) : js_scope.
Local Open Scope js_scope.

(** ** Data model of the OS download path *)

(** [SDK.OsVersion], the fields [cloud.ts] reads. *)
Record OsVersion : Type := {
  rawVersion : string;
  formattedVersion : string;
  osType : string;
  isRecommended : bool
}.

(** One entry of the list prompt. *)
Record Choice : Type := {
  value : string;
  name : string
}.

(** The argument of [getCliForm().ask]. [q_default] is [undefined] when the
    optional chain finds no descriptor. *)
Record Question : Type := {
  q_message : string;
  q_type : string;
  q_choices : list Choice;
  q_default : option string
}.

(** The state object of a ['progress'] event. *)
Record ProgressState : Type := {
  percentage : Z;
  eta : Z
}.

(** What the environment makes the image stream and its destination emit,
    in the order it happens:
    - ['balena-image-manager:resolved-version'], ['progress'] and ['error']
      are emitted on the stream returned by [manager.get];
    - [Data] and [End] are the payload chunks and the end of the payload;
    - [OutputError] is an ['error'] emitted by the destination of the pipe
      (a failed write, or the unzip stage rejecting its input). *)
Inductive StreamEvent : Type :=
| ResolvedVersion (version : string)
| Progress (state : option ProgressState)
| Data (chunk : list Byte.byte)
| End
| StreamError (e : Error)
| OutputError (e : Error).

(** The stream of [manager.get]: its custom [mime] property (possibly
    [undefined]) and what will happen on it. *)
Record ImageStream : Type := {
  mime : option string;
  events : list StreamEvent
}.

(** A path of the file system holds a file or a directory of extracted
    entries. *)
Inductive FsNode : Type :=
| File (content : list Byte.byte)
| Directory (entries : list (string * list Byte.byte)).

(** Everything the download path does that can be observed from outside, in
    program order. *)
Inductive Effect : Type :=
| ConsoleInfo (msg : string)
| ConsoleWarn (msg : string)
| GetAvailableOsVersions (deviceTypes : list string)
| CliFormAsk (q : Question)
| ManagerGet (deviceType version : string)
| NewProgress (label : string)
| NewSpinner (label : string)
| BarUpdate (state : ProgressState)
| SpinnerStart
| SpinnerStop
| UnzipExtract (path : string)
| CreateWriteStream (path : string).

Record CliState : Type := {
  effects : list Effect;
  env : gmap string string;
  fs : gmap string FsNode
}.

(** The collaborators of [cloud.ts]. Each promise-returning call is given by
    its promise. *)
Record World : Type := {
  (** [getBalenaSdk().models.hostapp.getAvailableOsVersions] *)
  getAvailableOsVersions : list string -> Promise (gmap string (list OsVersion));
  (** [getCliForm().ask]: the user's answer, or the prompt's failure *)
  cliFormAsk : Question -> Promise string;
  (** [manager.get] of balena-image-manager *)
  managerGet : string -> string -> Promise ImageStream;
  (** the archive parser behind [unzip.Extract] *)
  unzipParse : list Byte.byte -> Error + list (string * list Byte.byte);
  (** the [stripIndent] template tag, applied to the literal parts and the
      placeholder values *)
  stripIndent : list string -> list string -> string
}.

Definition emit (e : Effect) : M CliState unit :=
  modify (fun s => {| effects := effects s ++ [e]; env := env s; fs := fs s |}).

Definition setEnv (k v : string) : M CliState unit :=
  modify (fun s => {| effects := effects s; env := <[k := v]> (env s); fs := fs s |}).

Definition setFs (path : string) (n : FsNode) : M CliState unit :=
  modify (fun s => {| effects := effects s; env := env s; fs := <[path := n]> (fs s) |}).

Definition nl : string := String (ascii_of_nat 10) EmptyString.
Definition tab : string := String (ascii_of_nat 9) EmptyString.

(** [a ?? b] *)
Definition nullish {A} (a b : option A) : option A :=
  match a with
  | Some x => Some x
  | None => b
  end.

(** ** [getFormattedOsVersions] *)

(** The body of the [.map] callback. *)
Definition reformat (v : OsVersion) : OsVersion :=
  let i := indexOf (formattedVersion v) " " in
  {| rawVersion := rawVersion v;
     formattedVersion :=
       if i <? 0
       then "v" +:+ rawVersion v
       else "v" +:+ rawVersion v +:+ substringFrom (formattedVersion v) i;
     osType := osType v;
     isRecommended := isRecommended v |}.

Definition wantedOsType (esr : bool) : string :=
  if esr then "esr" else "default".

Definition noVersionsTemplate : list string :=
  [ nl +:+ tab +:+ tab +:+ tab
      +:+ "Error: No balenaOS versions found for device type '";
    "'." +:+ nl +:+ tab +:+ tab +:+ tab
      +:+ "Double-check the device type slug with 'balena devices supported'." ].

Definition getFormattedOsVersions (w : World) (deviceType : string) (esr : bool)
  : M CliState (list OsVersion) :=
  emit (GetAvailableOsVersions [deviceType]) ;;;
  byType <- await (getAvailableOsVersions w [deviceType]) ;;
  let versions :=
    map reformat
      (List.filter (fun v => String.eqb (osType v) (wantedOsType esr))
         (default [] (byType !! deviceType))) in
  match versions with
  | [] => throw (ExpectedError (stripIndent w noVersionsTemplate [deviceType]))
  | _ :: _ => ret versions
  end.

(** ** [selectOSVersionFromMenu] *)

Definition selectOSVersionFromMenu (w : World) (deviceType : string) (esr : bool)
  : M CliState string :=
  vs <- getFormattedOsVersions w deviceType esr ;;
  let choices :=
    map (fun v => {| value := rawVersion v; name := formattedVersion v |}) vs in
  let q := {| q_message := "Select the OS version:";
              q_type := "list";
              q_choices := choices;
              q_default := rawVersion <$> nullish (find isRecommended vs) (head vs) |} in
  emit (CliFormAsk q) ;;;
  await (cliFormAsk w q).

(** ** [resolveOSVersion] *)

Definition resolveOSVersion (w : World) (deviceType version : string)
  : M CliState string :=
  if includes ["menu"; "menu-esr"] version then
    selectOSVersionFromMenu w deviceType (String.eqb version "menu-esr")
  else
    let version := if firstCharIs "v" version then slice1 version else version in
    let version :=
      if negb (endsWith version ".dev") && negb (endsWith version ".prod")
      then version +:+ ".prod"
      else version in
    ret version.

(** ** [downloadOSImage] *)

(** [!OSVersion] is false exactly for a non-empty string. *)
Definition truthy (OSVersion : option string) : bool :=
  match OSVersion with
  | Some (String _ _) => true
  | _ => false
  end.

(** Lines 151-154: the promise that [resolve]s on the first
    ['resolved-version'] and [reject]s on the first ['error'], whichever
    comes first. While it is awaited nothing listens to ['progress'], so
    those events are lost; the stream is not flowing yet, so payload chunks
    and the end of the payload are [held] back until it is piped; there is
    no destination that could emit an error. The result is the version of
    the event and what remains to happen, the held payload first. *)
Fixpoint awaitResolvedVersion (evs held : list StreamEvent)
  : Outcome (string * list StreamEvent) :=
  match evs with
  | [] => Pending
  | ResolvedVersion v :: rest => Returned (v, held ++ rest)
  | StreamError e :: _ => Thrown e
  | Progress _ :: rest => awaitResolvedVersion rest held
  | Data c :: rest => awaitResolvedVersion rest (held ++ [Data c])
  | End :: rest => awaitResolvedVersion rest (held ++ [End])
  | OutputError _ :: rest => awaitResolvedVersion rest held
  end.

(** The destination of the pipe: [unzip.Extract({ path })] with the bytes it
    has received, or [fs.createWriteStream(path)]. *)
Inductive Output : Type :=
| Extract (path : string) (received : list Byte.byte)
| WriteStream (path : string).

(** Lines 179-186. *)
Definition openOutput (streamMime : option string) (outputPath : string)
  : M CliState Output :=
  if decide (streamMime = Some "application/zip") then
    emit (UnzipExtract outputPath) ;;;
    ret (Extract outputPath [])
  else
    emit (CreateWriteStream outputPath) ;;;
    setFs outputPath (File []) ;;;
    ret (WriteStream outputPath).

Definition fileContent (n : option FsNode) : list Byte.byte :=
  match n with
  | Some (File c) => c
  | _ => []
  end.

(** A chunk arriving at the destination. *)
Definition outputWrite (out : Output) (chunk : list Byte.byte) : M CliState Output :=
  match out with
  | Extract path received => ret (Extract path (received ++ chunk))
  | WriteStream path =>
      old <- gets (fun s => fileContent (fs s !! path)) ;;
      setFs path (File (old ++ chunk)) ;;;
      ret out
  end.

(** The destination finishing after the source has ended. *)
Definition outputEnd (w : World) (out : Output) : M CliState unit :=
  match out with
  | Extract path received =>
      match unzipParse w received with
      | inl e => throw e
      | inr entries => setFs path (Directory entries)
      end
  | WriteStream _ => ret tt
  end.

(** Lines 164-189 once the listeners are attached and the stream is piped:
    [await streamToPromise(stream.pipe(output))]. [stream.pipe(output)] is
    [output], so the awaited promise settles only when the destination
    finishes or emits an error.
    - ['progress']: [bar.update(state)] or [spinner.start()];
    - a chunk is written to the destination;
    - ['end']: [spinner.stop()], then the pipe ends the destination;
    - ['error'] on the stream: its only listener is the [reject] of the
      promise of lines 151-154, which has settled, so nothing happens;
    - a second ['resolved-version'] likewise calls a settled [resolve];
    - an error of the destination rejects the awaited promise. *)
Fixpoint drain (w : World) (out : Output) (evs : list StreamEvent)
  : M CliState unit :=
  match evs with
  | [] => awaitListeners Pending
  | Progress (Some state) :: rest => emit (BarUpdate state) ;;; drain w out rest
  | Progress None :: rest => emit SpinnerStart ;;; drain w out rest
  | Data chunk :: rest => out' <- outputWrite out chunk ;; drain w out' rest
  | End :: _ => emit SpinnerStop ;;; outputEnd w out
  | StreamError _ :: rest => drain w out rest
  | ResolvedVersion _ :: rest => drain w out rest
  | OutputError e :: _ => throw e
  end.

(** Lines 130-138 of [downloadOSImage]: the version that will be asked of
    the image manager. *)
Definition requestedVersion (w : World) (deviceType : string)
    (OSVersion : option string) : M CliState string :=
  emit (ConsoleInfo ("Getting device operating system for " +:+ deviceType)) ;;;
  (if negb (truthy OSVersion)
   then emit (ConsoleWarn "OS version not specified: using latest released version")
   else ret tt) ;;;
  match OSVersion with
  | Some (String c v) => resolveOSVersion w deviceType (String c v)
  | _ => ret "default"
  end.

(** Lines 151-195 of [downloadOSImage]: from the stream of [manager.get] to
    the returned path. *)
Definition transfer (w : World) (stream : ImageStream) (outputPath : string)
  : M CliState string :=
  resolved <- awaitListeners (awaitResolvedVersion (events stream) []) ;;
  let displayVersion := fst resolved in
  emit (NewProgress ("Downloading balenaOS version " +:+ displayVersion)) ;;;
  emit (NewSpinner ("Downloading balenaOS version " +:+ displayVersion
                      +:+ " (size unknown)")) ;;;
  output <- openOutput (mime stream) outputPath ;;
  drain w output (snd resolved) ;;;
  emit (ConsoleInfo ("balenaOS image version " +:+ displayVersion
                       +:+ " downloaded successfully")) ;;;
  ret outputPath.

Definition downloadOSImage (w : World) (deviceType outputPath : string)
    (OSVersion : option string) : M CliState string :=
  OSVersion <- requestedVersion w deviceType OSVersion ;;
  setEnv "ZLIB_FLUSH" "Z_NO_FLUSH" ;;;
  emit (ManagerGet deviceType OSVersion) ;;;
  stream <- await (managerGet w deviceType OSVersion) ;;
  transfer w stream outputPath.

(** ** The memoized lookups *)

Module Memo.

(** [SDK.Service] with [$select: 'service_name']. *)
Record Service : Type := { service_name : string }.

(** An application object: its own properties. [_.isEmpty] holds of the
    object without any. *)
Definition Application : Type := list (string * string).

(** A device object and its expanded [belongs_to__application]. *)
Record Device : Type := {
  deviceFields : list (string * string);
  belongs_to__application : option (list Application)
}.

(** [$expand]: the relation's name, or the relation with a [$select]. *)
Inductive Expand : Type :=
| ExpandName (relation : string)
| ExpandSelect (relation : string) (fields : list string).

Record PineOptions : Type := {
  expand : Expand;
  select : option (list string)
}.

(** The [sdk] argument: each request is given by its promise. Two SDK
    objects may answer the same request differently. *)
Record BalenaSDK : Type := {
  (** [sdk.pine.get({ resource: 'service', id, options })] *)
  pineGetService : Z -> Promise (option Service);
  (** [sdk.models.device.get(uuid, options)] *)
  deviceGet : string -> PineOptions -> Promise Device
}.

Inductive SdkRequest : Type :=
| PineGetService (id : Z)
| DeviceGet (uuid : string) (options : PineOptions).

(** The three [memoized.cache] maps, which hold the promises returned by
    earlier calls, and the requests sent so far. *)
Record MemoState : Type := {
  requests : list SdkRequest;
  serviceCache : gmap string (Outcome (option string));
  deviceAndAppCache : gmap string (Outcome (Device * Application));
  deviceAndMaybeAppCache : gmap string (Outcome (Device * option Application))
}.

Definition request (r : SdkRequest) : M MemoState unit :=
  modify (fun s => {| requests := requests s ++ [r];
                      serviceCache := serviceCache s;
                      deviceAndAppCache := deviceAndAppCache s;
                      deviceAndMaybeAppCache := deviceAndMaybeAppCache s |}).

Definition setServiceCache (c : gmap string (Outcome (option string)))
    (s : MemoState) : MemoState :=
  {| requests := requests s;
     serviceCache := c;
     deviceAndAppCache := deviceAndAppCache s;
     deviceAndMaybeAppCache := deviceAndMaybeAppCache s |}.

Definition setDeviceAndAppCache (c : gmap string (Outcome (Device * Application)))
    (s : MemoState) : MemoState :=
  {| requests := requests s;
     serviceCache := serviceCache s;
     deviceAndAppCache := c;
     deviceAndMaybeAppCache := deviceAndMaybeAppCache s |}.

Definition setDeviceAndMaybeAppCache
    (c : gmap string (Outcome (Device * option Application)))
    (s : MemoState) : MemoState :=
  {| requests := requests s;
     serviceCache := serviceCache s;
     deviceAndAppCache := deviceAndAppCache s;
     deviceAndMaybeAppCache := c |}.

(** lodash's [_.memoize(func, resolver)]: the key is [resolver(...args)];
    on a hit the cached value is returned and [func] is not called; on a
    miss [func(...args)] is called and its result stored under the key.
    The value is whatever [func] returns: for an [async] function, its
    promise. *)
Definition memoize {A R : Type}
    (getCache : MemoState -> gmap string R)
    (setCache : gmap string R -> MemoState -> MemoState)
    (func : A -> MemoState -> R * MemoState)
    (resolver : A -> string)
  : A -> MemoState -> R * MemoState :=
  fun args s =>
    let key := resolver args in
    match getCache s !! key with
    | Some result => (result, s)
    | None =>
        let '(result, s') := func args s in
        (result, setCache (<[key := result]> (getCache s')) s')
    end.

(** Lines 24-44. *)
Definition serviceIdToName : BalenaSDK * Z -> MemoState -> Outcome (option string) * MemoState :=
  memoize serviceCache setServiceCache
    (fun '(sdk, serviceId) =>
       request (PineGetService serviceId) ;;;
       serviceName <- await (pineGetService sdk serviceId) ;;
       match serviceName with
       | Some sn => ret (Some (service_name sn))
       | None => ret None
       end)
    (fun '(_sdk, id) => pretty id).

Definition isEmpty {A} (xs : list A) : bool :=
  match xs with
  | [] => true
  | _ :: _ => false
  end.

Definition DeviceArgs : Type :=
  BalenaSDK * string * option (list string) * option (list string).

(** Lines 84-108. *)
Definition getDeviceAndMaybeAppFromUUID
  : DeviceArgs -> MemoState -> Outcome (Device * option Application) * MemoState :=
  memoize deviceAndMaybeAppCache setDeviceAndMaybeAppCache
    (fun '(sdk, deviceUUID, selectDeviceFields, selectAppFields) =>
       let pineOpts :=
         {| expand := match selectAppFields with
                      | Some fields => ExpandSelect "belongs_to__application" fields
                      | None => ExpandName "belongs_to__application"
                      end;
            select := selectDeviceFields |} in
       request (DeviceGet deviceUUID pineOpts) ;;;
       device <- await (deviceGet sdk deviceUUID pineOpts) ;;
       match belongs_to__application device with
       | Some (app :: _) =>
           if isEmpty app then ret (device, None) else ret (device, Some app)
       | _ => ret (device, None)
       end)
    (fun '(_sdk, deviceUUID, _, _) => deviceUUID).

Definition noFleetAccessTemplate : list string :=
  [ nl +:+ tab +:+ tab +:+ tab +:+ tab
      +:+ "Unable to access the fleet that device ";
    " belongs to." +:+ nl +:+ tab +:+ tab +:+ tab +:+ tab
      +:+ "Hint: check whether the fleet owner withdrew access to it."
      +:+ nl +:+ tab +:+ tab +:+ tab ].

(** Lines 52-75. *)
Definition getDeviceAndAppFromUUID (w : World)
  : DeviceArgs -> MemoState -> Outcome (Device * Application) * MemoState :=
  memoize deviceAndAppCache setDeviceAndAppCache
    (fun '(sdk, deviceUUID, selectDeviceFields, selectAppFields) =>
       r <- getDeviceAndMaybeAppFromUUID
              (sdk, deviceUUID, selectDeviceFields, selectAppFields) ;;
       match snd r with
       | None =>
           throw (ExpectedError (stripIndent w noFleetAccessTemplate [deviceUUID]))
       | Some app => ret (fst r, app)
       end)
    (fun '(_sdk, deviceUUID, _, _) => deviceUUID).

(** Any use of the three exported functions by the rest of the process. *)
Inductive Call : Type :=
| CallServiceIdToName (sdk : BalenaSDK) (serviceId : Z)
| CallGetDeviceAndAppFromUUID (args : DeviceArgs)
| CallGetDeviceAndMaybeAppFromUUID (args : DeviceArgs).

Definition runCall (w : World) (c : Call) (s : MemoState) : MemoState :=
  match c with
  | CallServiceIdToName sdk serviceId => snd (serviceIdToName (sdk, serviceId) s)
  | CallGetDeviceAndAppFromUUID args => snd (getDeviceAndAppFromUUID w args s)
  | CallGetDeviceAndMaybeAppFromUUID args => snd (getDeviceAndMaybeAppFromUUID args s)
  end.

Definition runCalls (w : World) (cs : list Call) (s : MemoState) : MemoState :=
  fold_left (fun s c => runCall w c s) cs s.

End Memo.

(** ** The [release export] and [release import] commands *)

Module Release.

(** [params.commitOrId]: a commit hash or a numeric release id. *)
Inductive CommitOrId : Type :=
| Commit (hash : string)
| NumericId (id : Z).

(** [options.fleet]: a numeric id or a slug. *)
Inductive Fleet : Type :=
| FleetId (id : Z)
| FleetSlug (slug : string).

(** How a template literal prints the value. *)
Definition showCommitOrId (c : CommitOrId) : string :=
  match c with
  | Commit h => h
  | NumericId n => pretty n
  end.

Definition showFleet (f : option Fleet) : string :=
  match f with
  | Some (FleetId n) => pretty n
  | Some (FleetSlug s) => s
  | None => "undefined"
  end.

(** What a run does, in program order. *)
Inductive Action : Type :=
| ConsoleLog (line : string)
| ReleaseGet (commitOrId : CommitOrId)
| Create (releaseId : Z)
| WriteFile (path : string) (data : list Byte.byte)
| CreateReadStream (path : string)
| ApplicationGet (fleet : Fleet)
| Apply (application : Z) (bundle : string).

(** The collaborators of the two commands, by their promises. *)
Record Services : Type := {
  (** [this.parse(ReleaseExportCmd)]: [args.commitOrId], [flags.output] *)
  parseExport : Promise (CommitOrId * string);
  (** [this.parse(ReleaseImportCmd)]: [args.bundle], [flags.fleet] *)
  parseImport : Promise (string * option Fleet);
  (** [balena.models.release.get(commitOrId, ...)]: the release's [id] *)
  releaseGet : CommitOrId -> Promise Z;
  (** [create({ sdk, releaseId })] of [@balena/release-bundle] *)
  create : Z -> Promise (list Byte.byte);
  (** [fs.writeFile(path, data)] *)
  writeFile : string -> list Byte.byte -> Promise unit;
  (** [balena.models.application.get(fleet, ...)]: the application's [id] *)
  applicationGet : Fleet -> Promise Z;
  (** [apply({ sdk, application, stream })] *)
  apply : Z -> string -> Promise unit
}.

Definition act (a : Action) : M (list Action) unit :=
  modify (fun log => log ++ [a]).

Definition exportedMessage (commitOrId : CommitOrId) (output : string) : string :=
  "Release " +:+ showCommitOrId commitOrId +:+ " has been exported to "
    +:+ output +:+ ".".

Definition appliedMessage (bundle : string) (fleet : option Fleet) : string :=
  "Release bundle " +:+ bundle +:+ " has been applied to "
    +:+ showFleet fleet +:+ ".".

(** [ReleaseExportCmd.run], export.ts lines 58-82. *)
Definition runExport (sv : Services) : M (list Action) unit :=
  parsed <- await (parseExport sv) ;;
  let commitOrId := fst parsed in
  let output := snd parsed in
  act (ReleaseGet commitOrId) ;;;
  releaseId <- await (releaseGet sv commitOrId) ;;
  tryCatch
    (act (Create releaseId) ;;;
     releaseBundle <- await (create sv releaseId) ;;
     act (WriteFile output releaseBundle) ;;;
     await (writeFile sv output releaseBundle))
    (fun error =>
       act (ConsoleLog ("Release " +:+ showCommitOrId commitOrId
                          +:+ " could not be exported. " +:+ errorMessage error))) ;;;
  act (ConsoleLog (exportedMessage commitOrId output)).

(** [ReleaseImportCmd.run], import.ts lines 51-85. *)
Definition runImport (sv : Services) : M (list Action) unit :=
  parsed <- await (parseImport sv) ;;
  let bundle := fst parsed in
  let fleet := snd parsed in
  act (CreateReadStream bundle) ;;;
  tryCatch
    (match fleet with
     | None => throw (JsError "Fleet must be a number or slug.")
     | Some f =>
         act (ApplicationGet f) ;;;
         application <- await (applicationGet sv f) ;;
         act (Apply application bundle) ;;;
         await (apply sv application bundle)
     end)
    (fun error =>
       act (ConsoleLog ("Could not apply release bundle to fleet "
                          +:+ showFleet fleet +:+ ". " +:+ errorMessage error))) ;;;
  act (ConsoleLog (appliedMessage bundle fleet)).

End Release.

(** * Vocabulary of the statements *)

(** A string without any space. *)
Definition spaceless (s : string) : Prop :=
  forall pre post, s <> pre +:+ " " +:+ post.

(** The descriptors of the requested partition, as the catalog lists them. *)
Definition catalogPartition (byType : gmap string (list OsVersion))
    (deviceType : string) (esr : bool) : list OsVersion :=
  List.filter (fun v => String.eqb (osType v) (wantedOsType esr))
    (default [] (byType !! deviceType)).

(** The state after one more effect. *)
Definition logged (s : CliState) (e : Effect) : CliState :=
  {| effects := effects s ++ [e]; env := env s; fs := fs s |}.

(** Uses of the progress renderer: creating the bar or the spinner, and
    updating, starting or stopping them. *)
Definition isRenderer (e : Effect) : bool :=
  match e with
  | NewProgress _ | NewSpinner _ | BarUpdate _ | SpinnerStart | SpinnerStop => true
  | _ => false
  end.

(** Opening an output stage. *)
Definition isOutputOpen (e : Effect) : bool :=
  match e with
  | UnzipExtract _ | CreateWriteStream _ => true
  | _ => false
  end.

(** What version resolution can do: console output, the catalog query and
    the prompt. *)
Definition fromResolution (e : Effect) : bool :=
  match e with
  | ConsoleInfo _ | ConsoleWarn _ | GetAvailableOsVersions _ | CliFormAsk _ => true
  | _ => false
  end.

(** What piping the stream can do: renderer updates. *)
Definition fromDrain (e : Effect) : bool :=
  match e with
  | BarUpdate _ | SpinnerStart | SpinnerStop => true
  | _ => false
  end.

(** What [transfer] can do. *)
Definition fromTransfer (e : Effect) : bool :=
  match e with
  | ConsoleInfo _ => true
  | _ => isRenderer e || isOutputOpen e
  end.

(** The progress states handed to the renderer, in order: [Some state] for
    [bar.update(state)], [None] for [spinner.start()]. *)
Definition renderedOf (d : list Effect) : list (option ProgressState) :=
  flat_map (fun e => match e with
                     | BarUpdate state => [Some state]
                     | SpinnerStart => [None]
                     | _ => []
                     end) d.

(** The states of the ['progress'] events, in order. *)
Definition progressOf (evs : list StreamEvent) : list (option ProgressState) :=
  flat_map (fun ev => match ev with
                      | Progress state => [state]
                      | _ => []
                      end) evs.

(** The payload of a stream: its chunks up to the end of the payload. *)
Fixpoint payloadOf (evs : list StreamEvent) : list Byte.byte :=
  match evs with
  | [] => []
  | Data chunk :: rest => chunk ++ payloadOf rest
  | End :: _ => []
  | _ :: rest => payloadOf rest
  end.

(** Neither ['resolved-version'] nor an ['error'] of the stream. *)
Definition quiet (ev : StreamEvent) : Prop :=
  match ev with
  | ResolvedVersion _ | StreamError _ => False
  | _ => True
  end.

(** A ['progress'] event or a chunk of the payload. *)
Definition progressOrData (ev : StreamEvent) : Prop :=
  match ev with
  | Progress _ | Data _ => True
  | _ => False
  end.

(** The versions asked of the image manager. *)
Definition requestedOf (d : list Effect) : list string :=
  flat_map (fun e => match e with
                     | ManagerGet _ version => [version]
                     | _ => []
                     end) d.

(** The output stage that goes with a [mime] value. *)
Definition stageFor (streamMime : option string) (outputPath : string) : Effect :=
  if decide (streamMime = Some "application/zip")
  then UnzipExtract outputPath
  else CreateWriteStream outputPath.

(** The state in which [manager.get] is called. *)
Definition atManagerGet (s : CliState) (deviceType version : string) : CliState :=
  {| effects := effects s ++ [ManagerGet deviceType version];
     env := <["ZLIB_FLUSH" := "Z_NO_FLUSH"]> (env s);
     fs := fs s |}.

(** A computation that only appends effects, all of them of one kind. *)
Definition emitsOnly {A} (P : Effect -> bool) (m : M CliState A) : Prop :=
  forall s, exists d,
    effects (snd (m s)) = effects s ++ d /\ Forall (fun e => P e = true) d.

(** The prompt that [selectOSVersionFromMenu] shows for the descriptors
    [vs]. *)
Definition menuQuestion (vs : list OsVersion) : Question :=
  {| q_message := "Select the OS version:";
     q_type := "list";
     q_choices := map (fun v => {| value := rawVersion v; name := formattedVersion v |}) vs;
     q_default := rawVersion <$> nullish (find isRecommended vs) (head vs) |}.

(** The bundle step of [release export] throws [e]: [create] is rejected,
    or the bundle is built and writing it is rejected. *)
Definition exportStepThrows (sv : Release.Services) (releaseId : Z)
    (output : string) (e : Error) : Prop :=
  Release.create sv releaseId = Rejected e
  \/ exists bundle,
       Release.create sv releaseId = Fulfilled bundle
       /\ Release.writeFile sv output bundle = Rejected e.

(** The bundle step of [release import] throws [e]: the fleet is neither a
    number nor a slug, the fleet lookup is rejected, or [apply] is. *)
Definition importStepThrows (sv : Release.Services) (bundle : string)
    (fleet : option Release.Fleet) (e : Error) : Prop :=
  (fleet = None /\ e = JsError "Fleet must be a number or slug.")
  \/ exists f,
       fleet = Some f
       /\ (Release.applicationGet sv f = Rejected e
           \/ exists application,
                Release.applicationGet sv f = Fulfilled application
                /\ Release.apply sv application bundle = Rejected e).

(** Every entry of the three caches of [s] is still in [s'], unchanged. *)
Definition cachesKept (s s' : Memo.MemoState) : Prop :=
  (forall k r, Memo.serviceCache s !! k = Some r -> Memo.serviceCache s' !! k = Some r)
  /\ (forall k r, Memo.deviceAndAppCache s !! k = Some r ->
                  Memo.deviceAndAppCache s' !! k = Some r)
  /\ (forall k r, Memo.deviceAndMaybeAppCache s !! k = Some r ->
                  Memo.deviceAndMaybeAppCache s' !! k = Some r).

(** * Example runs *)

(** A catalog for one device type: two default versions, the second one
    recommended, and one ESR version. *)
Definition exampleCatalog : gmap string (list OsVersion) :=
  {[ "raspberrypi3" :=
       [ {| rawVersion := "A"; formattedVersion := "A";
            osType := "default"; isRecommended := false |};
         {| rawVersion := "B"; formattedVersion := "B (recommended)";
            osType := "default"; isRecommended := true |};
         {| rawVersion := "2023.10.0"; formattedVersion := "2023.10.0 ESR sunset";
            osType := "esr"; isRecommended := false |} ] ]}.

(** A raw image of three bytes, sent in two chunks. *)
Definition exampleStream : ImageStream :=
  {| mime := Some "application/octet-stream";
     events := [ Progress None;
                 ResolvedVersion "2.88.4";
                 Progress None;
                 Data [Byte.x62; Byte.x61];
                 Progress (Some {| percentage := 66; eta := 1 |});
                 Data [Byte.x6c];
                 End ] |}.

(** The same image, but the connection breaks after the first chunk. *)
Definition interruptedStream : ImageStream :=
  {| mime := Some "application/octet-stream";
     events := [ ResolvedVersion "2.88.4";
                 Progress (Some {| percentage := 66; eta := 1 |});
                 Data [Byte.x62; Byte.x61];
                 StreamError (JsError "socket hang up") ] |}.

(** A stream that fails before any version is resolved. *)
Definition failedStream : ImageStream :=
  {| mime := Some "application/zip";
     events := [ Progress None; StreamError (JsError "unauthorized"); End ] |}.

(** A user who accepts the pre-selected entry of every prompt. *)
Definition acceptDefault (q : Question) : Promise string :=
  match q_default q with
  | Some d => Fulfilled d
  | None => Rejected (JsError "nothing selected")
  end.

Definition exampleWorld : World :=
  {| getAvailableOsVersions := fun _ => Fulfilled exampleCatalog;
     cliFormAsk := acceptDefault;
     managerGet := fun _ _ => Fulfilled exampleStream;
     unzipParse := fun bytes => inr [("balena.img", bytes)];
     stripIndent := interpolate |}.

Definition interruptedWorld : World :=
  {| getAvailableOsVersions := fun _ => Fulfilled exampleCatalog;
     cliFormAsk := acceptDefault;
     managerGet := fun _ _ => Fulfilled interruptedStream;
     unzipParse := fun bytes => inr [("balena.img", bytes)];
     stripIndent := interpolate |}.

Definition failedWorld : World :=
  {| getAvailableOsVersions := fun _ => Fulfilled exampleCatalog;
     cliFormAsk := acceptDefault;
     managerGet := fun _ _ => Fulfilled failedStream;
     unzipParse := fun bytes => inr [("balena.img", bytes)];
     stripIndent := interpolate |}.

Definition emptyState : CliState := {| effects := []; env := ∅; fs := ∅ |}.

(** Two SDK objects that know the same service under different names. *)
Definition sdkOne : Memo.BalenaSDK :=
  {| Memo.pineGetService := fun _ => Fulfilled (Some {| Memo.service_name := "main" |});
     Memo.deviceGet := fun _ _ => Rejected (JsError "Device not found") |}.

Definition sdkTwo : Memo.BalenaSDK :=
  {| Memo.pineGetService := fun _ => Fulfilled (Some {| Memo.service_name := "db" |});
     Memo.deviceGet := fun _ _ => Rejected (JsError "Device not found") |}.

Definition emptyMemo : Memo.MemoState :=
  {| Memo.requests := []; Memo.serviceCache := ∅;
     Memo.deviceAndAppCache := ∅; Memo.deviceAndMaybeAppCache := ∅ |}.

(** Services for which building and applying a bundle fail. *)
Definition failingBundle : Release.Services :=
  {| Release.parseExport :=
       Fulfilled (Release.Commit "a777f7345fe3d655c1c981aa642e5555", "release.tar");
     Release.parseImport :=
       Fulfilled ("release.tar", Some (Release.FleetSlug "myOrg/myFleet"));
     Release.releaseGet := fun _ => Fulfilled 1234567;
     Release.create := fun _ => Rejected (JsError "release has no images");
     Release.writeFile := fun _ _ => Fulfilled tt;
     Release.applicationGet := fun _ => Fulfilled 42;
     Release.apply := fun _ _ => Rejected (JsError "invalid bundle") |}.

(** Services for which the release to export does not exist. *)
Definition missingRelease : Release.Services :=
  {| Release.parseExport :=
       Fulfilled (Release.Commit "a777f7345fe3d655c1c981aa642e5555", "release.tar");
     Release.parseImport :=
       Fulfilled ("release.tar", Some (Release.FleetSlug "myOrg/myFleet"));
     Release.releaseGet := fun _ => Rejected (JsError "Release not found");
     Release.create := fun _ => Rejected (JsError "release has no images");
     Release.writeFile := fun _ _ => Fulfilled tt;
     Release.applicationGet := fun _ => Fulfilled 42;
     Release.apply := fun _ _ => Rejected (JsError "invalid bundle") |}.

(** * Vocabulary of the further properties *)

(** The two steps of [resolveOSVersion] on a token that is not a menu
    token: lines 205-207 and lines 212-214. *)
Definition stripLeadingV (version : string) : string :=
  if firstCharIs "v" version then slice1 version else version.

Definition withVariant (version : string) : string :=
  if negb (endsWith version ".dev") && negb (endsWith version ".prod")
  then version +:+ ".prod"
  else version.

(** A computation that leaves one component of the state as it is. *)
Definition preserves {A B} (component : CliState -> B) (m : M CliState A) : Prop :=
  forall s, component (snd (m s)) = component s.

(** A computation whose promise always settles. *)
Definition settles {S A} (m : M S A) : Prop :=
  forall s, fst (m s) <> Pending.

(** The message printed when the download is complete. *)
Definition isCompletion (e : Effect) : bool :=
  match e with
  | ConsoleInfo msg => String.prefix "balenaOS image version " msg
  | _ => false
  end.

(** How a ['progress'] event shows: [bar.update(state)] or
    [spinner.start()]. *)
Definition render (state : option ProgressState) : Effect :=
  match state with
  | Some st => BarUpdate st
  | None => SpinnerStart
  end.

(** What a paused stream holds back while the version is awaited: the
    chunks and the end of the payload. *)
Definition heldBack (pre : list StreamEvent) : list StreamEvent :=
  List.filter (fun ev => match ev with
                         | Data _ | End => true
                         | _ => false
                         end) pre.

(** The completion message for a display version. *)
Definition completionMessage (displayVersion : string) : Effect :=
  ConsoleInfo ("balenaOS image version " +:+ displayVersion
                 +:+ " downloaded successfully").

(** The bar and the spinner for a display version. *)
Definition rendererFor (displayVersion : string) : list Effect :=
  [NewProgress ("Downloading balenaOS version " +:+ displayVersion);
   NewSpinner ("Downloading balenaOS version " +:+ displayVersion
                 +:+ " (size unknown)")].

(** The destination that [openOutput] builds for a [mime] value. *)
Definition outputFor (streamMime : option string) (outputPath : string) : Output :=
  if decide (streamMime = Some "application/zip")
  then Extract outputPath []
  else WriteStream outputPath.

(** The state in which the stream starts to be piped: the bar and the
    spinner exist and the destination is open (a write stream starts from
    an empty file). *)
Definition whenPiped (s : CliState) (displayVersion : string)
    (streamMime : option string) (outputPath : string) : CliState :=
  {| effects := effects s ++ rendererFor displayVersion
                  ++ [stageFor streamMime outputPath];
     env := env s;
     fs := if decide (streamMime = Some "application/zip")
           then fs s
           else <[outputPath := File []]> (fs s) |}.

(** What version resolution emits for a device type: its first message,
    the warning, the catalog query and the prompt. *)
Definition resolutionEffect (deviceType : string) (e : Effect) : bool :=
  match e with
  | ConsoleInfo msg =>
      String.eqb msg ("Getting device operating system for " +:+ deviceType)
  | ConsoleWarn _ | GetAvailableOsVersions _ | CliFormAsk _ => true
  | _ => false
  end.

(** A zipped image whose archive the parser rejects. *)
Definition zipStream : ImageStream :=
  {| mime := Some "application/zip";
     events := [ ResolvedVersion "2.88.4";
                 Data [Byte.x50; Byte.x4b];
                 Progress None;
                 End ] |}.

Definition badZipWorld : World :=
  {| getAvailableOsVersions := fun _ => Fulfilled exampleCatalog;
     cliFormAsk := acceptDefault;
     managerGet := fun _ _ => Fulfilled zipStream;
     unzipParse := fun _ => inl (JsError "invalid signature");
     stripIndent := interpolate |}.

(** A raw image whose destination fails after the first chunk. *)
Definition diskFullStream : ImageStream :=
  {| mime := None;
     events := [ ResolvedVersion "2.88.4";
                 Data [Byte.x62; Byte.x61];
                 OutputError (JsError "ENOSPC");
                 Data [Byte.x6c];
                 End ] |}.

Definition diskFullWorld : World :=
  {| getAvailableOsVersions := fun _ => Fulfilled exampleCatalog;
     cliFormAsk := acceptDefault;
     managerGet := fun _ _ => Fulfilled diskFullStream;
     unzipParse := fun bytes => inr [("balena.img", bytes)];
     stripIndent := interpolate |}.

(** A user who closes every prompt without choosing. *)
Definition cancellingWorld : World :=
  {| getAvailableOsVersions := fun _ => Fulfilled exampleCatalog;
     cliFormAsk := fun _ => Rejected (JsError "User force closed the prompt");
     managerGet := fun _ _ => Fulfilled exampleStream;
     unzipParse := fun bytes => inr [("balena.img", bytes)];
     stripIndent := interpolate |}.

(** The state after the first message and the catalog query of the menu
    path, and after the prompt [q]. *)
Definition afterPrompt (s : CliState) (deviceType : string) (q : Question)
  : CliState :=
  logged
    (logged
       (logged s (ConsoleInfo ("Getting device operating system for " +:+ deviceType)))
       (GetAvailableOsVersions [deviceType]))
    (CliFormAsk q).

(** The menu token for a partition. *)
Definition menuToken (esr : bool) : string :=
  if esr then "menu-esr" else "menu".

(** The ESR descriptor of the example catalog as a fetch returns it, and a
    catalog that lists it that way. *)
Definition fetchedEsr : OsVersion :=
  {| rawVersion := "2023.10.0"; formattedVersion := "v2023.10.0 ESR sunset";
     osType := "esr"; isRecommended := false |}.

Definition refetchCatalog : gmap string (list OsVersion) :=
  {[ "raspberrypi3" := [fetchedEsr] ]}.

Definition refetchWorld : World :=
  {| getAvailableOsVersions := fun _ => Fulfilled refetchCatalog;
     cliFormAsk := acceptDefault;
     managerGet := fun _ _ => Fulfilled exampleStream;
     unzipParse := fun bytes => inr [("balena.img", bytes)];
     stripIndent := interpolate |}.

(** What a request is about: a service id or a device UUID. *)
Definition requestKey (r : Memo.SdkRequest) : Z + string :=
  match r with
  | Memo.PineGetService id => inl id
  | Memo.DeviceGet uuid _ => inr uuid
  end.

(** Every request that was sent has left an entry in the cache of its
    function, and no two requests are about the same service id or the same
    device UUID. *)
Definition requestsCached (s : Memo.MemoState) : Prop :=
  List.NoDup (map requestKey (Memo.requests s))
  /\ (forall id, In (inl id) (map requestKey (Memo.requests s)) ->
                 is_Some (Memo.serviceCache s !! pretty id))
  /\ (forall uuid, In (inr uuid) (map requestKey (Memo.requests s)) ->
                   is_Some (Memo.deviceAndMaybeAppCache s !! uuid)).

(** How the promise of [getDeviceAndAppFromUUID] follows from the promise
    of [getDeviceAndMaybeAppFromUUID] for the same UUID. *)
Definition appRequired (w : World) (deviceUUID : string)
    (maybe : Outcome (Memo.Device * option Memo.Application))
  : Outcome (Memo.Device * Memo.Application) :=
  match maybe with
  | Returned (device, Some app) => Returned (device, app)
  | Returned (device, None) =>
      Thrown (ExpectedError (stripIndent w Memo.noFleetAccessTemplate [deviceUUID]))
  | Thrown e => Thrown e
  | Pending => Pending
  end.

(** The two device caches agree: an entry of [getDeviceAndAppFromUUID] is
    what the entry of [getDeviceAndMaybeAppFromUUID] for the same UUID
    requires, and no cached application is an empty object. *)
Definition deviceCachesAgree (w : World) (s : Memo.MemoState) : Prop :=
  (forall uuid r,
      Memo.deviceAndAppCache s !! uuid = Some r ->
      exists maybe,
        Memo.deviceAndMaybeAppCache s !! uuid = Some maybe
        /\ r = appRequired w uuid maybe)
  /\ (forall uuid device app,
        Memo.deviceAndMaybeAppCache s !! uuid = Some (Returned (device, Some app)) ->
        app <> []).

(** A device whose fleet is not accessible, and an SDK that knows it. *)
Definition orphanDevice : Memo.Device :=
  {| Memo.deviceFields := [("uuid", "7dc3a4f")];
     Memo.belongs_to__application := Some [] |}.

Definition sdkOrphan : Memo.BalenaSDK :=
  {| Memo.pineGetService := fun _ => Fulfilled None;
     Memo.deviceGet := fun _ _ => Fulfilled orphanDevice |}.

(** ** The [os download] command *)

Module OsDownload.

(** How [OsDownloadCmd.checkLoggedIn()] ends: it resolves, it throws a
    [NotLoggedInError] with a message, or it throws something else. *)
Inductive LoginCheck : Type :=
| LoggedIn
| NotLoggedIn (message : string)
| LoginFailed (e : Error).

(** The collaborators of the command: [this.parse] gives [args.type],
    [flags.output] and [flags.version] or throws; [isESR] is the test of
    balena-image-manager. *)
Record Services : Type := {
  parse : Error + (string * string * option string);
  isESR : string -> bool;
  checkLoggedIn : LoginCheck
}.

(** How the promise of [run] ends; a rejection carries the error and its
    [deviceTypeSlug] property when the command has set it. *)
Inductive CommandOutcome : Type :=
| Completed
| RejectedWith (e : Error) (deviceTypeSlug : option string)
| NeverSettles.

Definition authenticationTemplate : list string :=
  [ nl +:+ tab +:+ tab +:+ tab +:+ tab +:+ tab +:+ tab +:+ tab;
    nl +:+ tab +:+ tab +:+ tab +:+ tab +:+ tab +:+ tab +:+ tab
      +:+ "User authentication is required to download balenaOS ESR versions." ].

(** Lines 145-162: the error the authentication block throws, if any. *)
Definition loginGate (sv : Services) (w : World) (version : option string)
  : option Error :=
  match version with
  | Some (String c rest) =>
      let v := String c rest in
      if String.eqb v "menu-esr" || isESR sv v then
        match checkLoggedIn sv with
        | LoggedIn => None
        | NotLoggedIn message =>
            Some (ExpectedError (stripIndent w authenticationTemplate [message]))
        | LoginFailed e => Some e
        end
      else None
  | _ => None
  end.

(** [OsDownloadCmd.run], lines 139-171. *)
Definition run (sv : Services) (w : World) (s : CliState)
  : CommandOutcome * CliState :=
  match parse sv with
  | inl e => (RejectedWith e None, s)
  | inr (type, output, version) =>
      match loginGate sv w version with
      | Some e => (RejectedWith e None, s)
      | None =>
          match downloadOSImage w type output version s with
          | (Returned _, s') => (Completed, s')
          | (Thrown e, s') => (RejectedWith e (Some type), s')
          | (Pending, s') => (NeverSettles, s')
          end
      end
  end.

End OsDownload.

(** An anonymous user asking for the ESR menu. *)
Definition anonymousEsr : OsDownload.Services :=
  {| OsDownload.parse := inr ("raspberrypi3", "out.img", Some "menu-esr");
     OsDownload.isESR := fun v => String.prefix "20" v;
     OsDownload.checkLoggedIn := OsDownload.NotLoggedIn "You have to log in" |}.

(** An anonymous user asking for a version that is not an ESR one, for a
    device type the catalog does not know. *)
Definition anonymousMenu : OsDownload.Services :=
  {| OsDownload.parse := inr ("no-such-device", "out.img", Some "menu");
     OsDownload.isESR := fun v => String.prefix "20" v;
     OsDownload.checkLoggedIn := OsDownload.NotLoggedIn "You have to log in" |}.

(** The actions of a run of a release command that touch something
    outside: the SDK, the bundle library, the files. *)
Definition isWriteFile (a : Release.Action) : bool :=
  match a with
  | Release.WriteFile _ _ => true
  | _ => false
  end.

(** Services for an import without [--fleet]. *)
Definition noFleet : Release.Services :=
  {| Release.parseExport := Rejected (JsError "Missing required flag output");
     Release.parseImport := Fulfilled ("release.tar", None);
     Release.releaseGet := fun _ => Fulfilled 1234567;
     Release.create := fun _ => Fulfilled [];
     Release.writeFile := fun _ _ => Fulfilled tt;
     Release.applicationGet := fun _ => Fulfilled 42;
     Release.apply := fun _ _ => Fulfilled tt |}.

(** ** The [quickstart] wizard *)

Module Wizard.

(** The collaborators of the action: [patterns.selectOrCreateApplication],
    [resin.models.application.has], [capitano.runAsync] (the value its
    command passes back) and [patterns.awaitDevice]. *)
Record Services : Type := {
  selectOrCreateApplication : Promise string;
  applicationHas : string -> Promise bool;
  runAsync : string -> Promise string;
  awaitDevice : string -> Promise unit
}.

(** What the action does, in program order; [Done error] is the call of
    the [done] callback. *)
Inductive Action : Type :=
| SelectOrCreateApplication
| ApplicationHas (name : string)
| RunCommand (command : string)
| AwaitDevice (uuid : string)
| ConsoleLog (line : string)
| Done (error : option Error).

Definition act (a : Action) : M (list Action) unit :=
  modify (fun log => log ++ [a]).

Definition readyMessage : string :=
  "Your device is ready, start pushing some code!".

(** The function given to [Promise.try]: the application name the rest of
    the chain finds in [params.name]. *)
Definition chooseApplication (sv : Services) (name : option string)
  : M (list Action) string :=
  match name with
  | Some n => ret n
  | None =>
      act SelectOrCreateApplication ;;;
      applicationName <- await (selectOrCreateApplication sv) ;;
      (* .tap: the application is created when it does not exist *)
      act (ApplicationHas applicationName) ;;;
      hasApplication <- await (applicationHas sv applicationName) ;;
      (if (hasApplication : bool) then ret applicationName
       else act (RunCommand ("app create " +:+ applicationName)) ;;;
            await (runAsync sv ("app create " +:+ applicationName))) ;;;
      ret applicationName
  end.

(** The promise chain of lines 19-38. *)
Definition chain (sv : Services) (name : option string) : M (list Action) unit :=
  application <- chooseApplication sv name ;;
  act (RunCommand ("device init --application " +:+ application)) ;;;
  uuid <- await (runAsync sv ("device init --application " +:+ application)) ;;
  act (AwaitDevice uuid) ;;;
  await (awaitDevice sv uuid) ;;;
  act (RunCommand ("device " +:+ uuid)) ;;;
  await (runAsync sv ("device " +:+ uuid)) ;;;
  act (ConsoleLog readyMessage).

(** [exports.wizard.action], lines 18-40: the chain, then [.nodeify(done)]. *)
Definition action (sv : Services) (name : option string) : M (list Action) unit :=
  fun log =>
    match chain sv name log with
    | (Returned _, log') => (Returned tt, log' ++ [Done None])
    | (Thrown e, log') => (Thrown e, log' ++ [Done (Some e)])
    | (Pending, log') => (Pending, log')
    end.

End Wizard.

Definition isDone (a : Wizard.Action) : bool :=
  match a with
  | Wizard.Done _ => true
  | _ => false
  end.

(** A first use: the application exists already, the device never comes
    online. *)
Definition deviceNeverOnline : Wizard.Services :=
  {| Wizard.selectOrCreateApplication := Fulfilled "MyApp";
     Wizard.applicationHas := fun _ => Fulfilled true;
     Wizard.runAsync := fun _ => Fulfilled "7dc3a4f";
     Wizard.awaitDevice := fun _ => Rejected (JsError "timeout") |}.

(** * Properties *)

(** ** Strings *)

Section StringFacts.

Local Open Scope nat_scope.

Lemma string_app_cons (c : ascii) (s t : string) :
  String c s +:+ t = String c (s +:+ t).
Proof. reflexivity. Qed.

Lemma string_app_empty (t : string) : EmptyString +:+ t = t.
Proof. reflexivity. Qed.

Lemma string_app_assoc (s t u : string) : (s +:+ t) +:+ u = s +:+ t +:+ u.
Proof.
  induction s as [|c s IH]; [reflexivity|].
  rewrite !string_app_cons. now rewrite IH.
Qed.

Lemma string_length_app (s t : string) :
  String.length (s +:+ t) = String.length s + String.length t.
Proof.
  induction s as [|c s IH]; [reflexivity|].
  rewrite string_app_cons. simpl. now rewrite IH.
Qed.

Lemma dropChars_app (p t : string) : dropChars (String.length p) (p +:+ t) = t.
Proof.
  induction p as [|c p IH]; [now destruct t|].
  rewrite string_app_cons. exact IH.
Qed.

Lemma dropChars_split (k : nat) (s : string) :
  k <= String.length s ->
  exists p, s = p +:+ dropChars k s /\ String.length p = k.
Proof.
  revert s; induction k as [|k IH]; intros s Hk.
  - exists EmptyString. split; reflexivity.
  - destruct s as [|c s]; simpl in Hk; [lia|].
    destruct (IH s) as [p [Hp Hlen]]; [lia|].
    exists (String c p). rewrite string_app_cons. simpl.
    split; [now rewrite <- Hp | now rewrite Hlen].
Qed.

(** [endsWith] holds exactly of the strings that are something followed by
    the suffix. *)
Lemma endsWith_spec (s suffix : string) :
  endsWith s suffix = true <-> exists p, s = p +:+ suffix.
Proof.
  unfold endsWith. split.
  - destruct (Nat.leb_spec (String.length suffix) (String.length s)) as [Hle|Hlt];
      [|discriminate].
    intros Heq. apply String.eqb_eq in Heq.
    destruct (dropChars_split (String.length s - String.length suffix) s)
      as [p [Hp _]]; [lia|].
    exists p. now rewrite <- Heq.
  - intros [p ->]. rewrite string_length_app.
    destruct (Nat.leb_spec (String.length suffix)
                (String.length p + String.length suffix)) as [_|Hlt]; [|lia].
    replace (String.length p + String.length suffix - String.length suffix)
      with (String.length p) by lia.
    rewrite dropChars_app. apply String.eqb_refl.
Qed.

Lemma endsWith_false (s suffix : string) :
  endsWith s suffix = false <-> ~ exists p, s = p +:+ suffix.
Proof.
  split.
  - intros Hf Hex. apply endsWith_spec in Hex. congruence.
  - intros Hn. destruct (endsWith s suffix) eqn:E; [|reflexivity].
    exfalso. apply Hn. now apply endsWith_spec.
Qed.

Lemma firstCharIs_spec (c : ascii) (s : string) :
  firstCharIs c s = true <-> exists r, s = String c r.
Proof.
  destruct s as [|c' r]; simpl.
  - split; [discriminate | intros [r Hr]; discriminate].
  - rewrite Ascii.eqb_eq. split.
    + intros ->. now exists r.
    + intros [r' Hr]. now inversion Hr.
Qed.

Lemma spaceless_cons (c : ascii) (s : string) :
  c <> " "%char -> spaceless s -> spaceless (String c s).
Proof.
  intros Hc Hs pre post Heq. destruct pre as [|c' pre].
  - rewrite string_app_empty, string_app_cons in Heq. inversion Heq. congruence.
  - rewrite string_app_cons in Heq. inversion Heq. subst. now apply (Hs pre post).
Qed.

Lemma prefix_space (c : ascii) (s : string) :
  String.prefix " " (String c s) = if ascii_dec " " c then true else false.
Proof.
  change (String.prefix " " (String c s))
    with (if ascii_dec " " c then String.prefix EmptyString s else false).
  destruct (ascii_dec " " c); [now destruct s | reflexivity].
Qed.

Lemma indexOfFrom_cons (pat : string) (c : ascii) (s : string) (i : Z) :
  indexOfFrom pat (String c s) i
  = if String.prefix pat (String c s) then i else indexOfFrom pat s (i + 1)%Z.
Proof. reflexivity. Qed.

Lemma indexOfFrom_space (s : string) (i : Z) :
  (0 <= i)%Z ->
  (indexOfFrom " " s i = (-1)%Z /\ spaceless s)
  \/ (exists pre post,
        s = pre +:+ " " +:+ post /\ spaceless pre
        /\ indexOfFrom " " s i = (i + Z.of_nat (String.length pre))%Z).
Proof.
  revert i; induction s as [|c s IH]; intros i Hi.
  - left. split; [reflexivity|]. intros [|c pre] post; discriminate.
  - rewrite indexOfFrom_cons, prefix_space.
    destruct (ascii_dec " " c) as [<-|Hc].
    + right. exists EmptyString, s. repeat split.
      * intros [|c pre] post; discriminate.
      * simpl. lia.
    + destruct (IH (i + 1)%Z) as [[Hidx Hs]|[pre [post [Heq [Hpre' Hidx]]]]];
        [lia| |].
      * left. split; [exact Hidx | apply spaceless_cons; congruence].
      * right. exists (String c pre), post. repeat split.
        -- rewrite string_app_cons. now rewrite <- Heq.
        -- apply spaceless_cons; congruence.
        -- rewrite Hidx. simpl String.length. lia.
Qed.

(** The label before and after [reformat], by cases on the first space. *)
Lemma reformat_label (v : OsVersion) :
  (spaceless (formattedVersion v)
   /\ formattedVersion (reformat v) = "v" +:+ rawVersion v)
  \/ (exists pre post,
        formattedVersion v = pre +:+ " " +:+ post /\ spaceless pre
        /\ formattedVersion (reformat v) = "v" +:+ rawVersion v +:+ " " +:+ post).
Proof.
  unfold reformat, indexOf. simpl.
  destruct (indexOfFrom_space (formattedVersion v) 0)
    as [[Hidx Hs]|[pre [post [Heq [Hpre Hidx]]]]]; [lia| |].
  - left. rewrite Hidx. now split.
  - right. exists pre, post. rewrite Hidx. repeat split; try assumption.
    destruct (Z.ltb_spec (0 + Z.of_nat (String.length pre)) 0) as [Hneg|_]; [lia|].
    unfold substringFrom. rewrite Z.add_0_l, Nat2Z.id.
    rewrite Heq at 1. now rewrite dropChars_app.
Qed.

(** The first space of a string is where it is: two ways of cutting a
    string at a space with nothing but other characters before it agree. *)
Lemma first_space_unique (pre1 post1 pre2 post2 : string) :
  pre1 +:+ " " +:+ post1 = pre2 +:+ " " +:+ post2 ->
  spaceless pre1 -> spaceless pre2 ->
  pre1 = pre2 /\ post1 = post2.
Proof.
  revert pre2; induction pre1 as [|c pre1 IH]; intros pre2 Heq H1 H2.
  - destruct pre2 as [|c2 pre2]; simpl in Heq.
    + inversion Heq. now split.
    + inversion Heq. subst c2. exfalso.
      apply (H2 EmptyString pre2). reflexivity.
  - destruct pre2 as [|c2 pre2]; simpl in Heq.
    + inversion Heq. subst c. exfalso.
      apply (H1 EmptyString pre1). reflexivity.
    + inversion Heq. subst c2.
      destruct (IH pre2) as [-> ->]; try assumption.
      * intros a b Hab. apply (H1 (String c a) b). simpl. now rewrite Hab.
      * intros a b Hab. apply (H2 (String c a) b). simpl. now rewrite Hab.
      * now split.
Qed.

End StringFacts.

(** ** [getFormattedOsVersions] *)

Lemma catalogPartition_osType byType deviceType esr :
  Forall (fun v => osType v = wantedOsType esr) (catalogPartition byType deviceType esr).
Proof.
  apply List.Forall_forall. intros v Hin.
  apply List.filter_In in Hin. destruct Hin as [_ Heq].
  now apply String.eqb_eq in Heq.
Qed.

(** What [getFormattedOsVersions] evaluates to once the catalog has
    answered. *)
Lemma getFormattedOsVersions_run w deviceType esr s byType :
  getAvailableOsVersions w [deviceType] = Fulfilled byType ->
  getFormattedOsVersions w deviceType esr s
  = match map reformat (catalogPartition byType deviceType esr) with
    | [] => (Thrown (ExpectedError (stripIndent w noVersionsTemplate [deviceType])),
             logged s (GetAvailableOsVersions [deviceType]))
    | v :: vs => (Returned (v :: vs), logged s (GetAvailableOsVersions [deviceType]))
    end.
Proof.
  intros Hq. unfold getFormattedOsVersions, bind, emit, modify, await.
  rewrite Hq. fold (catalogPartition byType deviceType esr).
  now destruct (map reformat (catalogPartition byType deviceType esr)).
Qed.

(** C2: when the catalog answers and the requested partition is not empty,
    [getFormattedOsVersions] returns one descriptor for each descriptor of
    the partition, in the same order. Each has the requested [osType]
    (['esr'] when the flag is set, ['default'] otherwise) and the raw version
    of its original; its label is ['v' + rawVersion] when the upstream label
    has no space, and ['v' + rawVersion] followed by the upstream label from
    its first space on otherwise; so every returned label starts with
    ['v']. *)
Theorem getFormattedOsVersions_nonempty_partition
    (w : World) (deviceType : string) (esr : bool) (s : CliState)
    (byType : gmap string (list OsVersion)) :
  getAvailableOsVersions w [deviceType] = Fulfilled byType ->
  catalogPartition byType deviceType esr <> [] ->
  exists versions,
    getFormattedOsVersions w deviceType esr s
    = (Returned versions, logged s (GetAvailableOsVersions [deviceType]))
    /\ Forall (fun v => osType v = if esr then "esr" else "default") versions
    /\ Forall2
         (fun u v =>
            rawVersion v = rawVersion u
            /\ isRecommended v = isRecommended u
            /\ (spaceless (formattedVersion u) ->
                formattedVersion v = "v" +:+ rawVersion u)
            /\ (forall pre post,
                  formattedVersion u = pre +:+ " " +:+ post -> spaceless pre ->
                  formattedVersion v = "v" +:+ rawVersion u +:+ " " +:+ post))
         (catalogPartition byType deviceType esr) versions
    /\ Forall (fun v => exists rest, formattedVersion v = String "v" rest) versions.
Proof.
  intros Hq Hne. exists (map reformat (catalogPartition byType deviceType esr)).
  split; [|split; [|split]].
  - rewrite (getFormattedOsVersions_run _ _ _ _ _ Hq).
    destruct (catalogPartition byType deviceType esr) as [|v vs]; [congruence|reflexivity].
  - apply List.Forall_map. simpl. exact (catalogPartition_osType byType deviceType esr).
  - clear Hne.
    induction (catalogPartition byType deviceType esr) as [|u us IH]; [constructor|].
    simpl. constructor; [|exact IH].
    split; [reflexivity|]. split; [reflexivity|]. split.
    + intros Hs. destruct (reformat_label u) as [[_ Hl]|[pre [post [Heq _]]]];
        [exact Hl | exfalso; exact (Hs pre post Heq)].
    + intros pre post Heq Hpre.
      destruct (reformat_label u) as [[Hs _]|[pre' [post' [Heq' [Hpre' Hl]]]]];
        [exfalso; exact (Hs pre post Heq)|].
      rewrite Heq in Heq'.
      destruct (first_space_unique _ _ _ _ Heq' Hpre Hpre') as [_ ->]. exact Hl.
  - apply List.Forall_map, List.Forall_forall. intros u _.
    destruct (reformat_label u) as [[_ ->]|[pre [post [_ [_ ->]]]]];
      eexists; reflexivity.
Qed.

Lemma getFormattedOsVersions_nonempty_partition_witness :
  getAvailableOsVersions exampleWorld ["raspberrypi3"] = Fulfilled exampleCatalog
  /\ catalogPartition exampleCatalog "raspberrypi3" true <> []
  /\ exists versions,
       fst (getFormattedOsVersions exampleWorld "raspberrypi3" true emptyState)
       = Returned versions
       /\ Forall (fun v => exists rest, formattedVersion v = String "v" rest) versions.
Proof.
  assert (Hne : catalogPartition exampleCatalog "raspberrypi3" true <> [])
    by (vm_compute; discriminate).
  split; [reflexivity|]. split; [exact Hne|].
  destruct (getFormattedOsVersions_nonempty_partition exampleWorld "raspberrypi3"
              true emptyState exampleCatalog eq_refl Hne)
    as (versions & Hrun & _ & _ & Hv).
  exists versions. rewrite Hrun. now split.
Defined.

(** C3: when the catalog answers and the requested partition is empty,
    [getFormattedOsVersions] throws an [ExpectedError] and returns no
    versions. The message is the [stripIndent] template whose single
    placeholder is the device type, so its text names the device type.
    The catalog is queried once and not again; the failure goes through
    [selectOSVersionFromMenu] and [downloadOSImage] unchanged, before any
    prompt and before the image manager is asked for anything. *)
Theorem getFormattedOsVersions_empty_partition
    (w : World) (deviceType outputPath : string) (esr : bool) (s : CliState)
    (byType : gmap string (list OsVersion)) :
  getAvailableOsVersions w [deviceType] = Fulfilled byType ->
  catalogPartition byType deviceType esr = [] ->
  let failure :=
    ExpectedError (stripIndent w noVersionsTemplate [deviceType]) in
  getFormattedOsVersions w deviceType esr s
  = (Thrown failure, logged s (GetAvailableOsVersions [deviceType]))
  /\ (exists pre post,
        interpolate noVersionsTemplate [deviceType]
        = pre +:+ "device type '" +:+ deviceType +:+ "'" +:+ post)
  /\ selectOSVersionFromMenu w deviceType esr s
     = (Thrown failure, logged s (GetAvailableOsVersions [deviceType]))
  /\ downloadOSImage w deviceType outputPath
       (Some (if esr then "menu-esr" else "menu")) s
     = (Thrown failure,
        logged (logged s (ConsoleInfo ("Getting device operating system for "
                                         +:+ deviceType)))
          (GetAvailableOsVersions [deviceType])).
Proof.
  intros Hq Hempty failure.
  assert (Hrun : forall s0, getFormattedOsVersions w deviceType esr s0
                 = (Thrown failure, logged s0 (GetAvailableOsVersions [deviceType]))).
  { intros s0. rewrite (getFormattedOsVersions_run _ _ _ _ _ Hq), Hempty.
    reflexivity. }
  assert (Hmenu : forall s0, selectOSVersionFromMenu w deviceType esr s0
                  = (Thrown failure, logged s0 (GetAvailableOsVersions [deviceType]))).
  { intros s0. unfold selectOSVersionFromMenu, bind. now rewrite Hrun. }
  split; [apply Hrun|]. split; [|split; [apply Hmenu|]].
  - exists (nl +:+ tab +:+ tab +:+ tab +:+ "Error: No balenaOS versions found for ").
    exists ("." +:+ nl +:+ tab +:+ tab +:+ tab
              +:+ "Double-check the device type slug with 'balena devices supported'.").
    unfold noVersionsTemplate, interpolate.
    rewrite !string_app_assoc. reflexivity.
  - unfold downloadOSImage, requestedVersion, resolveOSVersion, bind, emit, modify, ret.
    destruct esr; simpl; rewrite Hmenu; reflexivity.
Qed.

Lemma getFormattedOsVersions_empty_partition_witness :
  getAvailableOsVersions exampleWorld ["no-such-device"] = Fulfilled exampleCatalog
  /\ catalogPartition exampleCatalog "no-such-device" false = []
  /\ fst (getFormattedOsVersions exampleWorld "no-such-device" false emptyState)
     = Thrown (ExpectedError
                 (interpolate noVersionsTemplate ["no-such-device"])).
Proof.
  assert (Hempty : catalogPartition exampleCatalog "no-such-device" false = [])
    by (vm_compute; reflexivity).
  split; [reflexivity|]. split; [exact Hempty|].
  destruct (getFormattedOsVersions_empty_partition exampleWorld "no-such-device"
              "out.img" false emptyState exampleCatalog eq_refl Hempty)
    as (Hrun & _).
  rewrite Hrun. reflexivity.
Defined.

Lemma includes_menu (token : string) :
  token <> "menu" -> token <> "menu-esr" ->
  includes ["menu"; "menu-esr"] token = false.
Proof.
  intros Hmenu Hesr. unfold includes. cbn [existsb].
  apply String.eqb_neq in Hmenu. apply String.eqb_neq in Hesr.
  now rewrite Hmenu, Hesr.
Qed.

(** C1: for a token other than ['menu'] and ['menu-esr'],
    [resolveOSVersion] removes one leading ['v'] when there is one, then
    appends ['.prod'] unless what remains already ends in ['.dev'] or
    ['.prod']; it leaves the state as it was, so it queries no catalog and
    asks nothing. The same holds of the sentinel-like literals:
    ['v2.60.1+rev1'] gives ['2.60.1+rev1.prod'], ['2.60.1+rev1.dev'] is
    unchanged and ['latest'] gives ['latest.prod']. *)
Theorem resolveOSVersion_suffix_policy
    (w : World) (deviceType token : string) (s : CliState) :
  token <> "menu" -> token <> "menu-esr" ->
  (exists stripped result,
      resolveOSVersion w deviceType token s = (Returned result, s)
      /\ (forall rest, token = String "v" rest -> stripped = rest)
      /\ ((forall rest, token <> String "v" rest) -> stripped = token)
      /\ ((exists p, stripped = p +:+ ".dev") \/ (exists p, stripped = p +:+ ".prod") ->
          result = stripped)
      /\ (~ (exists p, stripped = p +:+ ".dev") ->
          ~ (exists p, stripped = p +:+ ".prod") ->
          result = stripped +:+ ".prod"))
  /\ resolveOSVersion w deviceType "v2.60.1+rev1" s = (Returned "2.60.1+rev1.prod", s)
  /\ resolveOSVersion w deviceType "2.60.1+rev1.dev" s = (Returned "2.60.1+rev1.dev", s)
  /\ resolveOSVersion w deviceType "latest" s = (Returned "latest.prod", s).
Proof.
  intros Hmenu Hesr. split; [|repeat split].
  unfold resolveOSVersion. rewrite (includes_menu token Hmenu Hesr).
  set (stripped := if firstCharIs "v" token then slice1 token else token).
  exists stripped.
  exists (if negb (endsWith stripped ".dev") && negb (endsWith stripped ".prod")
          then stripped +:+ ".prod" else stripped).
  split; [reflexivity|]. split; [|split; [|split]].
  - intros rest ->. reflexivity.
  - intros Hnov. subst stripped.
    destruct (firstCharIs "v" token) eqn:Hv; [|reflexivity].
    apply firstCharIs_spec in Hv. destruct Hv as [r Hr]. now destruct (Hnov r).
  - intros [Hdev|Hprod].
    + apply endsWith_spec in Hdev. now rewrite Hdev.
    + apply endsWith_spec in Hprod. rewrite Hprod. now rewrite andb_false_r.
  - intros Hdev Hprod.
    apply endsWith_false in Hdev. apply endsWith_false in Hprod.
    now rewrite Hdev, Hprod.
Qed.

Lemma resolveOSVersion_suffix_policy_witness :
  "recommended" <> "menu" /\ "recommended" <> "menu-esr"
  /\ resolveOSVersion exampleWorld "raspberrypi3" "recommended" emptyState
     = (Returned "recommended.prod", emptyState).
Proof.
  assert (H1 : "recommended" <> "menu") by discriminate.
  assert (H2 : "recommended" <> "menu-esr") by discriminate.
  split; [exact H1|]. split; [exact H2|].
  destruct (resolveOSVersion_suffix_policy exampleWorld "raspberrypi3" "recommended"
              emptyState H1 H2) as [(stripped & result & Hrun & _ & Hkeep & _ & Hadd) _].
  rewrite Hrun. f_equal. f_equal.
  rewrite Hadd.
  - now rewrite Hkeep by (intros rest; discriminate).
  - rewrite Hkeep by (intros rest; discriminate).
    intros [p Hp].
    assert (Hends : endsWith "recommended" ".dev" = true)
      by (apply endsWith_spec; now exists p).
    discriminate.
  - rewrite Hkeep by (intros rest; discriminate).
    intros [p Hp].
    assert (Hends : endsWith "recommended" ".prod" = true)
      by (apply endsWith_spec; now exists p).
    discriminate.
Defined.

(** ** Effects of the download path *)

Section EmitsOnly.

Context (P : Effect -> bool).

Lemma emitsOnly_ret {A} (a : A) : emitsOnly P (ret a).
Proof. intros s. exists []. simpl. now rewrite app_nil_r. Qed.

Lemma emitsOnly_throw {A} (e : Error) : emitsOnly P (@throw _ A e).
Proof. intros s. exists []. simpl. now rewrite app_nil_r. Qed.

Lemma emitsOnly_await {A} (p : Promise A) : emitsOnly P (await p).
Proof. intros s. exists []. destruct p; simpl; now rewrite app_nil_r. Qed.

Lemma emitsOnly_awaitListeners {A} (o : Outcome A) :
  emitsOnly P (awaitListeners o).
Proof. intros s. exists []. simpl. now rewrite app_nil_r. Qed.

Lemma emitsOnly_emit (e : Effect) : P e = true -> emitsOnly P (emit e).
Proof. intros He s. exists [e]. simpl. split; [reflexivity | now constructor]. Qed.

Lemma emitsOnly_setEnv (k v : string) : emitsOnly P (setEnv k v).
Proof. intros s. exists []. simpl. now rewrite app_nil_r. Qed.

Lemma emitsOnly_setFs (path : string) (n : FsNode) : emitsOnly P (setFs path n).
Proof. intros s. exists []. simpl. now rewrite app_nil_r. Qed.

Lemma emitsOnly_gets {A} (f : CliState -> A) : emitsOnly P (gets f).
Proof. intros s. exists []. simpl. now rewrite app_nil_r. Qed.

Lemma emitsOnly_bind {A B} (m : M CliState A) (k : A -> M CliState B) :
  emitsOnly P m -> (forall a, emitsOnly P (k a)) -> emitsOnly P (bind m k).
Proof.
  intros Hm Hk s. unfold bind.
  destruct (Hm s) as [d1 [Hd1 HP1]].
  destruct (m s) as [[a|e|] s1]; simpl in Hd1; [|now exists d1..].
  destruct (Hk a s1) as [d2 [Hd2 HP2]].
  exists (d1 ++ d2). rewrite Hd2, Hd1, <- List.app_assoc.
  split; [reflexivity | now apply Forall_app].
Qed.

Lemma emitsOnly_weaken {A} (Q : Effect -> bool) (m : M CliState A) :
  (forall e, Q e = true -> P e = true) -> emitsOnly Q m -> emitsOnly P m.
Proof.
  intros HQP Hm s. destruct (Hm s) as [d [Hd HQ]]. exists d.
  split; [exact Hd|]. eapply List.Forall_impl; [|exact HQ]. exact HQP.
Qed.

End EmitsOnly.

Create HintDb emits.
#[local] Hint Resolve emitsOnly_ret emitsOnly_throw emitsOnly_await
  emitsOnly_awaitListeners emitsOnly_setEnv emitsOnly_setFs emitsOnly_gets : emits.

Ltac emits_step :=
  first [ apply emitsOnly_bind; [|intros ?]
        | apply emitsOnly_emit; reflexivity
        | solve [auto with emits] ].

Lemma getFormattedOsVersions_emits w deviceType esr :
  emitsOnly fromResolution (getFormattedOsVersions w deviceType esr).
Proof.
  unfold getFormattedOsVersions. repeat emits_step.
  match goal with |- context [match ?l with [] => _ | _ :: _ => _ end] =>
    destruct l end; emits_step.
Qed.

Lemma selectOSVersionFromMenu_emits w deviceType esr :
  emitsOnly fromResolution (selectOSVersionFromMenu w deviceType esr).
Proof.
  unfold selectOSVersionFromMenu.
  apply emitsOnly_bind; [apply getFormattedOsVersions_emits|intros vs].
  repeat emits_step.
Qed.

Lemma resolveOSVersion_emits w deviceType version :
  emitsOnly fromResolution (resolveOSVersion w deviceType version).
Proof.
  unfold resolveOSVersion.
  destruct (includes _ version); [apply selectOSVersionFromMenu_emits|emits_step].
Qed.

Lemma requestedVersion_emits w deviceType OSVersion :
  emitsOnly fromResolution (requestedVersion w deviceType OSVersion).
Proof.
  unfold requestedVersion. repeat emits_step.
  - destruct (negb (truthy OSVersion)); emits_step.
  - destruct OSVersion as [[|c v]|]; try emits_step.
    apply resolveOSVersion_emits.
Qed.

Lemma openOutput_emits streamMime outputPath :
  emitsOnly fromTransfer (openOutput streamMime outputPath).
Proof. unfold openOutput. case_decide; repeat emits_step. Qed.

Lemma outputWrite_emits P out chunk : emitsOnly P (outputWrite out chunk).
Proof. destruct out; simpl; repeat emits_step. Qed.

Lemma outputEnd_emits P w out : emitsOnly P (outputEnd w out).
Proof.
  destruct out as [path received|path]; simpl; [|emits_step].
  destruct (unzipParse w received); emits_step.
Qed.

(** ** Waiting for the resolved version *)

Lemma payloadOf_skip (a b : list StreamEvent) (ev : StreamEvent) :
  (forall c, ev <> Data c) -> ev <> End ->
  payloadOf (a ++ ev :: b) = payloadOf (a ++ b).
Proof.
  intros Hdata Hend. induction a as [|x a IH]; simpl.
  - destruct ev; try reflexivity; [now destruct (Hdata chunk) | now destruct Hend].
  - destruct x; now rewrite ?IH.
Qed.

Lemma progressOf_app (a b : list StreamEvent) :
  progressOf (a ++ b) = progressOf a ++ progressOf b.
Proof. unfold progressOf. apply flat_map_app. Qed.

Lemma renderedOf_app (a b : list Effect) :
  renderedOf (a ++ b) = renderedOf a ++ renderedOf b.
Proof. unfold renderedOf. apply flat_map_app. Qed.

(** When the promise of lines 151-154 is fulfilled, the events split at the
    first ['resolved-version']: nothing before it is an error, and what
    remains to be handled is the events after it, preceded by the payload
    that was held back, which contains no ['progress'] event. *)
Lemma awaitResolvedVersion_returned (evs held : list StreamEvent) v remaining :
  awaitResolvedVersion evs held = Returned (v, remaining) ->
  exists pre rest kept,
    evs = pre ++ ResolvedVersion v :: rest
    /\ Forall quiet pre
    /\ remaining = held ++ kept ++ rest
    /\ progressOf kept = [].
Proof.
  revert held; induction evs as [|ev evs IH]; intros held H; [discriminate|].
  destruct ev as [v'|st|c| |e|e]; simpl in H.
  - inversion H; subst. exists [], evs, []. repeat split. constructor.
  - destruct (IH _ H) as (pre & rest & kept & -> & Hq & -> & Hk).
    exists (Progress st :: pre), rest, kept. repeat split; try assumption.
    constructor; [exact I | exact Hq].
  - destruct (IH _ H) as (pre & rest & kept & -> & Hq & -> & Hk).
    exists (Data c :: pre), rest, (Data c :: kept). repeat split; try assumption.
    + constructor; [exact I | exact Hq].
    + now rewrite <- List.app_assoc.
  - destruct (IH _ H) as (pre & rest & kept & -> & Hq & -> & Hk).
    exists (End :: pre), rest, (End :: kept). repeat split; try assumption.
    + constructor; [exact I | exact Hq].
    + now rewrite <- List.app_assoc.
  - discriminate.
  - destruct (IH _ H) as (pre & rest & kept & -> & Hq & -> & Hk).
    exists (OutputError e :: pre), rest, kept. repeat split; try assumption.
    constructor; [exact I | exact Hq].
Qed.

(** An ['error'] that comes before any ['resolved-version'] rejects it. *)
Lemma awaitResolvedVersion_error (pre rest held : list StreamEvent) (e : Error) :
  Forall quiet pre ->
  awaitResolvedVersion (pre ++ StreamError e :: rest) held = Thrown e.
Proof.
  intros Hq; revert held; induction Hq as [|ev pre Hev _ IH]; intros held;
    [reflexivity|].
  destruct ev; simpl in *; try contradiction; apply IH.
Qed.

(** The held payload and the payload still to come make up the payload of
    the stream. *)
Lemma awaitResolvedVersion_payload (evs held : list StreamEvent) v remaining :
  awaitResolvedVersion evs held = Returned (v, remaining) ->
  payloadOf remaining = payloadOf (held ++ evs).
Proof.
  revert held; induction evs as [|ev evs IH]; intros held H; [discriminate|].
  destruct ev as [v'|st|c| |e|e]; simpl in H.
  - inversion H; subst. now rewrite payloadOf_skip.
  - rewrite (IH _ H). now rewrite payloadOf_skip.
  - rewrite (IH _ H). now rewrite <- List.app_assoc.
  - rewrite (IH _ H). now rewrite <- List.app_assoc.
  - discriminate.
  - rewrite (IH _ H). now rewrite payloadOf_skip.
Qed.

(** ** Piping the stream *)

Lemma drain_effects (w : World) (evs : list StreamEvent) (out : Output)
    (s : CliState) :
  exists d,
    effects (snd (drain w out evs s)) = effects s ++ d
    /\ Forall (fun e => fromDrain e = true) d
    /\ renderedOf d `prefix_of` progressOf evs.
Proof.
  revert out s; induction evs as [|ev evs IH]; intros out s.
  - exists []. simpl. rewrite app_nil_r. repeat split; [constructor|apply prefix_nil].
  - destruct ev as [v|[st|]|c| |e|e]; simpl.
    + apply IH.
    + unfold bind, emit, modify.
      destruct (IH out (logged s (BarUpdate st))) as (d & Hd & HP & Hpre).
      exists (BarUpdate st :: d). unfold logged in Hd. rewrite Hd. simpl.
      rewrite <- List.app_assoc. repeat split.
      * constructor; [reflexivity | exact HP].
      * now apply prefix_cons.
    + unfold bind, emit, modify.
      destruct (IH out (logged s SpinnerStart)) as (d & Hd & HP & Hpre).
      exists (SpinnerStart :: d). unfold logged in Hd. rewrite Hd. simpl.
      rewrite <- List.app_assoc. repeat split.
      * constructor; [reflexivity | exact HP].
      * now apply prefix_cons.
    + unfold bind.
      destruct (outputWrite_emits (fun _ => false) out c s) as (d0 & Hd0 & HP0).
      destruct d0 as [|x d0]; [|inversion HP0; discriminate].
      rewrite app_nil_r in Hd0.
      destruct (outputWrite out c s) as [[out'|e|] s1] eqn:Hw; simpl in Hd0.
      * destruct (IH out' s1) as (d & Hd & HP & Hpre).
        exists d. rewrite Hd, Hd0. now repeat split.
      * exists []. simpl. rewrite app_nil_r. repeat split;
          [exact Hd0|constructor|apply prefix_nil].
      * exists []. simpl. rewrite app_nil_r. repeat split;
          [exact Hd0|constructor|apply prefix_nil].
    + unfold bind, emit, modify.
      destruct (outputEnd_emits (fun _ => false) w out (logged s SpinnerStop))
        as (d0 & Hd0 & HP0).
      destruct d0 as [|x d0]; [|inversion HP0; discriminate].
      rewrite app_nil_r in Hd0. exists [SpinnerStop]. unfold logged in Hd0.
      rewrite Hd0. simpl. repeat split;
        [constructor; [reflexivity|constructor] | apply prefix_nil].
    + apply IH.
    + exists []. rewrite app_nil_r. repeat split; [constructor|apply prefix_nil].
Qed.

(** A raw destination that finishes holds what it held before followed by
    the payload. *)
Lemma drain_file (w : World) (evs : list StreamEvent) (path : string)
    (s s' : CliState) (before : list Byte.byte) :
  fs s !! path = Some (File before) ->
  drain w (WriteStream path) evs s = (Returned tt, s') ->
  fs s' !! path = Some (File (before ++ payloadOf evs)).
Proof.
  revert s before; induction evs as [|ev evs IH]; intros s before Hfs H;
    [discriminate|].
  destruct ev as [v|[st|]|c| |e|e]; simpl in H.
  - now apply (IH s).
  - unfold bind, emit, modify in H. eapply IH; [|exact H]. exact Hfs.
  - unfold bind, emit, modify in H. eapply IH; [|exact H]. exact Hfs.
  - unfold bind, gets, setFs, modify, ret in H. cbn [fst snd] in H.
    rewrite Hfs in H. simpl fileContent in H.
    simpl. rewrite List.app_assoc. eapply IH; [|exact H].
    simpl. apply lookup_insert_eq.
  - unfold bind, emit, modify, ret in H. inversion H; subst. simpl.
    now rewrite app_nil_r.
  - now apply (IH s).
  - discriminate.
Qed.

(** An unzip destination that finishes has parsed what it had received
    followed by the payload, and holds the parsed entries as a directory. *)
Lemma drain_extract (w : World) (evs : list StreamEvent) (path : string)
    (s s' : CliState) (received : list Byte.byte) :
  drain w (Extract path received) evs s = (Returned tt, s') ->
  exists entries,
    unzipParse w (received ++ payloadOf evs) = inr entries
    /\ fs s' !! path = Some (Directory entries).
Proof.
  revert s received; induction evs as [|ev evs IH]; intros s received H;
    [discriminate|].
  destruct ev as [v|[st|]|c| |e|e]; simpl in H.
  - now apply (IH s).
  - unfold bind, emit, modify in H. now apply IH in H.
  - unfold bind, emit, modify in H. now apply IH in H.
  - unfold bind, ret in H. apply IH in H. simpl.
    now rewrite List.app_assoc.
  - unfold bind, emit, modify in H. simpl. rewrite app_nil_r.
    destruct (unzipParse w received) as [e|entries]; [discriminate|].
    unfold setFs, modify in H. inversion H; subst. exists entries.
    split; [reflexivity|]. simpl. apply lookup_insert_eq.
  - now apply (IH s).
  - discriminate.
Qed.

(** ** [transfer] and [downloadOSImage] *)

Lemma transfer_unresolved (w : World) (stream : ImageStream) (outputPath : string)
    (s : CliState) :
  (forall x, awaitResolvedVersion (events stream) [] <> Returned x) ->
  transfer w stream outputPath s
  = (match awaitResolvedVersion (events stream) [] with
     | Thrown e => Thrown e
     | _ => Pending
     end, s).
Proof.
  intros Hno. unfold transfer, bind, awaitListeners.
  destruct (awaitResolvedVersion (events stream) []) as [x|e|];
    [now destruct (Hno x) | reflexivity | reflexivity].
Qed.

Lemma transfer_resolved (w : World) (stream : ImageStream) (outputPath : string)
    (s : CliState) (ver : string) (remaining : list StreamEvent) :
  awaitResolvedVersion (events stream) [] = Returned (ver, remaining) ->
  let run := transfer w stream outputPath s in
  exists d,
    effects (snd run)
    = effects s
      ++ [NewProgress ("Downloading balenaOS version " +:+ ver);
          NewSpinner ("Downloading balenaOS version " +:+ ver +:+ " (size unknown)");
          stageFor (mime stream) outputPath]
      ++ d
      ++ match fst run with
         | Returned _ =>
             [ConsoleInfo ("balenaOS image version " +:+ ver
                             +:+ " downloaded successfully")]
         | _ => []
         end
    /\ Forall (fun e => fromDrain e = true) d
    /\ renderedOf d `prefix_of` progressOf remaining
    /\ (forall p, fst run = Returned p ->
          p = outputPath
          /\ (mime stream = Some "application/zip" ->
              exists entries,
                unzipParse w (payloadOf remaining) = inr entries
                /\ fs (snd run) !! outputPath = Some (Directory entries))
          /\ (mime stream <> Some "application/zip" ->
              fs (snd run) !! outputPath = Some (File (payloadOf remaining)))).
Proof.
  intros Hres run. subst run.
  unfold transfer, bind, awaitListeners. rewrite Hres.
  unfold emit at 1 2, modify. cbn [fst snd effects env fs].
  unfold openOutput, stageFor.
  destruct (decide (mime stream = Some "application/zip")) as [Hzip|Hraw].
  - unfold bind, emit, modify, ret. cbn [fst snd effects env fs].
    match goal with |- context [drain w ?o remaining ?s0] =>
      destruct (drain_effects w remaining o s0) as (d & Hd & HP & Hpre);
      destruct (drain w o remaining s0) as [[[]|e|] s4] eqn:Hdrain end;
      cbn [fst snd effects] in *; exists d; rewrite Hd;
      rewrite <- ?List.app_assoc; cbn [app]; rewrite ?app_nil_r;
      (split; [reflexivity|]); (split; [exact HP|]); (split; [exact Hpre|]);
      intros p Hp; inversion Hp; subst.
    split; [reflexivity|]. split; [|intros Hne; contradiction].
    intros _. apply drain_extract in Hdrain. exact Hdrain.
  - unfold bind, emit, setFs, modify, ret. cbn [fst snd effects env fs].
    match goal with |- context [drain w ?o remaining ?s0] =>
      destruct (drain_effects w remaining o s0) as (d & Hd & HP & Hpre);
      destruct (drain w o remaining s0) as [[[]|e|] s4] eqn:Hdrain end;
      cbn [fst snd effects] in *; exists d; rewrite Hd;
      rewrite <- ?List.app_assoc; cbn [app]; rewrite ?app_nil_r;
      (split; [reflexivity|]); (split; [exact HP|]); (split; [exact Hpre|]);
      intros p Hp; inversion Hp; subst.
    split; [reflexivity|]. split; [intros Hz; contradiction|].
    intros _. apply (drain_file _ _ _ _ _ []) in Hdrain; [exact Hdrain|].
    simpl. apply lookup_insert_eq.
Qed.

Lemma downloadOSImage_run (w : World) (deviceType outputPath : string)
    (OSVersion : option string) (s s1 : CliState) (v : string)
    (stream : ImageStream) :
  requestedVersion w deviceType OSVersion s = (Returned v, s1) ->
  managerGet w deviceType v = Fulfilled stream ->
  downloadOSImage w deviceType outputPath OSVersion s
  = transfer w stream outputPath (atManagerGet s1 deviceType v).
Proof.
  intros Hv Hget. unfold downloadOSImage, bind. rewrite Hv.
  unfold setEnv, emit, modify, await. rewrite Hget. reflexivity.
Qed.

Lemma requestedVersion_effects (w : World) (deviceType : string)
    (OSVersion : option string) (s s1 : CliState) (o : Outcome string) :
  requestedVersion w deviceType OSVersion s = (o, s1) ->
  exists d, effects s1 = effects s ++ d /\ Forall (fun e => fromResolution e = true) d.
Proof.
  intros H. destruct (requestedVersion_emits w deviceType OSVersion s) as [d Hd].
  rewrite H in Hd. now exists d.
Qed.

Lemma filter_none {A} (P Q : A -> bool) (l : list A) :
  (forall x, Q x = true -> P x = false) ->
  Forall (fun x => Q x = true) l -> List.filter P l = [].
Proof.
  intros HQP H. induction H as [|x l Hx _ IH]; [reflexivity|].
  simpl. now rewrite (HQP x Hx).
Qed.

Lemma renderedOf_none (Q : Effect -> bool) (l : list Effect) :
  (forall x, Q x = true -> fromDrain x = false) ->
  Forall (fun x => Q x = true) l -> renderedOf l = [].
Proof.
  intros HQ H. induction H as [|x l Hx _ IH]; [reflexivity|].
  simpl. rewrite IH. specialize (HQ x Hx). now destruct x.
Qed.

(** ** The statements about [downloadOSImage] *)

(** C4, as the code has it: with an absent or empty version token
    [downloadOSImage] does not call [resolveOSVersion]. It warns that no
    version was specified and asks the image manager for the literal
    ['default'], and for nothing else; [resolveOSVersion] applied to
    ['default'] would have given ['default.prod']. *)
Theorem downloadOSImage_without_version
    (w : World) (deviceType outputPath : string) (OSVersion : option string)
    (s : CliState) :
  OSVersion = None \/ OSVersion = Some EmptyString ->
  let run := downloadOSImage w deviceType outputPath OSVersion s in
  (exists d,
      effects (snd run)
      = effects s
        ++ [ConsoleInfo ("Getting device operating system for " +:+ deviceType);
            ConsoleWarn "OS version not specified: using latest released version";
            ManagerGet deviceType "default"]
        ++ d
      /\ requestedOf d = [])
  /\ resolveOSVersion w deviceType "default" s = (Returned "default.prod", s).
Proof.
  intros Htok run. split; [|reflexivity].
  assert (Hv : requestedVersion w deviceType OSVersion s
               = (Returned "default",
                  logged (logged s (ConsoleInfo ("Getting device operating system for "
                                                   +:+ deviceType)))
                    (ConsoleWarn "OS version not specified: using latest released version"))).
  { destruct Htok as [-> | ->]; reflexivity. }
  subst run. unfold downloadOSImage, bind. rewrite Hv.
  unfold setEnv, emit, modify, await. cbn [fst snd].
  destruct (managerGet w deviceType "default") as [stream|e].
  - match goal with |- context [transfer w stream outputPath ?s0] =>
      set (s2 := s0) end.
    destruct (awaitResolvedVersion (events stream) []) as [[ver remaining]|e|] eqn:Hres.
    + destruct (transfer_resolved w stream outputPath s2 ver remaining Hres)
        as (d & Hd & HP & _).
      assert (Hs2 : effects s2
                    = effects s
                      ++ [ConsoleInfo ("Getting device operating system for "
                                         +:+ deviceType);
                          ConsoleWarn "OS version not specified: using latest released version";
                          ManagerGet deviceType "default"]).
      { subst s2. cbn [effects logged]. now rewrite <- !List.app_assoc. }
      clearbody s2. rewrite Hd, Hs2.
      match goal with |- context [?l ++ d ++ ?m] => exists (l ++ d ++ m) end.
      split; [now rewrite <- !List.app_assoc|].
      assert (Hnone : requestedOf d = []).
      { clear Hd. induction HP as [|x l Hx _ IH]; [reflexivity|].
        unfold requestedOf in *. simpl. rewrite IH. now destruct x. }
      unfold requestedOf in *. rewrite !flat_map_app, Hnone. unfold stageFor.
      case_decide; destruct (fst (transfer w stream outputPath s2)); reflexivity.
    + rewrite transfer_unresolved by (intros x; rewrite Hres; discriminate).
      exists []. subst s2. cbn [fst snd effects logged].
      rewrite <- !List.app_assoc. split; reflexivity.
    + rewrite transfer_unresolved by (intros x; rewrite Hres; discriminate).
      exists []. subst s2. cbn [fst snd effects logged].
      rewrite <- !List.app_assoc. split; reflexivity.
  - exists []. cbn [fst snd effects logged].
    rewrite <- !List.app_assoc. split; reflexivity.
Qed.

Lemma downloadOSImage_without_version_witness :
  (@None string = None \/ @None string = Some EmptyString)
  /\ resolveOSVersion exampleWorld "raspberrypi3" "default" emptyState
     = (Returned "default.prod", emptyState).
Proof.
  split; [now left|].
  apply (downloadOSImage_without_version exampleWorld "raspberrypi3" "out.img" None).
  now left.
Defined.

(** C4 as stated fails: without a version token the image manager is asked
    for ['default'], which is not what [resolveOSVersion] makes of
    ['default']. *)
Lemma downloadOSImage_default_is_not_resolved :
  ~ (exists v,
        fst (resolveOSVersion exampleWorld "raspberrypi3" "default" emptyState)
        = Returned v
        /\ requestedOf
             (effects (snd (downloadOSImage exampleWorld "raspberrypi3" "out.img"
                              None emptyState)))
           = [v]).
Proof.
  intros [v [Hres Hreq]]. vm_compute in Hres. vm_compute in Hreq. congruence.
Qed.

(** C5: once the version is settled and the image manager has answered
    with a stream, the only output stage a run of [downloadOSImage] can open
    is the one that goes with the stream's [mime]: the unzip stage on
    [outputPath] for ['application/zip'], the write stream on [outputPath]
    for anything else; the events and bytes of the stream have no part in
    it. A run that returns has opened that stage and returns [outputPath];
    for ['application/zip'] the path then holds, as a directory, the entries
    the parser finds in the payload, and for any other [mime] it holds a
    single file whose bytes are the payload. *)
Theorem downloadOSImage_output_by_mime
    (w : World) (deviceType outputPath : string) (OSVersion : option string)
    (s s1 : CliState) (v : string) (stream : ImageStream) :
  requestedVersion w deviceType OSVersion s = (Returned v, s1) ->
  managerGet w deviceType v = Fulfilled stream ->
  let run := downloadOSImage w deviceType outputPath OSVersion s in
  exists d,
    effects (snd run) = effects s ++ d
    /\ (List.filter isOutputOpen d = []
        \/ List.filter isOutputOpen d = [stageFor (mime stream) outputPath])
    /\ (mime stream = Some "application/zip" ->
        stageFor (mime stream) outputPath = UnzipExtract outputPath)
    /\ (mime stream <> Some "application/zip" ->
        stageFor (mime stream) outputPath = CreateWriteStream outputPath)
    /\ (forall p, fst run = Returned p ->
          p = outputPath
          /\ List.filter isOutputOpen d = [stageFor (mime stream) outputPath]
          /\ (mime stream = Some "application/zip" ->
              exists entries,
                unzipParse w (payloadOf (events stream)) = inr entries
                /\ fs (snd run) !! outputPath = Some (Directory entries))
          /\ (mime stream <> Some "application/zip" ->
              fs (snd run) !! outputPath = Some (File (payloadOf (events stream))))).
Proof.
  intros Hv Hget run. subst run.
  rewrite (downloadOSImage_run _ _ _ _ _ _ _ _ Hv Hget).
  destruct (requestedVersion_effects _ _ _ _ _ _ Hv) as (d1 & Hd1 & HP1).
  assert (Hat : effects (atManagerGet s1 deviceType v)
                = effects s ++ d1 ++ [ManagerGet deviceType v]).
  { cbn [effects atManagerGet]. now rewrite Hd1, <- List.app_assoc. }
  assert (Hnone1 : List.filter isOutputOpen d1 = []).
  { apply (filter_none _ fromResolution); [|exact HP1]. now intros []. }
  assert (Hstage : isOutputOpen (stageFor (mime stream) outputPath) = true).
  { unfold stageFor. now case_decide. }
  destruct (awaitResolvedVersion (events stream) []) as [[ver remaining]|e|] eqn:Hres.
  - destruct (transfer_resolved w stream outputPath (atManagerGet s1 deviceType v)
                ver remaining Hres) as (d & Hd & HP & _ & Hret).
    rewrite Hat in Hd.
    assert (Hnone : List.filter isOutputOpen d = []).
    { apply (filter_none _ fromDrain); [|exact HP]. now intros []. }
    match type of Hd with _ = _ ++ ?l ++ d ++ ?m =>
      exists (d1 ++ [ManagerGet deviceType v] ++ l ++ d ++ m);
      assert (Hopen : List.filter isOutputOpen
                        (d1 ++ [ManagerGet deviceType v] ++ l ++ d ++ m)
                      = [stageFor (mime stream) outputPath])
    end.
    { rewrite !List.filter_app, Hnone1, Hnone. cbn [List.filter isOutputOpen app].
      rewrite Hstage.
      now destruct (fst (transfer w stream outputPath (atManagerGet s1 deviceType v))). }
    split; [rewrite Hd; now rewrite <- !List.app_assoc|].
    split; [now right|].
    split; [intros Hz; unfold stageFor; now rewrite decide_True|].
    split; [intros Hz; unfold stageFor; now rewrite decide_False|].
    intros p Hp. destruct (Hret p Hp) as (-> & Hzip & Hraw).
    rewrite (awaitResolvedVersion_payload _ _ _ _ Hres) in Hzip, Hraw.
    now repeat split.
  - rewrite transfer_unresolved by (intros x; rewrite Hres; discriminate).
    rewrite Hres. exists (d1 ++ [ManagerGet deviceType v]).
    split; [exact Hat|].
    split; [left; rewrite List.filter_app, Hnone1; reflexivity|].
    split; [intros Hz; unfold stageFor; now rewrite decide_True|].
    split; [intros Hz; unfold stageFor; now rewrite decide_False|].
    intros p Hp. discriminate.
  - rewrite transfer_unresolved by (intros x; rewrite Hres; discriminate).
    rewrite Hres. exists (d1 ++ [ManagerGet deviceType v]).
    split; [exact Hat|].
    split; [left; rewrite List.filter_app, Hnone1; reflexivity|].
    split; [intros Hz; unfold stageFor; now rewrite decide_True|].
    split; [intros Hz; unfold stageFor; now rewrite decide_False|].
    intros p Hp. discriminate.
Qed.

Lemma downloadOSImage_output_by_mime_witness :
  requestedVersion exampleWorld "raspberrypi3" (Some "v2.88.4") emptyState
  = (Returned "2.88.4.prod",
     logged emptyState (ConsoleInfo "Getting device operating system for raspberrypi3"))
  /\ managerGet exampleWorld "raspberrypi3" "2.88.4.prod" = Fulfilled exampleStream
  /\ fs (snd (downloadOSImage exampleWorld "raspberrypi3" "out.img"
                (Some "v2.88.4") emptyState)) !! "out.img"
     = Some (File [Byte.x62; Byte.x61; Byte.x6c]).
Proof.
  split; [reflexivity|]. split; [reflexivity|].
  destruct (downloadOSImage_output_by_mime exampleWorld "raspberrypi3" "out.img"
              (Some "v2.88.4") emptyState _ _ exampleStream eq_refl eq_refl)
    as (d & _ & _ & _ & _ & Hret).
  destruct (Hret "out.img" eq_refl) as (_ & _ & _ & Hraw).
  apply Hraw. discriminate.
Defined.

Lemma no_renderer (Q : Effect -> bool) (l : list Effect) :
  (forall x, Q x = true -> isRenderer x = false) ->
  Forall (fun x => Q x = true) l -> Forall (fun x => isRenderer x = false) l.
Proof. intros HQ H. eapply List.Forall_impl; [|exact H]. exact HQ. Qed.

(** C6: in every run of [downloadOSImage] the progress renderer is either
    not used at all, or the stream has a first ['resolved-version'] event
    with no error before it, and the progress states handed to the renderer
    are, in order, those of ['progress'] events that come after that event:
    none that comes before it is processed. When the stream emits an error
    before any ['resolved-version'], the run fails with that error and the
    renderer is never used: no bar or spinner is created or updated. *)
Theorem downloadOSImage_resolved_before_progress
    (w : World) (deviceType outputPath : string) (OSVersion : option string)
    (s : CliState) :
  let run := downloadOSImage w deviceType outputPath OSVersion s in
  exists d,
    effects (snd run) = effects s ++ d
    /\ (Forall (fun e => isRenderer e = false) d
        \/ exists v s1 stream pre ver rest,
             requestedVersion w deviceType OSVersion s = (Returned v, s1)
             /\ managerGet w deviceType v = Fulfilled stream
             /\ events stream = pre ++ ResolvedVersion ver :: rest
             /\ Forall quiet pre
             /\ renderedOf d `prefix_of` progressOf rest)
    /\ (forall v s1 stream pre e rest,
          requestedVersion w deviceType OSVersion s = (Returned v, s1) ->
          managerGet w deviceType v = Fulfilled stream ->
          events stream = pre ++ StreamError e :: rest ->
          Forall quiet pre ->
          fst run = Thrown e /\ Forall (fun x => isRenderer x = false) d).
Proof.
  intros run. subst run.
  destruct (requestedVersion w deviceType OSVersion s) as [o s1] eqn:Hv.
  destruct (requestedVersion_effects _ _ _ _ _ _ Hv) as (d1 & Hd1 & HP1).
  assert (Hquiet1 : Forall (fun e => isRenderer e = false) d1).
  { apply (no_renderer fromResolution); [|exact HP1]. now intros []. }
  destruct o as [v|e|].
  2,3: exists d1; unfold downloadOSImage, bind; rewrite Hv;
       (split; [exact Hd1|]); (split; [now left|]); intros; discriminate.
  assert (Hat : effects (atManagerGet s1 deviceType v)
                = effects s ++ d1 ++ [ManagerGet deviceType v]).
  { cbn [effects atManagerGet]. now rewrite Hd1, <- List.app_assoc. }
  assert (Hquiet2 : Forall (fun e => isRenderer e = false)
                      (d1 ++ [ManagerGet deviceType v])).
  { apply Forall_app. split; [exact Hquiet1|]. now repeat constructor. }
  destruct (managerGet w deviceType v) as [stream|e] eqn:Hget.
  2: { exists (d1 ++ [ManagerGet deviceType v]).
       unfold downloadOSImage, bind. rewrite Hv.
       unfold setEnv, emit, modify, await. rewrite Hget.
       split; [exact Hat|]. split; [now left|].
       intros v' s1' stream' pre e' rest Hv' Hget'.
       inversion Hv'; subst. rewrite Hget in Hget'. discriminate. }
  rewrite (downloadOSImage_run _ _ _ _ _ _ _ _ Hv Hget).
  destruct (awaitResolvedVersion (events stream) []) as [[ver remaining]|e|] eqn:Hres.
  - destruct (transfer_resolved w stream outputPath (atManagerGet s1 deviceType v)
                ver remaining Hres) as (d & Hd & HP & Hpre & _).
    rewrite Hat in Hd.
    destruct (awaitResolvedVersion_returned _ _ _ _ Hres)
      as (pre & rest & kept & Hev & Hq & Hrem & Hkept).
    match type of Hd with _ = _ ++ ?l ++ d ++ ?m =>
      exists (d1 ++ [ManagerGet deviceType v] ++ l ++ d ++ m);
      assert (Hrend : renderedOf (d1 ++ [ManagerGet deviceType v] ++ l ++ d ++ m)
                      = renderedOf d)
    end.
    { rewrite !renderedOf_app.
      rewrite (renderedOf_none fromResolution d1); [|now intros []|exact HP1].
      unfold stageFor. case_decide;
        destruct (fst (transfer w stream outputPath (atManagerGet s1 deviceType v)));
        cbn [renderedOf flat_map app]; now rewrite ?app_nil_r. }
    split; [rewrite Hd; now rewrite <- !List.app_assoc|]. split.
    + right. exists v, s1, stream, pre, ver, rest.
      repeat split; try assumption. rewrite Hrend.
      rewrite Hrem, !progressOf_app, Hkept in Hpre. exact Hpre.
    + intros v' s1' stream' pre' e' rest' Hv' Hget' Hev' Hq'.
      inversion Hv'; subst v' s1'. rewrite Hget in Hget'.
      inversion Hget'; subst stream'.
      rewrite Hev', (awaitResolvedVersion_error _ _ _ _ Hq') in Hres. discriminate.
  - rewrite transfer_unresolved by (intros x; rewrite Hres; discriminate).
    rewrite Hres. exists (d1 ++ [ManagerGet deviceType v]).
    split; [exact Hat|]. split; [now left|].
    intros v' s1' stream' pre' e' rest' Hv' Hget' Hev' Hq'.
    inversion Hv'; subst v' s1'. rewrite Hget in Hget'.
    inversion Hget'; subst stream'.
    rewrite Hev', (awaitResolvedVersion_error _ _ _ _ Hq') in Hres.
    inversion Hres. now split.
  - rewrite transfer_unresolved by (intros x; rewrite Hres; discriminate).
    rewrite Hres. exists (d1 ++ [ManagerGet deviceType v]).
    split; [exact Hat|]. split; [now left|].
    intros v' s1' stream' pre' e' rest' Hv' Hget' Hev' Hq'.
    inversion Hv'; subst v' s1'. rewrite Hget in Hget'.
    inversion Hget'; subst stream'.
    rewrite Hev', (awaitResolvedVersion_error _ _ _ _ Hq') in Hres. discriminate.
Qed.

Lemma downloadOSImage_resolved_before_progress_witness :
  requestedVersion failedWorld "raspberrypi3" (Some "2.88.4") emptyState
  = (Returned "2.88.4.prod",
     logged emptyState (ConsoleInfo "Getting device operating system for raspberrypi3"))
  /\ managerGet failedWorld "raspberrypi3" "2.88.4.prod" = Fulfilled failedStream
  /\ events failedStream
     = [Progress None] ++ StreamError (JsError "unauthorized") :: [End]
  /\ Forall quiet [Progress None]
  /\ fst (downloadOSImage failedWorld "raspberrypi3" "out.img" (Some "2.88.4")
            emptyState)
     = Thrown (JsError "unauthorized").
Proof.
  assert (Hq : Forall quiet [Progress None]) by (repeat constructor).
  split; [reflexivity|]. split; [reflexivity|]. split; [reflexivity|].
  split; [exact Hq|].
  destruct (downloadOSImage_resolved_before_progress failedWorld "raspberrypi3"
              "out.img" (Some "2.88.4") emptyState) as (d & _ & _ & Herr).
  exact (proj1 (Herr _ _ failedStream [Progress None] (JsError "unauthorized") [End]
                  eq_refl eq_refl eq_refl Hq)).
Defined.

(** ** A stream error after the version is resolved *)

Lemma awaitResolvedVersion_prefix (pre rest held : list StreamEvent) (ver : string) :
  Forall progressOrData pre -> Forall progressOrData held ->
  exists remaining,
    awaitResolvedVersion (pre ++ ResolvedVersion ver :: rest) held
    = Returned (ver, remaining ++ rest)
    /\ Forall progressOrData remaining.
Proof.
  intros Hpre; revert held; induction Hpre as [|ev pre Hev _ IH]; intros held Hheld.
  - exists held. now split.
  - destruct ev; simpl in Hev; try contradiction; simpl.
    + now apply IH.
    + apply IH. apply Forall_app. split; [exact Hheld|]. now repeat constructor.
Qed.

Lemma outputWrite_returned (out : Output) (chunk : list Byte.byte) (s : CliState) :
  exists out' s', outputWrite out chunk s = (Returned out', s').
Proof. destruct out; simpl; eexists; eexists; reflexivity. Qed.

(** With only progress and payload before it, and nothing after it, an
    error of the stream leaves the awaited promise unsettled. *)
Lemma drain_pending (w : World) (l : list StreamEvent) (e : Error) (out : Output)
    (s : CliState) :
  Forall progressOrData l ->
  fst (drain w out (l ++ [StreamError e]) s) = Pending.
Proof.
  intros Hl; revert out s; induction Hl as [|ev l Hev _ IH]; intros out s;
    [reflexivity|].
  destruct ev as [v|[st|]|c| |e'|e']; simpl in Hev; try contradiction; simpl.
  - unfold bind, emit, modify. apply IH.
  - unfold bind, emit, modify. apply IH.
  - unfold bind. destruct (outputWrite_returned out c s) as (out' & s' & ->).
    apply IH.
Qed.

Lemma drain_pending_file (w : World) (l : list StreamEvent) (e : Error)
    (path : string) (s : CliState) (before : list Byte.byte) :
  Forall progressOrData l ->
  fs s !! path = Some (File before) ->
  fs (snd (drain w (WriteStream path) (l ++ [StreamError e]) s)) !! path
  = Some (File (before ++ payloadOf (l ++ [StreamError e]))).
Proof.
  intros Hl; revert s before; induction Hl as [|ev l Hev _ IH]; intros s before Hfs.
  - simpl. now rewrite app_nil_r.
  - destruct ev as [v|[st|]|c| |e'|e']; simpl in Hev; try contradiction; simpl.
    + unfold bind, emit, modify. now apply IH.
    + unfold bind, emit, modify. now apply IH.
    + unfold bind, gets, setFs, modify, ret. cbn [fst snd]. rewrite Hfs.
      simpl fileContent. rewrite List.app_assoc. apply IH.
      simpl. apply lookup_insert_eq.
Qed.

(** C7 fails on the code for an error of the stream that comes after the
    version is resolved. Take a stream that emits ['resolved-version'],
    with only progress events and chunks around it, and then an ['error'].
    The run of [downloadOSImage] does not fail with that error: the promise
    it awaits is never settled, so it neither throws nor returns; and for a
    [mime] other than ['application/zip'] the chunks received so far are
    left in the file at [outputPath]. *)
Theorem downloadOSImage_stream_error_after_resolved_version
    (w : World) (deviceType outputPath : string) (OSVersion : option string)
    (s s1 : CliState) (v ver : string) (stream : ImageStream)
    (pre mid : list StreamEvent) (e : Error) :
  requestedVersion w deviceType OSVersion s = (Returned v, s1) ->
  managerGet w deviceType v = Fulfilled stream ->
  events stream = pre ++ ResolvedVersion ver :: mid ++ [StreamError e] ->
  Forall progressOrData pre -> Forall progressOrData mid ->
  let run := downloadOSImage w deviceType outputPath OSVersion s in
  fst run = Pending
  /\ (mime stream <> Some "application/zip" ->
      fs (snd run) !! outputPath = Some (File (payloadOf (events stream)))).
Proof.
  intros Hv Hget Hev Hpre Hmid run. subst run.
  rewrite (downloadOSImage_run _ _ _ _ _ _ _ _ Hv Hget).
  destruct (awaitResolvedVersion_prefix pre (mid ++ [StreamError e]) [] ver Hpre)
    as (remaining & Hres & Hrem); [constructor|].
  rewrite <- Hev in Hres.
  assert (Hall : Forall progressOrData (remaining ++ mid))
    by (apply Forall_app; now split).
  unfold transfer, bind, awaitListeners. rewrite Hres.
  unfold emit at 1 2, modify. cbn [fst snd effects env fs].
  rewrite List.app_assoc. unfold openOutput.
  destruct (decide (mime stream = Some "application/zip")) as [Hzip|Hraw].
  - unfold bind, emit, modify, ret. cbn [fst snd effects env fs].
    match goal with |- context [drain w ?o ?l ?s0] =>
      pose proof (drain_pending w (remaining ++ mid) e o s0 Hall) as Hp;
      destruct (drain w o l s0) as [[[]|e'|] s4] end;
      simpl in Hp; try discriminate.
    split; [reflexivity | intros Hne; contradiction].
  - unfold bind, emit, setFs, modify, ret. cbn [fst snd effects env fs].
    match goal with |- context [drain w (WriteStream outputPath) ?l ?s0] =>
      pose proof (drain_pending w (remaining ++ mid) e (WriteStream outputPath) s0 Hall)
        as Hp;
      pose proof (drain_pending_file w (remaining ++ mid) e outputPath s0 [] Hall)
        as Hf;
      destruct (drain w (WriteStream outputPath) l s0) as [[[]|e'|] s4] end;
      simpl in Hp; try discriminate.
    split; [reflexivity|]. intros _. cbn [fst snd] in *.
    rewrite Hf by (simpl; apply lookup_insert_eq).
    rewrite <- List.app_assoc, (awaitResolvedVersion_payload _ _ _ _ Hres).
    reflexivity.
Qed.

Lemma downloadOSImage_stream_error_after_resolved_version_witness :
  requestedVersion interruptedWorld "raspberrypi3" (Some "2.88.4") emptyState
  = (Returned "2.88.4.prod",
     logged emptyState (ConsoleInfo "Getting device operating system for raspberrypi3"))
  /\ managerGet interruptedWorld "raspberrypi3" "2.88.4.prod"
     = Fulfilled interruptedStream
  /\ events interruptedStream
     = [] ++ ResolvedVersion "2.88.4"
          :: [Progress (Some {| percentage := 66; eta := 1 |});
              Data [Byte.x62; Byte.x61]]
          ++ [StreamError (JsError "socket hang up")]
  /\ fst (downloadOSImage interruptedWorld "raspberrypi3" "out.img" (Some "2.88.4")
            emptyState) = Pending
  /\ fs (snd (downloadOSImage interruptedWorld "raspberrypi3" "out.img"
                (Some "2.88.4") emptyState)) !! "out.img"
     = Some (File [Byte.x62; Byte.x61]).
Proof.
  split; [reflexivity|]. split; [reflexivity|]. split; [reflexivity|].
  destruct (downloadOSImage_stream_error_after_resolved_version
              interruptedWorld "raspberrypi3" "out.img" (Some "2.88.4") emptyState
              _ _ "2.88.4" interruptedStream []
              [Progress (Some {| percentage := 66; eta := 1 |});
               Data [Byte.x62; Byte.x61]]
              (JsError "socket hang up") eq_refl eq_refl eq_refl)
    as [Hp Hf]; [constructor | repeat constructor |].
  split; [exact Hp|]. apply Hf. discriminate.
Defined.

(** ** [selectOSVersionFromMenu] *)

Lemma find_first {A} (f : A -> bool) (before after : list A) (x : A) :
  Forall (fun y => f y = false) before -> f x = true ->
  find f (before ++ x :: after) = Some x.
Proof.
  intros Hb Hx. induction Hb as [|y before Hy _ IH]; simpl.
  - now rewrite Hx.
  - now rewrite Hy.
Qed.

Lemma find_nothing {A} (f : A -> bool) (l : list A) :
  Forall (fun y => f y = false) l -> find f l = None.
Proof.
  intros H. induction H as [|y l Hy _ IH]; simpl; [reflexivity|now rewrite Hy].
Qed.

Lemma selectOSVersionFromMenu_run w deviceType esr s byType :
  getAvailableOsVersions w [deviceType] = Fulfilled byType ->
  catalogPartition byType deviceType esr <> [] ->
  let vs := map reformat (catalogPartition byType deviceType esr) in
  selectOSVersionFromMenu w deviceType esr s
  = (match cliFormAsk w (menuQuestion vs) with
     | Fulfilled answer => Returned answer
     | Rejected e => Thrown e
     end,
     logged (logged s (GetAvailableOsVersions [deviceType]))
       (CliFormAsk (menuQuestion vs))).
Proof.
  intros Hq Hne vs. unfold selectOSVersionFromMenu, bind.
  rewrite (getFormattedOsVersions_run _ _ _ _ _ Hq). fold vs.
  destruct vs as [|v vs'] eqn:Hvs.
  - destruct (catalogPartition byType deviceType esr); [congruence|discriminate].
  - unfold emit, modify, await. fold (menuQuestion (v :: vs')).
    now destruct (cliFormAsk w (menuQuestion (v :: vs'))).
Qed.

(** C8: when the catalog answers and the requested partition is not empty,
    [selectOSVersionFromMenu] asks one list question. Its choices are the
    fetched descriptors in catalog order, each shown under its
    [formattedVersion] and standing for its [rawVersion]. The pre-selected
    value is the [rawVersion] of the first descriptor flagged
    [isRecommended], or of the first descriptor when none is flagged. With
    the two descriptors A (not recommended) and B (recommended) and a prompt
    that answers with the pre-selected value, the menu tokens resolve to
    ['B']. *)
Theorem selectOSVersionFromMenu_choices
    (w : World) (deviceType : string) (esr : bool) (s : CliState)
    (byType : gmap string (list OsVersion)) :
  getAvailableOsVersions w [deviceType] = Fulfilled byType ->
  catalogPartition byType deviceType esr <> [] ->
  exists vs q,
    getFormattedOsVersions w deviceType esr s
    = (Returned vs, logged s (GetAvailableOsVersions [deviceType]))
    /\ selectOSVersionFromMenu w deviceType esr s
       = (match cliFormAsk w q with
          | Fulfilled answer => Returned answer
          | Rejected e => Thrown e
          end,
          logged (logged s (GetAvailableOsVersions [deviceType])) (CliFormAsk q))
    /\ q_type q = "list"
    /\ Forall2 (fun v c => name c = formattedVersion v /\ value c = rawVersion v)
         vs (q_choices q)
    /\ Forall2 (fun u c => value c = rawVersion u)
         (catalogPartition byType deviceType esr) (q_choices q)
    /\ (forall before v after,
          vs = before ++ v :: after ->
          Forall (fun x => isRecommended x = false) before ->
          isRecommended v = true ->
          q_default q = Some (rawVersion v))
    /\ (forall v rest,
          vs = v :: rest ->
          Forall (fun x => isRecommended x = false) vs ->
          q_default q = Some (rawVersion v))
    /\ (forall a b,
          catalogPartition byType deviceType esr = [a; b] ->
          rawVersion a = "A" -> isRecommended a = false ->
          rawVersion b = "B" -> isRecommended b = true ->
          (forall q' d, q_default q' = Some d -> cliFormAsk w q' = Fulfilled d) ->
          fst (resolveOSVersion w deviceType (if esr then "menu-esr" else "menu") s)
          = Returned "B").
Proof.
  intros Hq Hne.
  exists (map reformat (catalogPartition byType deviceType esr)).
  exists (menuQuestion (map reformat (catalogPartition byType deviceType esr))).
  split.
  { rewrite (getFormattedOsVersions_run _ _ _ _ _ Hq).
    destruct (catalogPartition byType deviceType esr); [congruence|reflexivity]. }
  split; [exact (selectOSVersionFromMenu_run _ _ _ _ _ Hq Hne)|].
  split; [reflexivity|].
  split.
  { simpl. induction (map reformat (catalogPartition byType deviceType esr));
      constructor; [now split | assumption]. }
  split.
  { simpl. clear Hne. induction (catalogPartition byType deviceType esr);
      constructor; [reflexivity | assumption]. }
  split.
  { intros before v after Hvs Hb Hv. simpl. rewrite Hvs.
    now rewrite (find_first _ _ _ _ Hb Hv). }
  split.
  { intros v rest Hvs Hnone. simpl. rewrite (find_nothing _ _ Hnone).
    now rewrite Hvs. }
  intros a b Hab Ha Hra Hb Hrb Hpick.
  assert (Hmenu : resolveOSVersion w deviceType (if esr then "menu-esr" else "menu") s
                  = selectOSVersionFromMenu w deviceType esr s)
    by now destruct esr.
  rewrite Hmenu, (selectOSVersionFromMenu_run _ _ _ _ _ Hq Hne).
  rewrite (Hpick _ "B"); [reflexivity|].
  rewrite Hab. simpl. rewrite Hra, Hrb. simpl. now rewrite Hb.
Qed.

Lemma selectOSVersionFromMenu_choices_witness :
  getAvailableOsVersions exampleWorld ["raspberrypi3"] = Fulfilled exampleCatalog
  /\ catalogPartition exampleCatalog "raspberrypi3" false <> []
  /\ fst (resolveOSVersion exampleWorld "raspberrypi3" "menu" emptyState)
     = Returned "B".
Proof.
  assert (Hne : catalogPartition exampleCatalog "raspberrypi3" false <> [])
    by (vm_compute; discriminate).
  split; [reflexivity|]. split; [exact Hne|].
  destruct (selectOSVersionFromMenu_choices exampleWorld "raspberrypi3" false
              emptyState exampleCatalog eq_refl Hne)
    as (vs & q & _ & _ & _ & _ & _ & _ & _ & Hex).
  apply (Hex {| rawVersion := "A"; formattedVersion := "A";
                osType := "default"; isRecommended := false |}
             {| rawVersion := "B"; formattedVersion := "B (recommended)";
                osType := "default"; isRecommended := true |});
    try reflexivity.
  intros q' d Hd. unfold exampleWorld, acceptDefault. simpl. now rewrite Hd.
Defined.

(** ** The memoized lookups *)

Lemma cachesKept_refl (s : Memo.MemoState) : cachesKept s s.
Proof. repeat split; auto. Qed.

Lemma cachesKept_trans (s1 s2 s3 : Memo.MemoState) :
  cachesKept s1 s2 -> cachesKept s2 s3 -> cachesKept s1 s3.
Proof.
  intros (A1 & B1 & C1) (A2 & B2 & C2). repeat split; auto.
Qed.

Lemma insert_keeps {R} (cache : gmap string R) (key : string) (result : R) :
  cache !! key = None ->
  forall k r, cache !! k = Some r -> <[key := result]> cache !! k = Some r.
Proof.
  intros Hmiss k r Hk. rewrite lookup_insert_ne; [exact Hk|]. congruence.
Qed.

Lemma serviceIdToName_spec (sdk : Memo.BalenaSDK) (serviceId : Z)
    (s : Memo.MemoState) :
  let run := Memo.serviceIdToName (sdk, serviceId) s in
  Memo.serviceCache (snd run) !! pretty serviceId = Some (fst run)
  /\ cachesKept s (snd run).
Proof.
  unfold Memo.serviceIdToName, Memo.memoize. cbv zeta.
  destruct (Memo.serviceCache s !! pretty serviceId) as [r|] eqn:Hlook.
  - split; [exact Hlook | apply cachesKept_refl].
  - unfold bind, Memo.request, modify, await.
    destruct (Memo.pineGetService sdk serviceId) as [[sn|]|e]; simpl;
      (split; [apply lookup_insert_eq|]);
      (split; [now apply insert_keeps | split; auto]).
Qed.

Lemma getDeviceAndMaybeAppFromUUID_spec (sdk : Memo.BalenaSDK) (deviceUUID : string)
    (selectDeviceFields selectAppFields : option (list string))
    (s : Memo.MemoState) :
  let run := Memo.getDeviceAndMaybeAppFromUUID
               (sdk, deviceUUID, selectDeviceFields, selectAppFields) s in
  Memo.deviceAndMaybeAppCache (snd run) !! deviceUUID = Some (fst run)
  /\ cachesKept s (snd run)
  /\ Memo.deviceAndAppCache (snd run) = Memo.deviceAndAppCache s.
Proof.
  unfold Memo.getDeviceAndMaybeAppFromUUID, Memo.memoize. cbv zeta.
  destruct (Memo.deviceAndMaybeAppCache s !! deviceUUID) as [r|] eqn:Hlook.
  - split; [exact Hlook|]. split; [apply cachesKept_refl | reflexivity].
  - unfold bind, Memo.request, modify, await.
    match goal with |- context [Memo.deviceGet sdk deviceUUID ?o] =>
      destruct (Memo.deviceGet sdk deviceUUID o) as [device|e] end; simpl.
    + destruct (Memo.belongs_to__application device) as [[|app apps]|];
        [| destruct (Memo.isEmpty app) |]; simpl;
        (split; [apply lookup_insert_eq|]);
        (split; [|reflexivity]);
        (split; [auto | split; [auto | now apply insert_keeps]]).
    + split; [apply lookup_insert_eq|]. split; [|reflexivity].
      split; [auto | split; [auto | now apply insert_keeps]].
Qed.

Lemma getDeviceAndAppFromUUID_spec (w : World) (sdk : Memo.BalenaSDK)
    (deviceUUID : string) (selectDeviceFields selectAppFields : option (list string))
    (s : Memo.MemoState) :
  let run := Memo.getDeviceAndAppFromUUID w
               (sdk, deviceUUID, selectDeviceFields, selectAppFields) s in
  Memo.deviceAndAppCache (snd run) !! deviceUUID = Some (fst run)
  /\ cachesKept s (snd run).
Proof.
  unfold Memo.getDeviceAndAppFromUUID, Memo.memoize. cbv zeta.
  destruct (Memo.deviceAndAppCache s !! deviceUUID) as [r|] eqn:Hlook.
  - split; [exact Hlook | apply cachesKept_refl].
  - unfold bind.
    destruct (getDeviceAndMaybeAppFromUUID_spec sdk deviceUUID selectDeviceFields
                selectAppFields s) as (_ & (A & B & C) & Hsame).
    destruct (Memo.getDeviceAndMaybeAppFromUUID
                (sdk, deviceUUID, selectDeviceFields, selectAppFields) s)
      as [[[device [app|]]|e|] s1]; cbn [fst snd] in *;
      unfold throw, ret; cbn [fst snd Memo.setDeviceAndAppCache
                                Memo.serviceCache Memo.deviceAndAppCache
                                Memo.deviceAndMaybeAppCache];
      (split; [apply lookup_insert_eq|]);
      (split; [auto | split; [|auto]]);
      intros k r Hk; apply insert_keeps; rewrite Hsame; auto.
Qed.

Lemma runCall_kept (w : World) (c : Memo.Call) (s : Memo.MemoState) :
  cachesKept s (Memo.runCall w c s).
Proof.
  destruct c as [sdk serviceId|[[[sdk uuid] sd] sa]|[[[sdk uuid] sd] sa]]; simpl.
  - apply serviceIdToName_spec.
  - apply getDeviceAndAppFromUUID_spec.
  - apply getDeviceAndMaybeAppFromUUID_spec.
Qed.

Lemma runCalls_kept (w : World) (cs : list Memo.Call) (s : Memo.MemoState) :
  cachesKept s (Memo.runCalls w cs s).
Proof.
  revert s; induction cs as [|c cs IH]; intros s; [apply cachesKept_refl|].
  simpl. eapply cachesKept_trans; [apply runCall_kept | apply IH].
Qed.

(** C9: each memoized lookup is keyed by one identifier. After a call with
    an identifier, and whatever other calls of the three functions follow in
    the same process, a later call with the same identifier returns the
    promise of the first call and does nothing else: it sends no request and
    leaves the caches as they are, even when its [sdk] argument or its
    field selections differ from those of the first call. No call removes
    or replaces an entry of a cache. *)
Theorem memoized_lookups_keyed_by_identifier (w : World) :
  (forall sdk1 sdk2 serviceId s cs,
      let first := Memo.serviceIdToName (sdk1, serviceId) s in
      let later := Memo.runCalls w cs (snd first) in
      Memo.serviceIdToName (sdk2, serviceId) later = (fst first, later))
  /\ (forall sdk1 sdk2 deviceUUID selectDevice1 selectApp1 selectDevice2 selectApp2 s cs,
        let first := Memo.getDeviceAndAppFromUUID w
                       (sdk1, deviceUUID, selectDevice1, selectApp1) s in
        let later := Memo.runCalls w cs (snd first) in
        Memo.getDeviceAndAppFromUUID w (sdk2, deviceUUID, selectDevice2, selectApp2) later
        = (fst first, later))
  /\ (forall sdk1 sdk2 deviceUUID selectDevice1 selectApp1 selectDevice2 selectApp2 s cs,
        let first := Memo.getDeviceAndMaybeAppFromUUID
                       (sdk1, deviceUUID, selectDevice1, selectApp1) s in
        let later := Memo.runCalls w cs (snd first) in
        Memo.getDeviceAndMaybeAppFromUUID
          (sdk2, deviceUUID, selectDevice2, selectApp2) later
        = (fst first, later))
  /\ (forall c s, cachesKept s (Memo.runCall w c s)).
Proof.
  split; [|split; [|split]].
  - intros sdk1 sdk2 serviceId s cs first later.
    destruct (serviceIdToName_spec sdk1 serviceId s) as [Hhit _]. fold first in Hhit.
    destruct (runCalls_kept w cs (snd first)) as (A & _ & _). fold later in A.
    apply A in Hhit.
    unfold Memo.serviceIdToName at 1, Memo.memoize. now rewrite Hhit.
  - intros sdk1 sdk2 deviceUUID sd1 sa1 sd2 sa2 s cs first later.
    destruct (getDeviceAndAppFromUUID_spec w sdk1 deviceUUID sd1 sa1 s) as [Hhit _].
    fold first in Hhit.
    destruct (runCalls_kept w cs (snd first)) as (_ & B & _). fold later in B.
    apply B in Hhit.
    unfold Memo.getDeviceAndAppFromUUID at 1, Memo.memoize. now rewrite Hhit.
  - intros sdk1 sdk2 deviceUUID sd1 sa1 sd2 sa2 s cs first later.
    destruct (getDeviceAndMaybeAppFromUUID_spec sdk1 deviceUUID sd1 sa1 s)
      as [Hhit _].
    fold first in Hhit.
    destruct (runCalls_kept w cs (snd first)) as (_ & _ & C). fold later in C.
    apply C in Hhit.
    unfold Memo.getDeviceAndMaybeAppFromUUID at 1, Memo.memoize. now rewrite Hhit.
  - intros c s. apply runCall_kept.
Qed.

Example serviceIdToName_first_answer_wins :
  let first := Memo.serviceIdToName (sdkOne, 7) emptyMemo in
  fst first = Returned (Some "main")
  /\ Memo.serviceIdToName (sdkTwo, 7) (snd first) = (Returned (Some "main"), snd first)
  /\ fst (Memo.serviceIdToName (sdkTwo, 7) emptyMemo) = Returned (Some "db").
Proof. vm_compute. repeat split. Qed.

(** ** The release commands *)

(** C10, as the code has it: in a run of [release export] in which the
    flags are parsed and the release is found, and in a run of
    [release import] in which the flags are parsed, the promise of [run] is
    fulfilled and the last thing done is to print the success message,
    whether the bundle step succeeds or throws. When it throws, the error
    is caught inside [run]: its message is logged just before the success
    message and the failure is not propagated. *)
Theorem release_commands_print_success_after_failure
    (sv : Release.Services) (log : list Release.Action) :
  (forall commitOrId output releaseId,
      Release.parseExport sv = Fulfilled (commitOrId, output) ->
      Release.releaseGet sv commitOrId = Fulfilled releaseId ->
      let run := Release.runExport sv log in
      fst run = Returned tt
      /\ exists middle,
           snd run
           = log ++ middle
               ++ [Release.ConsoleLog (Release.exportedMessage commitOrId output)]
           /\ forall e,
                exportStepThrows sv releaseId output e ->
                exists before,
                  middle
                  = before
                      ++ [Release.ConsoleLog
                            ("Release " +:+ Release.showCommitOrId commitOrId
                               +:+ " could not be exported. " +:+ errorMessage e)])
  /\ (forall bundle fleet,
        Release.parseImport sv = Fulfilled (bundle, fleet) ->
        let run := Release.runImport sv log in
        fst run = Returned tt
        /\ exists middle,
             snd run
             = log ++ middle
                 ++ [Release.ConsoleLog (Release.appliedMessage bundle fleet)]
             /\ forall e,
                  importStepThrows sv bundle fleet e ->
                  exists before,
                    middle
                    = before
                        ++ [Release.ConsoleLog
                              ("Could not apply release bundle to fleet "
                                 +:+ Release.showFleet fleet +:+ ". "
                                 +:+ errorMessage e)]).
Proof.
  split.
  - intros commitOrId output releaseId Hparse Hget run. subst run.
    unfold Release.runExport, bind, await, tryCatch, Release.act, modify.
    rewrite Hparse. cbn [fst snd]. rewrite Hget. cbn [fst snd].
    destruct (Release.create sv releaseId) as [bundle|e1] eqn:Hcreate.
    + destruct (Release.writeFile sv output bundle) as [[]|e2] eqn:Hwrite.
      * split; [reflexivity|].
        exists [Release.ReleaseGet commitOrId; Release.Create releaseId;
                Release.WriteFile output bundle].
        split; [now rewrite <- !List.app_assoc|].
        intros e [Hc|(b & Hc & Hw)]; [congruence|].
        assert (b = bundle) by congruence. subst b. congruence.
      * split; [reflexivity|].
        exists [Release.ReleaseGet commitOrId; Release.Create releaseId;
                Release.WriteFile output bundle;
                Release.ConsoleLog
                  ("Release " +:+ Release.showCommitOrId commitOrId
                     +:+ " could not be exported. " +:+ errorMessage e2)].
        split; [now rewrite <- !List.app_assoc|].
        intros e [Hc|(b & Hc & Hw)]; [congruence|].
        assert (b = bundle) by congruence. subst b.
        assert (e = e2) by congruence. subst e.
        now exists [Release.ReleaseGet commitOrId; Release.Create releaseId;
                    Release.WriteFile output bundle].
    + split; [reflexivity|].
      exists [Release.ReleaseGet commitOrId; Release.Create releaseId;
              Release.ConsoleLog
                ("Release " +:+ Release.showCommitOrId commitOrId
                   +:+ " could not be exported. " +:+ errorMessage e1)].
      split; [now rewrite <- !List.app_assoc|].
      intros e [Hc|(b & Hc & Hw)]; [|congruence].
      assert (e = e1) by congruence. subst e.
      now exists [Release.ReleaseGet commitOrId; Release.Create releaseId].
  - intros bundle fleet Hparse run. subst run.
    unfold Release.runImport, bind, await, tryCatch, Release.act, modify, throw.
    rewrite Hparse. cbn [fst snd].
    destruct fleet as [f|].
    + destruct (Release.applicationGet sv f) as [application|e1] eqn:Happ.
      * destruct (Release.apply sv application bundle) as [[]|e2] eqn:Hap.
        -- split; [reflexivity|].
           exists [Release.CreateReadStream bundle; Release.ApplicationGet f;
                   Release.Apply application bundle].
           split; [now rewrite <- !List.app_assoc|].
           intros e [[Hnone _]|(f' & Hf & [Hr|(a & Ha & Hr)])]; [discriminate| |];
             assert (f' = f) by congruence; subst f'; [congruence|].
           assert (a = application) by congruence. subst a. congruence.
        -- split; [reflexivity|].
           exists [Release.CreateReadStream bundle; Release.ApplicationGet f;
                   Release.Apply application bundle;
                   Release.ConsoleLog
                     ("Could not apply release bundle to fleet "
                        +:+ Release.showFleet (Some f) +:+ ". " +:+ errorMessage e2)].
           split; [now rewrite <- !List.app_assoc|].
           intros e [[Hnone _]|(f' & Hf & [Hr|(a & Ha & Hr)])]; [discriminate| |];
             assert (f' = f) by congruence; subst f'; [congruence|].
           assert (a = application) by congruence. subst a.
           assert (e = e2) by congruence. subst e.
           now exists [Release.CreateReadStream bundle; Release.ApplicationGet f;
                       Release.Apply application bundle].
      * split; [reflexivity|].
        exists [Release.CreateReadStream bundle; Release.ApplicationGet f;
                Release.ConsoleLog
                  ("Could not apply release bundle to fleet "
                     +:+ Release.showFleet (Some f) +:+ ". " +:+ errorMessage e1)].
        split; [now rewrite <- !List.app_assoc|].
        intros e [[Hnone _]|(f' & Hf & [Hr|(a & Ha & Hr)])]; [discriminate| |];
          assert (f' = f) by congruence; subst f'; [|congruence].
        assert (e = e1) by congruence. subst e.
        now exists [Release.CreateReadStream bundle; Release.ApplicationGet f].
    + split; [reflexivity|].
      exists [Release.CreateReadStream bundle;
              Release.ConsoleLog
                ("Could not apply release bundle to fleet "
                   +:+ Release.showFleet None +:+ ". "
                   +:+ errorMessage (JsError "Fleet must be a number or slug."))].
      split; [now rewrite <- !List.app_assoc|].
      intros e [[_ ->]|(f' & Hf & _)]; [|discriminate].
      now exists [Release.CreateReadStream bundle].
Qed.

Lemma release_commands_print_success_after_failure_witness :
  Release.parseExport failingBundle
  = Fulfilled (Release.Commit "a777f7345fe3d655c1c981aa642e5555", "release.tar")
  /\ Release.releaseGet failingBundle (Release.Commit "a777f7345fe3d655c1c981aa642e5555")
     = Fulfilled 1234567
  /\ fst (Release.runExport failingBundle []) = Returned tt.
Proof.
  split; [reflexivity|]. split; [reflexivity|].
  exact (proj1 (proj1 (release_commands_print_success_after_failure failingBundle [])
                  _ _ _ eq_refl eq_refl)).
Defined.

(** C10 as stated fails: when the release to export is not found, [run]
    is rejected and the success message is not printed. *)
Lemma runExport_release_not_found :
  fst (Release.runExport missingRelease []) = Thrown (JsError "Release not found")
  /\ ~ In (Release.ConsoleLog
             (Release.exportedMessage
                (Release.Commit "a777f7345fe3d655c1c981aa642e5555") "release.tar"))
          (snd (Release.runExport missingRelease [])).
Proof.
  split; [reflexivity|]. vm_compute. intros [H|[]]. discriminate.
Qed.

(** * Further properties of the code *)

(** ** More about strings *)

Lemma string_app_inj_tail (a b x y : string) :
  a +:+ x = b +:+ y -> String.length x = String.length y -> a = b /\ x = y.
Proof.
  revert b; induction a as [|c a IH]; intros b Heq Hlen.
  - destruct b as [|c' b]; [now split|].
    rewrite string_app_empty in Heq. subst x.
    rewrite string_length_app in Hlen. simpl in Hlen. lia.
  - destruct b as [|c' b].
    + rewrite string_app_empty in Heq. subst y.
      rewrite string_length_app in Hlen. simpl in Hlen. lia.
    + rewrite !string_app_cons in Heq. inversion Heq; subst c'.
      destruct (IH b) as [-> ->]; auto.
Qed.

Lemma dev_is_not_prod (p q : string) : p +:+ ".dev" <> q +:+ ".prod".
Proof.
  intros Heq.
  change (q +:+ ".prod") with (q +:+ "." +:+ "prod") in Heq.
  rewrite <- string_app_assoc in Heq.
  apply string_app_inj_tail in Heq; [|reflexivity].
  destruct Heq as [_ Heq]. discriminate.
Qed.

Lemma dev_after_v (r : string) :
  (exists p, String "v" r = p +:+ ".dev") <-> (exists p, r = p +:+ ".dev").
Proof.
  split.
  - intros [[|c p] Hp].
    + rewrite string_app_empty in Hp. discriminate.
    + rewrite string_app_cons in Hp. inversion Hp. now exists p.
  - intros [p ->]. now exists (String "v" p).
Qed.

(** ** [resolveOSVersion] on plain tokens *)

Lemma resolveOSVersion_plain (w : World) (deviceType token : string) (s : CliState) :
  token <> "menu" -> token <> "menu-esr" ->
  resolveOSVersion w deviceType token s
  = (Returned (withVariant (stripLeadingV token)), s).
Proof.
  intros Hmenu Hesr. unfold resolveOSVersion.
  now rewrite (includes_menu token Hmenu Hesr).
Qed.

Lemma withVariant_cases (version : string) :
  ((exists p, version = p +:+ ".dev") /\ withVariant version = version)
  \/ ((exists p, version = p +:+ ".prod") /\ withVariant version = version)
  \/ (~ (exists p, version = p +:+ ".dev") /\ ~ (exists p, version = p +:+ ".prod")
      /\ withVariant version = version +:+ ".prod").
Proof.
  unfold withVariant.
  destruct (endsWith version ".dev") eqn:Hdev.
  - left. split; [now apply endsWith_spec | reflexivity].
  - destruct (endsWith version ".prod") eqn:Hprod.
    + right; left. split; [now apply endsWith_spec | reflexivity].
    + right; right. split; [now apply endsWith_false|].
      split; [now apply endsWith_false | reflexivity].
Qed.

Lemma stripLeadingV_dev (token : string) :
  (exists p, stripLeadingV token = p +:+ ".dev") <-> (exists p, token = p +:+ ".dev").
Proof.
  unfold stripLeadingV. destruct (firstCharIs "v" token) eqn:Hv;
    [|split; intros H; exact H].
  apply firstCharIs_spec in Hv. destruct Hv as [r ->]. simpl.
  split; apply dev_after_v.
Qed.

(** X1: on a token other than the two menu tokens, [resolveOSVersion]
    returns a version that ends in ['.dev'] or in ['.prod'], never in both,
    and it ends in ['.dev'] exactly when the token does: the development
    variant is selected by the token's suffix and by nothing else. *)
Theorem resolveOSVersion_variant
    (w : World) (deviceType token : string) (s : CliState) :
  token <> "menu" -> token <> "menu-esr" ->
  exists result,
    resolveOSVersion w deviceType token s = (Returned result, s)
    /\ ((exists p, result = p +:+ ".dev") \/ (exists p, result = p +:+ ".prod"))
    /\ ~ ((exists p, result = p +:+ ".dev") /\ (exists p, result = p +:+ ".prod"))
    /\ ((exists p, result = p +:+ ".dev") <-> (exists p, token = p +:+ ".dev")).
Proof.
  intros Hmenu Hesr. exists (withVariant (stripLeadingV token)).
  split; [now apply resolveOSVersion_plain|].
  split; [|split].
  - destruct (withVariant_cases (stripLeadingV token))
      as [[Hd ->]|[[Hp ->]|(_ & _ & ->)]]; [now left | now right |].
    right. now exists (stripLeadingV token).
  - intros [[p Hp] [q Hq]]. rewrite Hp in Hq. exact (dev_is_not_prod _ _ Hq).
  - destruct (stripLeadingV_dev token) as [Hto Hfrom].
    destruct (withVariant_cases (stripLeadingV token))
      as [[Hd ->]|[[Hp ->]|(Hnd & _ & ->)]];
      [split; assumption | split; assumption |].
    split.
    + intros [p Hp]. symmetry in Hp. destruct (dev_is_not_prod _ _ Hp).
    + intros H. destruct (Hnd (Hfrom H)).
Qed.

Lemma resolveOSVersion_variant_witness :
  "2.60.1+rev1.dev" <> "menu" /\ "2.60.1+rev1.dev" <> "menu-esr"
  /\ exists result,
       resolveOSVersion exampleWorld "raspberrypi3" "2.60.1+rev1.dev" emptyState
       = (Returned result, emptyState)
       /\ exists p, result = p +:+ ".dev".
Proof.
  assert (H1 : "2.60.1+rev1.dev" <> "menu") by discriminate.
  assert (H2 : "2.60.1+rev1.dev" <> "menu-esr") by discriminate.
  split; [exact H1|]. split; [exact H2|].
  destruct (resolveOSVersion_variant exampleWorld "raspberrypi3" "2.60.1+rev1.dev"
              emptyState H1 H2) as (result & Hrun & _ & _ & Hdev).
  exists result. split; [exact Hrun|]. apply Hdev. now exists "2.60.1+rev1".
Defined.

(** X2: the leading ['v'] is optional. A version and the same version
    with a ['v'] in front resolve to the same result, provided the version
    is not itself a menu token and does not start with ['v']. *)
Theorem resolveOSVersion_v_prefix_optional
    (w : World) (deviceType version : string) (s : CliState) :
  version <> "menu" -> version <> "menu-esr" ->
  (forall rest, version <> String "v" rest) ->
  resolveOSVersion w deviceType (String "v" version) s
  = resolveOSVersion w deviceType version s.
Proof.
  intros Hmenu Hesr Hnov.
  rewrite (resolveOSVersion_plain w deviceType version s Hmenu Hesr).
  rewrite resolveOSVersion_plain by discriminate.
  do 2 f_equal. unfold stripLeadingV at 2.
  destruct (firstCharIs "v" version) eqn:Hv; [|reflexivity].
  apply firstCharIs_spec in Hv. destruct Hv as [r Hr]. now destruct (Hnov r).
Qed.

Lemma resolveOSVersion_v_prefix_optional_witness :
  "2.88.4" <> "menu" /\ "2.88.4" <> "menu-esr"
  /\ (forall rest, "2.88.4" <> String "v" rest)
  /\ resolveOSVersion exampleWorld "raspberrypi3" "v2.88.4" emptyState
     = resolveOSVersion exampleWorld "raspberrypi3" "2.88.4" emptyState.
Proof.
  assert (H1 : "2.88.4" <> "menu") by discriminate.
  assert (H2 : "2.88.4" <> "menu-esr") by discriminate.
  assert (H3 : forall rest, "2.88.4" <> String "v" rest) by (intros rest; discriminate).
  split; [exact H1|]. split; [exact H2|]. split; [exact H3|].
  exact (resolveOSVersion_v_prefix_optional exampleWorld "raspberrypi3" "2.88.4"
           emptyState H1 H2 H3).
Defined.

Lemma withVariant_first_char (version : string) (c : ascii) :
  firstCharIs c (withVariant version)
  = match version with
    | EmptyString => Ascii.eqb "." c
    | String _ _ => firstCharIs c version
    end.
Proof.
  unfold withVariant.
  destruct (negb (endsWith version ".dev") && negb (endsWith version ".prod")) eqn:H.
  - now destruct version.
  - destruct version as [|c' r]; [discriminate H | reflexivity].
Qed.

(** X3: resolving is idempotent on tokens without a leading ['v']: what
    [resolveOSVersion] returns for such a token (other than the menu tokens)
    is returned unchanged when it is resolved again. *)
Theorem resolveOSVersion_idempotent
    (w : World) (deviceType token : string) (s : CliState) :
  token <> "menu" -> token <> "menu-esr" ->
  (forall rest, token <> String "v" rest) ->
  exists result,
    resolveOSVersion w deviceType token s = (Returned result, s)
    /\ resolveOSVersion w deviceType result s = (Returned result, s).
Proof.
  intros Hmenu Hesr Hnov. exists (withVariant (stripLeadingV token)).
  split; [now apply resolveOSVersion_plain|].
  assert (Hstrip : stripLeadingV token = token).
  { unfold stripLeadingV. destruct (firstCharIs "v" token) eqn:Hv; [|reflexivity].
    apply firstCharIs_spec in Hv. destruct Hv as [r Hr]. now destruct (Hnov r). }
  rewrite Hstrip.
  assert (Hends : (exists p, withVariant token = p +:+ ".dev")
                  \/ (exists p, withVariant token = p +:+ ".prod")).
  { destruct (withVariant_cases token) as [[Hd ->]|[[Hp ->]|(_ & _ & ->)]];
      [now left | now right | right; now exists token]. }
  assert (Hnotmenu : withVariant token <> "menu" /\ withVariant token <> "menu-esr").
  { split; intros Heq; rewrite Heq in Hends;
      destruct Hends as [H|H]; apply endsWith_spec in H; discriminate. }
  destruct Hnotmenu as [Hm He].
  rewrite (resolveOSVersion_plain w deviceType _ s Hm He). do 2 f_equal.
  assert (Hfirst : stripLeadingV (withVariant token) = withVariant token).
  { unfold stripLeadingV. rewrite withVariant_first_char.
    destruct token as [|c r]; [reflexivity|].
    destruct (firstCharIs "v" (String c r)) eqn:Hv; [|reflexivity].
    apply firstCharIs_spec in Hv. destruct Hv as [r' Hr]. now destruct (Hnov r'). }
  rewrite Hfirst.
  destruct (withVariant_cases (withVariant token))
    as [[_ ->]|[[_ ->]|(Hnd & Hnp & _)]]; [reflexivity | reflexivity |].
  destruct Hends; contradiction.
Qed.

Lemma resolveOSVersion_idempotent_witness :
  "^2.60.0" <> "menu" /\ "^2.60.0" <> "menu-esr"
  /\ (forall rest, "^2.60.0" <> String "v" rest)
  /\ resolveOSVersion exampleWorld "raspberrypi3" "^2.60.0.prod" emptyState
     = (Returned "^2.60.0.prod", emptyState).
Proof.
  assert (H1 : "^2.60.0" <> "menu") by discriminate.
  assert (H2 : "^2.60.0" <> "menu-esr") by discriminate.
  assert (H3 : forall rest, "^2.60.0" <> String "v" rest) by (intros rest; discriminate).
  split; [exact H1|]. split; [exact H2|]. split; [exact H3|].
  destruct (resolveOSVersion_idempotent exampleWorld "raspberrypi3" "^2.60.0"
              emptyState H1 H2 H3) as (result & Hfirst & Hagain).
  assert (Hres : result = "^2.60.0.prod").
  { rewrite resolveOSVersion_plain in Hfirst by assumption.
    inversion Hfirst. reflexivity. }
  now rewrite Hres in Hagain.
Defined.

(** ** Frames of the download path *)

Section Preserves.

Context {B : Type} (component : CliState -> B).

Lemma preserves_ret {A} (a : A) : preserves component (ret a).
Proof. now intros s. Qed.

Lemma preserves_throw {A} (e : Error) : preserves component (@throw _ A e).
Proof. now intros s. Qed.

Lemma preserves_await {A} (p : Promise A) : preserves component (await p).
Proof. intros s. now destruct p. Qed.

Lemma preserves_awaitListeners {A} (o : Outcome A) :
  preserves component (awaitListeners o).
Proof. now intros s. Qed.

Lemma preserves_gets {A} (f : CliState -> A) : preserves component (gets f).
Proof. now intros s. Qed.

Lemma preserves_bind {A C} (m : M CliState A) (k : A -> M CliState C) :
  preserves component m -> (forall a, preserves component (k a)) ->
  preserves component (bind m k).
Proof.
  intros Hm Hk s. unfold bind. specialize (Hm s).
  destruct (m s) as [[a|e|] s1]; simpl in *; [|assumption..].
  now rewrite Hk.
Qed.

End Preserves.

Lemma preserves_env_emit (e : Effect) : preserves env (emit e).
Proof. now intros s. Qed.

Lemma preserves_fs_emit (e : Effect) : preserves fs (emit e).
Proof. now intros s. Qed.

Lemma preserves_env_setFs path n : preserves env (setFs path n).
Proof. now intros s. Qed.

Create HintDb frame.
#[local] Hint Resolve preserves_ret preserves_throw preserves_await
  preserves_awaitListeners preserves_gets preserves_env_emit preserves_fs_emit
  preserves_env_setFs : frame.

Ltac frame_step :=
  first [ apply preserves_bind; [|intros ?]
        | solve [auto with frame] ].

Lemma requestedVersion_keeps {B} (component : CliState -> B) w deviceType OSVersion :
  (forall e, preserves component (emit e)) ->
  preserves component (requestedVersion w deviceType OSVersion).
Proof.
  intros Hemit.
  assert (Hfetch : forall esr, preserves component
                                 (getFormattedOsVersions w deviceType esr)).
  { intros esr. unfold getFormattedOsVersions.
    apply preserves_bind; [apply Hemit|intros _].
    apply preserves_bind; [auto with frame|intros byType].
    match goal with |- context [match ?l with [] => _ | _ :: _ => _ end] =>
      destruct l end; auto with frame. }
  assert (Hmenu : forall esr, preserves component
                                (selectOSVersionFromMenu w deviceType esr)).
  { intros esr. unfold selectOSVersionFromMenu.
    apply preserves_bind; [apply Hfetch|intros vs].
    apply preserves_bind; [apply Hemit|intros _]. auto with frame. }
  assert (Hres : forall v, preserves component (resolveOSVersion w deviceType v)).
  { intros v. unfold resolveOSVersion.
    destruct (includes _ v); [apply Hmenu | auto with frame]. }
  unfold requestedVersion.
  apply preserves_bind; [apply Hemit|intros _].
  apply preserves_bind.
  - destruct (negb (truthy OSVersion)); [apply Hemit | auto with frame].
  - intros _. destruct OSVersion as [[|c v]|]; auto with frame.
Qed.

Lemma transfer_keeps_env w stream outputPath : preserves env (transfer w stream outputPath).
Proof.
  assert (Hdrain : forall evs out, preserves env (drain w out evs)).
  { induction evs as [|ev evs IH]; intros out; [now intros s|].
    destruct ev as [v|[st|]|c| |e|e]; simpl.
    - apply IH.
    - apply preserves_bind; [auto with frame | intros _; apply IH].
    - apply preserves_bind; [auto with frame | intros _; apply IH].
    - apply preserves_bind; [|intros out'; apply IH].
      destruct out; simpl; repeat frame_step.
    - apply preserves_bind; [auto with frame | intros _].
      destruct out as [path received|path]; simpl; auto with frame.
      destruct (unzipParse w received); auto with frame.
    - apply IH.
    - auto with frame. }
  unfold transfer.
  apply preserves_bind; [auto with frame | intros resolved].
  apply preserves_bind; [auto with frame | intros _].
  apply preserves_bind; [auto with frame | intros _].
  apply preserves_bind.
  - unfold openOutput. case_decide; repeat frame_step.
  - intros output. apply preserves_bind; [apply Hdrain | intros _].
    apply preserves_bind; auto with frame.
Qed.

(** ** Promises that settle *)

Lemma settles_ret {S A} (a : A) : settles (@ret S A a).
Proof. now intros s. Qed.

Lemma settles_throw {S A} (e : Error) : settles (@throw S A e).
Proof. now intros s. Qed.

Lemma settles_await {S A} (p : Promise A) : settles (@await S A p).
Proof. intros s. now destruct p. Qed.

Lemma settles_modify {S} (f : S -> S) : settles (modify f).
Proof. now intros s. Qed.

Lemma settles_bind {S A B} (m : M S A) (k : A -> M S B) :
  settles m -> (forall a, settles (k a)) -> settles (bind m k).
Proof.
  intros Hm Hk s. unfold bind. specialize (Hm s).
  destruct (m s) as [[a|e|] s1]; simpl in *; [apply Hk | discriminate | contradiction].
Qed.

Lemma requestedVersion_settles w deviceType OSVersion :
  settles (requestedVersion w deviceType OSVersion).
Proof.
  assert (Hfetch : forall esr, settles (getFormattedOsVersions w deviceType esr)).
  { intros esr. unfold getFormattedOsVersions.
    apply settles_bind; [apply settles_modify|intros _].
    apply settles_bind; [apply settles_await|intros byType].
    match goal with |- context [match ?l with [] => _ | _ :: _ => _ end] =>
      destruct l end; [apply settles_throw | apply settles_ret]. }
  assert (Hmenu : forall esr, settles (selectOSVersionFromMenu w deviceType esr)).
  { intros esr. unfold selectOSVersionFromMenu.
    apply settles_bind; [apply Hfetch|intros vs].
    apply settles_bind; [apply settles_modify|intros _]. apply settles_await. }
  assert (Hres : forall v, settles (resolveOSVersion w deviceType v)).
  { intros v. unfold resolveOSVersion.
    destruct (includes _ v); [apply Hmenu | apply settles_ret]. }
  unfold requestedVersion.
  apply settles_bind; [apply settles_modify|intros _].
  apply settles_bind.
  - destruct (negb (truthy OSVersion)); [apply settles_modify | apply settles_ret].
  - intros _. destruct OSVersion as [[|c v]|]; auto using settles_ret.
Qed.

(** ** What [transfer] and [requestedVersion] emit *)

Lemma drain_emits w out evs : emitsOnly fromTransfer (drain w out evs).
Proof.
  intros s. destruct (drain_effects w evs out s) as (d & Hd & HP & _).
  exists d. split; [exact Hd|].
  eapply List.Forall_impl; [|exact HP]. now intros [].
Qed.

Lemma transfer_emits w stream outputPath :
  emitsOnly fromTransfer (transfer w stream outputPath).
Proof.
  unfold transfer.
  apply emitsOnly_bind; [apply emitsOnly_awaitListeners | intros resolved].
  apply emitsOnly_bind; [now apply emitsOnly_emit | intros _].
  apply emitsOnly_bind; [now apply emitsOnly_emit | intros _].
  apply emitsOnly_bind; [apply openOutput_emits | intros output].
  apply emitsOnly_bind; [apply drain_emits | intros _].
  apply emitsOnly_bind; [now apply emitsOnly_emit | intros _].
  apply emitsOnly_ret.
Qed.

Lemma requestedOf_none (Q : Effect -> bool) (l : list Effect) :
  (forall x, Q x = true -> requestedOf [x] = []) ->
  Forall (fun x => Q x = true) l -> requestedOf l = [].
Proof.
  intros HQ H. induction H as [|x l Hx _ IH]; [reflexivity|].
  change (x :: l) with ([x] ++ l). unfold requestedOf in *.
  now rewrite flat_map_app, (HQ x Hx), IH.
Qed.

Lemma requestedOf_app (a b : list Effect) :
  requestedOf (a ++ b) = requestedOf a ++ requestedOf b.
Proof. unfold requestedOf. apply flat_map_app. Qed.

(** X4: a run of [downloadOSImage] asks the image manager at most once.
    When the version cannot be settled (the catalog or the prompt fails),
    the run fails with that error, the manager is not asked, and neither
    the environment nor the files are touched. Otherwise the manager is
    asked exactly once, for the settled version, and [ZLIB_FLUSH] is set to
    ['Z_NO_FLUSH'] and stays so until the end of the run; if the manager
    rejects the request, the run fails with the manager's error, no
    renderer is used and no file is touched. *)
Theorem downloadOSImage_asks_manager_once
    (w : World) (deviceType outputPath : string) (OSVersion : option string)
    (s : CliState) :
  let run := downloadOSImage w deviceType outputPath OSVersion s in
  exists d,
    effects (snd run) = effects s ++ d
    /\ ((exists e s1,
           requestedVersion w deviceType OSVersion s = (Thrown e, s1)
           /\ run = (Thrown e, s1)
           /\ requestedOf d = []
           /\ env (snd run) = env s
           /\ fs (snd run) = fs s)
        \/ (exists v s1,
              requestedVersion w deviceType OSVersion s = (Returned v, s1)
              /\ requestedOf d = [v]
              /\ env (snd run) = <["ZLIB_FLUSH" := "Z_NO_FLUSH"]> (env s)
              /\ forall e,
                   managerGet w deviceType v = Rejected e ->
                   fst run = Thrown e
                   /\ fs (snd run) = fs s
                   /\ Forall (fun x => isRenderer x = false) d)).
Proof.
  intros run. subst run.
  destruct (requestedVersion w deviceType OSVersion s) as [o s1] eqn:Hv.
  destruct (requestedVersion_effects _ _ _ _ _ _ Hv) as (d1 & Hd1 & HP1).
  pose proof (requestedVersion_keeps env w deviceType OSVersion
                preserves_env_emit s) as Henv.
  pose proof (requestedVersion_keeps fs w deviceType OSVersion
                preserves_fs_emit s) as Hfs.
  pose proof (requestedVersion_settles w deviceType OSVersion s) as Hsettle.
  rewrite Hv in Henv, Hfs, Hsettle. cbn [fst snd] in Henv, Hfs, Hsettle.
  assert (Hreq1 : requestedOf d1 = []).
  { apply (requestedOf_none fromResolution); [|exact HP1]. now intros []. }
  destruct o as [v|e|]; [| |contradiction].
  - assert (Hat : effects (atManagerGet s1 deviceType v)
                  = effects s ++ d1 ++ [ManagerGet deviceType v]).
    { cbn [effects atManagerGet]. now rewrite Hd1, <- List.app_assoc. }
    destruct (managerGet w deviceType v) as [stream|e] eqn:Hget.
    + rewrite (downloadOSImage_run _ _ _ _ _ _ _ _ Hv Hget).
      destruct (transfer_emits w stream outputPath (atManagerGet s1 deviceType v))
        as (d2 & Hd2 & HP2).
      exists (d1 ++ [ManagerGet deviceType v] ++ d2).
      split; [rewrite Hd2, Hat; now rewrite <- !List.app_assoc|].
      right. exists v, s1. split; [reflexivity|]. split.
      * rewrite !requestedOf_app, Hreq1.
        rewrite (requestedOf_none fromTransfer d2); [reflexivity| |exact HP2].
        now intros [].
      * split; [|intros e He; congruence].
        rewrite (transfer_keeps_env w stream outputPath). cbn [env atManagerGet].
        now rewrite Henv.
    + exists (d1 ++ [ManagerGet deviceType v]).
      unfold downloadOSImage, bind. rewrite Hv.
      unfold setEnv, emit, modify, await. rewrite Hget. cbn [fst snd].
      split; [exact Hat|]. right. exists v, s1.
      split; [reflexivity|]. split; [now rewrite requestedOf_app, Hreq1|].
      split; [cbn [env]; now rewrite Henv|].
      intros e' He'. assert (e' = e) by congruence. subst e'.
      split; [reflexivity|]. split; [exact Hfs|].
      apply Forall_app. split; [|now repeat constructor].
      apply (no_renderer fromResolution); [|exact HP1]. now intros [].
  - exists d1. unfold downloadOSImage, bind. rewrite Hv. cbn [fst snd].
    split; [exact Hd1|]. left. exists e, s1. now repeat split.
Qed.

(** ** The stream, event by event *)

Lemma awaitResolvedVersion_quiet (pre rest held : list StreamEvent) (ver : string) :
  Forall quiet pre ->
  awaitResolvedVersion (pre ++ ResolvedVersion ver :: rest) held
  = Returned (ver, held ++ heldBack pre ++ rest).
Proof.
  intros Hq; revert held; induction Hq as [|ev pre Hev _ IH]; intros held;
    [reflexivity|].
  destruct ev as [v|st|c| |e|e]; simpl in Hev; try contradiction; simpl;
    rewrite IH; try reflexivity; now rewrite <- List.app_assoc.
Qed.

Lemma progressOrData_quiet (l : list StreamEvent) :
  Forall progressOrData l -> Forall quiet l.
Proof.
  intros H. eapply List.Forall_impl; [|exact H]. now intros [].
Qed.

Lemma heldBack_progressOrData (l : list StreamEvent) :
  Forall progressOrData l -> Forall progressOrData (heldBack l).
Proof.
  intros H. induction H as [|ev l Hev _ IH]; [constructor|].
  destruct ev; simpl in *; try contradiction; [exact IH | now constructor].
Qed.

Lemma heldBack_progress (l : list StreamEvent) : progressOf (heldBack l) = [].
Proof. induction l as [|ev l IH]; [reflexivity|]. now destruct ev. Qed.

Lemma heldBack_payload (l tail : list StreamEvent) :
  payloadOf (heldBack l ++ tail) = payloadOf (l ++ tail).
Proof.
  induction l as [|ev l IH]; [reflexivity|].
  destruct ev; simpl; now rewrite ?IH.
Qed.

(** Progress events and chunks are handled one by one: each progress event
    is rendered, each chunk goes to the destination, and the rest of the
    events is handled after them. *)
Lemma drain_app (w : World) (l tail : list StreamEvent) (out : Output) (s : CliState) :
  Forall progressOrData l ->
  exists out' s',
    drain w out (l ++ tail) s = drain w out' tail s'
    /\ effects s' = effects s ++ map render (progressOf l)
    /\ env s' = env s
    /\ match out with
       | WriteStream path =>
           out' = WriteStream path
           /\ (forall q, q <> path -> fs s' !! q = fs s !! q)
           /\ forall before,
                fs s !! path = Some (File before) ->
                fs s' !! path = Some (File (before ++ payloadOf l))
       | Extract path received =>
           out' = Extract path (received ++ payloadOf l) /\ fs s' = fs s
       end.
Proof.
  intros Hl; revert out s; induction Hl as [|ev l Hev _ IH]; intros out s.
  - exists out, s. simpl. rewrite !app_nil_r.
    split; [reflexivity|]. split; [reflexivity|]. split; [reflexivity|].
    destruct out; rewrite ?app_nil_r; [now split|].
    split; [reflexivity|]. split; [reflexivity|].
    intros before Hb. now rewrite app_nil_r.
  - destruct ev as [v|st|c| |e|e]; simpl in Hev; try contradiction.
    + destruct (IH out (logged s (render st))) as (out' & s' & Hrun & Heff & Henv & Hout).
      exists out', s'. split; [destruct st; exact Hrun|].
      split; [rewrite Heff; simpl; now rewrite <- List.app_assoc|].
      split; [exact Henv|]. exact Hout.
    + destruct out as [path received|path].
      * destruct (IH (Extract path (received ++ c)) s)
          as (out' & s' & Hrun & Heff & Henv & Hout & Hfs).
        exists out', s'. split; [exact Hrun|]. split; [exact Heff|].
        split; [exact Henv|]. split; [|exact Hfs].
        rewrite Hout. simpl. now rewrite List.app_assoc.
      * set (s1 := {| effects := effects s; env := env s;
                      fs := <[path := File (fileContent (fs s !! path) ++ c)]> (fs s) |}).
        destruct (IH (WriteStream path) s1)
          as (out' & s' & Hrun & Heff & Henv & Hout & Hother & Hfile).
        exists out', s'. split; [exact Hrun|]. split; [exact Heff|].
        split; [exact Henv|]. split; [exact Hout|]. split.
        -- intros q Hq. rewrite (Hother q Hq). simpl.
           now apply lookup_insert_ne.
        -- intros before Hb. simpl. rewrite List.app_assoc.
           apply Hfile. simpl. rewrite Hb. simpl. apply lookup_insert_eq.
Qed.

(** An ['error'] of the stream that arrives while it is piped is not seen:
    the events are handled as if it had not been emitted. *)
Lemma drain_skips_stream_error (w : World) (a b : list StreamEvent) (e : Error)
    (out : Output) (s : CliState) :
  drain w out (a ++ StreamError e :: b) s = drain w out (a ++ b) s.
Proof.
  revert out s; induction a as [|ev a IH]; intros out s; [reflexivity|].
  destruct ev as [v|[st|]|c| |e'|e']; simpl.
  - apply IH.
  - unfold bind, emit, modify. apply IH.
  - unfold bind, emit, modify. apply IH.
  - unfold bind. destruct (outputWrite out c s) as [[out'|e'|] s1]; [apply IH|..];
      reflexivity.
  - reflexivity.
  - apply IH.
  - reflexivity.
Qed.

(** ** [transfer], once the version is resolved *)

Lemma transfer_piped (w : World) (stream : ImageStream) (outputPath : string)
    (s : CliState) (ver : string) (remaining : list StreamEvent) :
  awaitResolvedVersion (events stream) [] = Returned (ver, remaining) ->
  transfer w stream outputPath s
  = match drain w (outputFor (mime stream) outputPath) remaining
            (whenPiped s ver (mime stream) outputPath) with
    | (Returned _, s') => (Returned outputPath, logged s' (completionMessage ver))
    | (Thrown e, s') => (Thrown e, s')
    | (Pending, s') => (Pending, s')
    end.
Proof.
  intros Hres. unfold transfer, bind, awaitListeners. rewrite Hres.
  unfold emit at 1 2, modify. cbn [fst snd effects env fs].
  unfold openOutput, outputFor, whenPiped, stageFor, rendererFor.
  destruct (decide (mime stream = Some "application/zip")) as [Hzip|Hraw];
    unfold bind, emit, setFs, modify, ret; cbn [fst snd effects env fs];
    rewrite <- !List.app_assoc; cbn [app];
    match goal with |- context [drain w ?o remaining ?s0] =>
      destruct (drain w o remaining s0) as [[[]|e|] s4] end; reflexivity.
Qed.

Lemma whenPiped_effects s ver streamMime outputPath :
  effects (whenPiped s ver streamMime outputPath)
  = effects s ++ rendererFor ver ++ [stageFor streamMime outputPath].
Proof. reflexivity. Qed.

(** X5: an ['error'] of the stream that comes after the version is
    resolved changes nothing: the run of [downloadOSImage] ends in the same
    way and in the same state as the transfer of the same stream without
    that event. In particular the run does not fail because of it. *)
Theorem downloadOSImage_ignores_late_stream_error
    (w : World) (deviceType outputPath : string) (OSVersion : option string)
    (s s1 : CliState) (v ver : string) (stream : ImageStream)
    (pre a b : list StreamEvent) (e : Error) :
  requestedVersion w deviceType OSVersion s = (Returned v, s1) ->
  managerGet w deviceType v = Fulfilled stream ->
  events stream = pre ++ ResolvedVersion ver :: a ++ StreamError e :: b ->
  Forall quiet pre ->
  downloadOSImage w deviceType outputPath OSVersion s
  = transfer w {| mime := mime stream;
                  events := pre ++ ResolvedVersion ver :: a ++ b |}
      outputPath (atManagerGet s1 deviceType v).
Proof.
  intros Hv Hget Hev Hq.
  rewrite (downloadOSImage_run _ _ _ _ _ _ _ _ Hv Hget).
  pose proof (awaitResolvedVersion_quiet pre (a ++ StreamError e :: b) [] ver Hq)
    as Hres1.
  pose proof (awaitResolvedVersion_quiet pre (a ++ b) [] ver Hq) as Hres2.
  rewrite <- Hev in Hres1.
  rewrite (transfer_piped w stream outputPath _ ver _ Hres1).
  rewrite (transfer_piped w {| mime := mime stream;
                               events := pre ++ ResolvedVersion ver :: a ++ b |}
             outputPath _ ver _ Hres2).
  cbn [mime app]. rewrite !List.app_assoc.
  now rewrite drain_skips_stream_error.
Qed.

Lemma downloadOSImage_ignores_late_stream_error_witness :
  requestedVersion interruptedWorld "raspberrypi3" (Some "2.88.4") emptyState
  = (Returned "2.88.4.prod",
     logged emptyState (ConsoleInfo "Getting device operating system for raspberrypi3"))
  /\ managerGet interruptedWorld "raspberrypi3" "2.88.4.prod"
     = Fulfilled interruptedStream
  /\ Forall quiet []
  /\ downloadOSImage interruptedWorld "raspberrypi3" "out.img" (Some "2.88.4")
       emptyState
     = transfer interruptedWorld
         {| mime := Some "application/octet-stream";
            events := [ResolvedVersion "2.88.4";
                       Progress (Some {| percentage := 66; eta := 1 |});
                       Data [Byte.x62; Byte.x61]] |}
         "out.img"
         (atManagerGet
            (logged emptyState
               (ConsoleInfo "Getting device operating system for raspberrypi3"))
            "raspberrypi3" "2.88.4.prod").
Proof.
  split; [reflexivity|]. split; [reflexivity|]. split; [constructor|].
  exact (downloadOSImage_ignores_late_stream_error interruptedWorld "raspberrypi3"
           "out.img" (Some "2.88.4") emptyState _ "2.88.4.prod" "2.88.4"
           interruptedStream []
           [Progress (Some {| percentage := 66; eta := 1 |});
            Data [Byte.x62; Byte.x61]]
           [] (JsError "socket hang up") eq_refl eq_refl eq_refl (List.Forall_nil _)).
Defined.

Lemma progressOf_held_mid (pre mid : list StreamEvent) :
  progressOf (heldBack pre ++ mid) = progressOf mid.
Proof. now rewrite progressOf_app, heldBack_progress. Qed.

(** X6: the success path for a raw image. When the version is settled,
    the manager answers with a stream whose [mime] is not
    ['application/zip'], and the stream emits ['resolved-version'] and then
    the end of its payload, with only progress events and chunks besides,
    the run returns [outputPath]. It asks the manager, creates the bar and
    the spinner labelled with the resolved version, opens the write stream,
    renders every progress event that follows the resolved version, in
    order, stops the spinner and prints the completion message, and does
    nothing else; whatever the stream emits after the end is ignored. The
    file at [outputPath] is replaced by the chunks of the stream, those
    that came before the resolved version included, and no other path is
    touched. *)
Theorem downloadOSImage_raw_success
    (w : World) (deviceType outputPath : string) (OSVersion : option string)
    (s s1 : CliState) (v ver : string) (stream : ImageStream)
    (pre mid rest : list StreamEvent) :
  requestedVersion w deviceType OSVersion s = (Returned v, s1) ->
  managerGet w deviceType v = Fulfilled stream ->
  mime stream <> Some "application/zip" ->
  events stream = pre ++ ResolvedVersion ver :: mid ++ End :: rest ->
  Forall progressOrData pre -> Forall progressOrData mid ->
  let run := downloadOSImage w deviceType outputPath OSVersion s in
  fst run = Returned outputPath
  /\ effects (snd run)
     = effects s1
         ++ [ManagerGet deviceType v]
         ++ rendererFor ver
         ++ [CreateWriteStream outputPath]
         ++ map render (progressOf mid)
         ++ [SpinnerStop; completionMessage ver]
  /\ fs (snd run) !! outputPath = Some (File (payloadOf (pre ++ mid)))
  /\ forall q, q <> outputPath -> fs (snd run) !! q = fs s !! q.
Proof.
  intros Hv Hget Hraw Hev Hpre Hmid run. subst run.
  rewrite (downloadOSImage_run _ _ _ _ _ _ _ _ Hv Hget).
  pose proof (awaitResolvedVersion_quiet pre (mid ++ End :: rest) [] ver
                (progressOrData_quiet _ Hpre)) as Hres.
  rewrite <- Hev in Hres. cbn [app] in Hres.
  rewrite (transfer_piped w stream outputPath _ ver _ Hres).
  assert (Hl : Forall progressOrData (heldBack pre ++ mid)).
  { apply Forall_app. split; [now apply heldBack_progressOrData | exact Hmid]. }
  rewrite List.app_assoc.
  unfold outputFor. rewrite decide_False by exact Hraw.
  destruct (drain_app w (heldBack pre ++ mid) (End :: rest) (WriteStream outputPath)
              (whenPiped (atManagerGet s1 deviceType v) ver (mime stream) outputPath)
              Hl)
    as (out' & s' & Hrun & Heff & Henv & Hout & Hother & Hfile).
  rewrite Hrun, Hout. simpl drain. unfold bind, emit, modify, ret. cbn [fst snd].
  split; [reflexivity|]. cbn [effects fs logged].
  pose proof (requestedVersion_keeps fs w deviceType OSVersion preserves_fs_emit s)
    as Hfs.
  rewrite Hv in Hfs. cbn [snd] in Hfs.
  split; [|split].
  - rewrite Heff, whenPiped_effects, progressOf_held_mid. cbn [effects atManagerGet].
    unfold stageFor. rewrite decide_False by exact Hraw.
    rewrite <- !List.app_assoc. reflexivity.
  - rewrite (Hfile []).
    + simpl. now rewrite heldBack_payload.
    + unfold whenPiped. cbn [fs]. rewrite decide_False by exact Hraw.
      apply lookup_insert_eq.
  - intros q Hq. rewrite (Hother q Hq). unfold whenPiped. cbn [fs atManagerGet].
    rewrite decide_False by exact Hraw.
    rewrite lookup_insert_ne by congruence. now rewrite Hfs.
Qed.

Lemma downloadOSImage_raw_success_witness :
  requestedVersion exampleWorld "raspberrypi3" (Some "v2.88.4") emptyState
  = (Returned "2.88.4.prod",
     logged emptyState (ConsoleInfo "Getting device operating system for raspberrypi3"))
  /\ managerGet exampleWorld "raspberrypi3" "2.88.4.prod" = Fulfilled exampleStream
  /\ mime exampleStream <> Some "application/zip"
  /\ events exampleStream
     = [Progress None] ++ ResolvedVersion "2.88.4"
         :: [Progress None; Data [Byte.x62; Byte.x61];
             Progress (Some {| percentage := 66; eta := 1 |}); Data [Byte.x6c]]
         ++ End :: []
  /\ fst (downloadOSImage exampleWorld "raspberrypi3" "out.img" (Some "v2.88.4")
            emptyState) = Returned "out.img".
Proof.
  assert (Hmime : mime exampleStream <> Some "application/zip") by discriminate.
  split; [reflexivity|]. split; [reflexivity|]. split; [exact Hmime|].
  split; [reflexivity|].
  apply (downloadOSImage_raw_success exampleWorld "raspberrypi3" "out.img"
           (Some "v2.88.4") emptyState _ "2.88.4.prod" "2.88.4" exampleStream
           [Progress None]
           [Progress None; Data [Byte.x62; Byte.x61];
            Progress (Some {| percentage := 66; eta := 1 |}); Data [Byte.x6c]]
           [] eq_refl eq_refl Hmime eq_refl); repeat constructor.
Defined.

(** X7: a zipped image. When the stream's [mime] is ['application/zip']
    and the stream emits ['resolved-version'] and then the end of its
    payload, with only progress events and chunks besides, the run opens the
    unzip stage, renders the progress events that follow the resolved
    version and stops the spinner; then everything depends on the archive
    parser applied to the whole payload. If it finds entries, the run
    returns [outputPath], which holds them as a directory, and the
    completion message is printed last. If it fails, the run fails with the
    parser's error and no completion message is printed. *)
Theorem downloadOSImage_zip
    (w : World) (deviceType outputPath : string) (OSVersion : option string)
    (s s1 : CliState) (v ver : string) (stream : ImageStream)
    (pre mid rest : list StreamEvent) :
  requestedVersion w deviceType OSVersion s = (Returned v, s1) ->
  managerGet w deviceType v = Fulfilled stream ->
  mime stream = Some "application/zip" ->
  events stream = pre ++ ResolvedVersion ver :: mid ++ End :: rest ->
  Forall progressOrData pre -> Forall progressOrData mid ->
  let run := downloadOSImage w deviceType outputPath OSVersion s in
  let shown :=
    effects s1 ++ [ManagerGet deviceType v] ++ rendererFor ver
      ++ [UnzipExtract outputPath] ++ map render (progressOf mid) ++ [SpinnerStop] in
  (forall entries,
      unzipParse w (payloadOf (pre ++ mid)) = inr entries ->
      fst run = Returned outputPath
      /\ effects (snd run) = shown ++ [completionMessage ver]
      /\ fs (snd run) !! outputPath = Some (Directory entries)
      /\ forall q, q <> outputPath -> fs (snd run) !! q = fs s !! q)
  /\ (forall e,
        unzipParse w (payloadOf (pre ++ mid)) = inl e ->
        fst run = Thrown e
        /\ effects (snd run) = shown).
Proof.
  intros Hv Hget Hzip Hev Hpre Hmid run shown. subst run shown.
  rewrite (downloadOSImage_run _ _ _ _ _ _ _ _ Hv Hget).
  pose proof (awaitResolvedVersion_quiet pre (mid ++ End :: rest) [] ver
                (progressOrData_quiet _ Hpre)) as Hres.
  rewrite <- Hev in Hres. cbn [app] in Hres.
  rewrite (transfer_piped w stream outputPath _ ver _ Hres).
  assert (Hl : Forall progressOrData (heldBack pre ++ mid)).
  { apply Forall_app. split; [now apply heldBack_progressOrData | exact Hmid]. }
  rewrite List.app_assoc.
  unfold outputFor. rewrite decide_True by exact Hzip.
  destruct (drain_app w (heldBack pre ++ mid) (End :: rest) (Extract outputPath [])
              (whenPiped (atManagerGet s1 deviceType v) ver (mime stream) outputPath)
              Hl)
    as (out' & s' & Hrun & Heff & Henv & Hout & Hfs').
  rewrite Hrun, Hout. simpl drain. rewrite heldBack_payload.
  pose proof (requestedVersion_keeps fs w deviceType OSVersion preserves_fs_emit s)
    as Hfs.
  rewrite Hv in Hfs. cbn [snd] in Hfs.
  assert (Hshown : effects s' ++ [SpinnerStop]
                   = effects s1 ++ [ManagerGet deviceType v] ++ rendererFor ver
                       ++ [UnzipExtract outputPath] ++ map render (progressOf mid)
                       ++ [SpinnerStop]).
  { rewrite Heff, whenPiped_effects, progressOf_held_mid. cbn [effects atManagerGet].
    unfold stageFor. rewrite decide_True by exact Hzip.
    rewrite <- !List.app_assoc. reflexivity. }
  assert (Hfs0 : fs s' = fs s).
  { rewrite Hfs'. unfold whenPiped. cbn [fs atManagerGet].
    rewrite decide_True by exact Hzip. exact Hfs. }
  split.
  - intros entries Hparse. unfold outputEnd. rewrite Hparse.
    unfold bind, emit, setFs, modify, logged. cbn [fst snd effects fs].
    split; [reflexivity|]. split; [now rewrite Hshown, <- !List.app_assoc|].
    split; [apply lookup_insert_eq|].
    intros q Hq. rewrite lookup_insert_ne by congruence. now rewrite Hfs0.
  - intros e Hparse. unfold outputEnd. rewrite Hparse.
    unfold bind, emit, modify, throw. cbn [fst snd effects fs].
    split; [reflexivity | exact Hshown].
Qed.

Lemma downloadOSImage_zip_witness :
  requestedVersion badZipWorld "raspberrypi3" (Some "2.88.4") emptyState
  = (Returned "2.88.4.prod",
     logged emptyState (ConsoleInfo "Getting device operating system for raspberrypi3"))
  /\ managerGet badZipWorld "raspberrypi3" "2.88.4.prod" = Fulfilled zipStream
  /\ mime zipStream = Some "application/zip"
  /\ events zipStream
     = [] ++ ResolvedVersion "2.88.4"
         :: [Data [Byte.x50; Byte.x4b]; Progress None] ++ End :: []
  /\ fst (downloadOSImage badZipWorld "raspberrypi3" "out" (Some "2.88.4") emptyState)
     = Thrown (JsError "invalid signature").
Proof.
  split; [reflexivity|]. split; [reflexivity|]. split; [reflexivity|].
  split; [reflexivity|].
  assert (Hmid : Forall progressOrData [Data [Byte.x50; Byte.x4b]; Progress None])
    by (repeat constructor).
  destruct (downloadOSImage_zip badZipWorld "raspberrypi3" "out" (Some "2.88.4")
              emptyState _ "2.88.4.prod" "2.88.4" zipStream []
              [Data [Byte.x50; Byte.x4b]; Progress None] []
              eq_refl eq_refl eq_refl eq_refl (List.Forall_nil _) Hmid)
    as [_ Hfail].
  exact (proj1 (Hfail (JsError "invalid signature") eq_refl)).
Defined.

(** X8: an error of the destination fails the run. When the stream emits
    ['resolved-version'] and, before the end of its payload, the
    destination of the pipe emits an error, with only progress events and
    chunks besides, the run fails with that error. The progress events
    before the error have been rendered, but the spinner is not stopped and
    no completion message is printed; for a write stream the chunks
    received so far are left in the file at [outputPath]. *)
Theorem downloadOSImage_destination_error
    (w : World) (deviceType outputPath : string) (OSVersion : option string)
    (s s1 : CliState) (v ver : string) (stream : ImageStream)
    (pre mid rest : list StreamEvent) (e : Error) :
  requestedVersion w deviceType OSVersion s = (Returned v, s1) ->
  managerGet w deviceType v = Fulfilled stream ->
  events stream = pre ++ ResolvedVersion ver :: mid ++ OutputError e :: rest ->
  Forall progressOrData pre -> Forall progressOrData mid ->
  let run := downloadOSImage w deviceType outputPath OSVersion s in
  fst run = Thrown e
  /\ effects (snd run)
     = effects s1 ++ [ManagerGet deviceType v] ++ rendererFor ver
         ++ [stageFor (mime stream) outputPath] ++ map render (progressOf mid)
  /\ (mime stream <> Some "application/zip" ->
      fs (snd run) !! outputPath = Some (File (payloadOf (pre ++ mid)))).
Proof.
  intros Hv Hget Hev Hpre Hmid run. subst run.
  rewrite (downloadOSImage_run _ _ _ _ _ _ _ _ Hv Hget).
  pose proof (awaitResolvedVersion_quiet pre (mid ++ OutputError e :: rest) [] ver
                (progressOrData_quiet _ Hpre)) as Hres.
  rewrite <- Hev in Hres. cbn [app] in Hres.
  rewrite (transfer_piped w stream outputPath _ ver _ Hres).
  assert (Hl : Forall progressOrData (heldBack pre ++ mid)).
  { apply Forall_app. split; [now apply heldBack_progressOrData | exact Hmid]. }
  rewrite List.app_assoc.
  destruct (drain_app w (heldBack pre ++ mid) (OutputError e :: rest)
              (outputFor (mime stream) outputPath)
              (whenPiped (atManagerGet s1 deviceType v) ver (mime stream) outputPath)
              Hl)
    as (out' & s' & Hrun & Heff & Henv & Hout).
  rewrite Hrun. simpl drain. unfold throw. cbn [fst snd].
  split; [reflexivity|]. split.
  - rewrite Heff, whenPiped_effects, progressOf_held_mid. cbn [effects atManagerGet].
    rewrite <- !List.app_assoc. reflexivity.
  - intros Hraw. unfold outputFor in Hout. rewrite decide_False in Hout by exact Hraw.
    destruct Hout as (_ & _ & Hfile). rewrite (Hfile []).
    + simpl. now rewrite heldBack_payload.
    + unfold whenPiped. cbn [fs]. rewrite decide_False by exact Hraw.
      apply lookup_insert_eq.
Qed.

Lemma downloadOSImage_destination_error_witness :
  requestedVersion diskFullWorld "raspberrypi3" (Some "2.88.4") emptyState
  = (Returned "2.88.4.prod",
     logged emptyState (ConsoleInfo "Getting device operating system for raspberrypi3"))
  /\ managerGet diskFullWorld "raspberrypi3" "2.88.4.prod" = Fulfilled diskFullStream
  /\ events diskFullStream
     = [] ++ ResolvedVersion "2.88.4"
         :: [Data [Byte.x62; Byte.x61]]
         ++ OutputError (JsError "ENOSPC") :: [Data [Byte.x6c]; End]
  /\ fst (downloadOSImage diskFullWorld "raspberrypi3" "out.img" (Some "2.88.4")
            emptyState)
     = Thrown (JsError "ENOSPC").
Proof.
  split; [reflexivity|]. split; [reflexivity|]. split; [reflexivity|].
  assert (Hmid : Forall progressOrData [Data [Byte.x62; Byte.x61]])
    by (repeat constructor).
  exact (proj1 (downloadOSImage_destination_error diskFullWorld "raspberrypi3"
                  "out.img" (Some "2.88.4") emptyState _ "2.88.4.prod" "2.88.4"
                  diskFullStream [] [Data [Byte.x62; Byte.x61]]
                  [Data [Byte.x6c]; End] (JsError "ENOSPC")
                  eq_refl eq_refl eq_refl (List.Forall_nil _) Hmid)).
Defined.

(** ** The completion message *)

Lemma requestedVersion_resolutionEffects w deviceType OSVersion :
  emitsOnly (resolutionEffect deviceType) (requestedVersion w deviceType OSVersion).
Proof.
  assert (Hfetch : forall esr, emitsOnly (resolutionEffect deviceType)
                                 (getFormattedOsVersions w deviceType esr)).
  { intros esr. unfold getFormattedOsVersions.
    apply emitsOnly_bind; [now apply emitsOnly_emit | intros _].
    apply emitsOnly_bind; [apply emitsOnly_await | intros byType].
    match goal with |- context [match ?l with [] => _ | _ :: _ => _ end] =>
      destruct l end; [apply emitsOnly_throw | apply emitsOnly_ret]. }
  assert (Hmenu : forall esr, emitsOnly (resolutionEffect deviceType)
                                (selectOSVersionFromMenu w deviceType esr)).
  { intros esr. unfold selectOSVersionFromMenu.
    apply emitsOnly_bind; [apply Hfetch | intros vs].
    apply emitsOnly_bind; [now apply emitsOnly_emit | intros _].
    apply emitsOnly_await. }
  unfold requestedVersion.
  apply emitsOnly_bind.
  { apply emitsOnly_emit. simpl. apply String.eqb_refl. }
  intros _. apply emitsOnly_bind.
  { destruct (negb (truthy OSVersion));
      [now apply emitsOnly_emit | apply emitsOnly_ret]. }
  intros _. destruct OSVersion as [[|c v]|]; try apply emitsOnly_ret.
  unfold resolveOSVersion.
  destruct (includes _ (String c v)); [apply Hmenu | apply emitsOnly_ret].
Qed.

Lemma resolutionEffect_not_completion (deviceType : string) (e : Effect) :
  resolutionEffect deviceType e = true -> isCompletion e = false.
Proof.
  destruct e; simpl; try reflexivity; try discriminate.
  intros H. apply String.eqb_eq in H. now rewrite H.
Qed.

(** X9: the completion message is printed exactly by the runs that
    return. A run of [downloadOSImage] that returns returns [outputPath];
    its last effect is the one completion message it prints, and the
    version in that message is the one carried by the first
    ['resolved-version'] event of the stream the manager gave for the
    requested version, which comes before any error of that stream. A run
    that does not return prints no completion message. *)
Theorem downloadOSImage_completion_message
    (w : World) (deviceType outputPath : string) (OSVersion : option string)
    (s : CliState) :
  let run := downloadOSImage w deviceType outputPath OSVersion s in
  exists d,
    effects (snd run) = effects s ++ d
    /\ (forall p,
          fst run = Returned p ->
          p = outputPath
          /\ exists v s1 stream pre ver rest d',
               requestedVersion w deviceType OSVersion s = (Returned v, s1)
               /\ managerGet w deviceType v = Fulfilled stream
               /\ events stream = pre ++ ResolvedVersion ver :: rest
               /\ Forall quiet pre
               /\ d = d' ++ [completionMessage ver]
               /\ List.filter isCompletion d' = [])
    /\ ((forall p, fst run <> Returned p) -> List.filter isCompletion d = []).
Proof.
  intros run. subst run.
  destruct (requestedVersion w deviceType OSVersion s) as [o s1] eqn:Hv.
  destruct (requestedVersion_resolutionEffects w deviceType OSVersion s)
    as (d1 & Hd1 & HP1).
  rewrite Hv in Hd1. cbn [snd] in Hd1.
  assert (Hnone1 : List.filter isCompletion d1 = []).
  { apply (filter_none _ (resolutionEffect deviceType)); [|exact HP1].
    apply resolutionEffect_not_completion. }
  destruct o as [v|e|].
  2,3: exists d1; unfold downloadOSImage, bind; rewrite Hv; cbn [fst snd];
       (split; [exact Hd1|]); (split; [intros p Hp; discriminate | now intros _]).
  assert (Hat : effects (atManagerGet s1 deviceType v)
                = effects s ++ d1 ++ [ManagerGet deviceType v]).
  { cbn [effects atManagerGet]. now rewrite Hd1, <- List.app_assoc. }
  assert (Hnone2 : List.filter isCompletion (d1 ++ [ManagerGet deviceType v]) = []).
  { now rewrite List.filter_app, Hnone1. }
  destruct (managerGet w deviceType v) as [stream|e] eqn:Hget.
  2: { exists (d1 ++ [ManagerGet deviceType v]).
       unfold downloadOSImage, bind. rewrite Hv.
       unfold setEnv, emit, modify, await. rewrite Hget. cbn [fst snd].
       split; [exact Hat|]. split; [intros p Hp; discriminate | now intros _]. }
  rewrite (downloadOSImage_run _ _ _ _ _ _ _ _ Hv Hget).
  destruct (awaitResolvedVersion (events stream) []) as [[ver remaining]|e|] eqn:Hres.
  - destruct (transfer_resolved w stream outputPath (atManagerGet s1 deviceType v)
                ver remaining Hres) as (dd & Hd & HP & _ & Hret).
    rewrite Hat in Hd.
    destruct (awaitResolvedVersion_returned _ _ _ _ Hres)
      as (pre & rest & kept & Hev & Hq & _ & _).
    set (core := d1 ++ [ManagerGet deviceType v]
                   ++ [NewProgress ("Downloading balenaOS version " +:+ ver);
                       NewSpinner ("Downloading balenaOS version " +:+ ver
                                     +:+ " (size unknown)");
                       stageFor (mime stream) outputPath] ++ dd).
    assert (Hnone3 : List.filter isCompletion core = []).
    { subst core. rewrite !List.filter_app, Hnone1.
      rewrite (filter_none isCompletion fromDrain dd); [|now intros []|exact HP].
      unfold stageFor. now case_decide. }
    destruct (fst (transfer w stream outputPath (atManagerGet s1 deviceType v)))
      as [p|e|] eqn:Hfst.
    + exists (core ++ [completionMessage ver]).
      split; [rewrite Hd; subst core; unfold completionMessage;
              now rewrite <- !List.app_assoc|].
      split.
      * intros p' Hp'. inversion Hp'; subst p'.
        split; [exact (proj1 (Hret p eq_refl))|].
        exists v, s1, stream, pre, ver, rest, core.
        split; [reflexivity|]. split; [exact Hget|].
        split; [exact Hev|]. split; [exact Hq|].
        split; [reflexivity | exact Hnone3].
      * intros Hno. now destruct (Hno p).
    + exists core.
      split; [rewrite Hd; subst core; rewrite app_nil_r;
              now rewrite <- !List.app_assoc|].
      split; [intros p' Hp'; discriminate | now intros _].
    + exists core.
      split; [rewrite Hd; subst core; rewrite app_nil_r;
              now rewrite <- !List.app_assoc|].
      split; [intros p' Hp'; discriminate | now intros _].
  - rewrite transfer_unresolved by (intros x; rewrite Hres; discriminate).
    rewrite Hres. exists (d1 ++ [ManagerGet deviceType v]).
    split; [exact Hat|]. split; [intros p Hp; discriminate | now intros _].
  - rewrite transfer_unresolved by (intros x; rewrite Hres; discriminate).
    rewrite Hres. exists (d1 ++ [ManagerGet deviceType v]).
    split; [exact Hat|]. split; [intros p Hp; discriminate | now intros _].
Qed.

(** ** The menu path *)

Lemma requestedVersion_menu w deviceType esr s byType :
  getAvailableOsVersions w [deviceType] = Fulfilled byType ->
  catalogPartition byType deviceType esr <> [] ->
  let q := menuQuestion (map reformat (catalogPartition byType deviceType esr)) in
  requestedVersion w deviceType (Some (menuToken esr)) s
  = (match cliFormAsk w q with
     | Fulfilled answer => Returned answer
     | Rejected e => Thrown e
     end, afterPrompt s deviceType q).
Proof.
  intros Hq Hne q.
  assert (Hshape : forall s0,
             requestedVersion w deviceType (Some (menuToken esr)) s0
             = selectOSVersionFromMenu w deviceType esr
                 (logged s0 (ConsoleInfo ("Getting device operating system for "
                                            +:+ deviceType))))
    by (intros s0; now destruct esr).
  rewrite Hshape, (selectOSVersionFromMenu_run _ _ _ _ _ Hq Hne). reflexivity.
Qed.

(** X10: the menu path hands the user's choice to the image manager as it
    is. With the token ['menu'] or ['menu-esr'], a catalog that answers and
    a non-empty partition, [downloadOSImage] prints its first message,
    queries the catalog and asks the list question; no warning is printed.
    The answer of the prompt is the version asked of the manager, without
    stripping a ['v'] and without appending ['.prod']. When the prompt is
    rejected (the user aborts it), the run fails with that error right
    there: the manager is not asked. *)
Theorem downloadOSImage_menu
    (w : World) (deviceType outputPath : string) (esr : bool) (s : CliState)
    (byType : gmap string (list OsVersion)) :
  getAvailableOsVersions w [deviceType] = Fulfilled byType ->
  catalogPartition byType deviceType esr <> [] ->
  let q := menuQuestion (map reformat (catalogPartition byType deviceType esr)) in
  let run := downloadOSImage w deviceType outputPath (Some (menuToken esr)) s in
  (forall answer,
      cliFormAsk w q = Fulfilled answer ->
      exists d,
        effects (snd run)
        = effects (afterPrompt s deviceType q) ++ [ManagerGet deviceType answer] ++ d
        /\ requestedOf d = [])
  /\ (forall e,
        cliFormAsk w q = Rejected e ->
        run = (Thrown e, afterPrompt s deviceType q)).
Proof.
  intros Hq Hne q run. subst run.
  pose proof (requestedVersion_menu w deviceType esr s byType Hq Hne) as Hv.
  cbv zeta in Hv. fold q in Hv. split.
  - intros answer Hans. rewrite Hans in Hv.
    destruct (managerGet w deviceType answer) as [stream|e] eqn:Hget.
    + rewrite (downloadOSImage_run _ _ _ _ _ _ _ _ Hv Hget).
      destruct (transfer_emits w stream outputPath
                  (atManagerGet (afterPrompt s deviceType q) deviceType answer))
        as (d & Hd & HP).
      exists d. split; [rewrite Hd; cbn [effects atManagerGet];
                        now rewrite <- !List.app_assoc|].
      apply (requestedOf_none fromTransfer); [|exact HP]. now intros [].
    + exists []. unfold downloadOSImage, bind. rewrite Hv.
      unfold setEnv, emit, modify, await. rewrite Hget. cbn [fst snd effects].
      split; reflexivity.
  - intros e Hrej. rewrite Hrej in Hv.
    unfold downloadOSImage, bind. now rewrite Hv.
Qed.

Lemma downloadOSImage_menu_witness :
  getAvailableOsVersions cancellingWorld ["raspberrypi3"] = Fulfilled exampleCatalog
  /\ catalogPartition exampleCatalog "raspberrypi3" false <> []
  /\ fst (downloadOSImage cancellingWorld "raspberrypi3" "out.img" (Some "menu")
            emptyState)
     = Thrown (JsError "User force closed the prompt").
Proof.
  assert (Hne : catalogPartition exampleCatalog "raspberrypi3" false <> [])
    by (vm_compute; discriminate).
  split; [reflexivity|]. split; [exact Hne|].
  destruct (downloadOSImage_menu cancellingWorld "raspberrypi3" "out.img" false
              emptyState exampleCatalog eq_refl Hne) as [_ Hcancel].
  change (Some "menu") with (Some (menuToken false)).
  now rewrite (Hcancel (JsError "User force closed the prompt") eq_refl).
Defined.

(** X11: the prompt always has a pre-selected entry, and it is one of the
    listed choices. When the catalog answers and the requested partition is
    not empty, the question that [selectOSVersionFromMenu] asks has a
    default value (it is never undefined), and that value is the value of
    one of the choices. *)
Theorem selectOSVersionFromMenu_default_is_listed
    (w : World) (deviceType : string) (esr : bool) (s : CliState)
    (byType : gmap string (list OsVersion)) :
  getAvailableOsVersions w [deviceType] = Fulfilled byType ->
  catalogPartition byType deviceType esr <> [] ->
  exists q d,
    effects (snd (selectOSVersionFromMenu w deviceType esr s))
    = effects s ++ [GetAvailableOsVersions [deviceType]; CliFormAsk q]
    /\ q_default q = Some d
    /\ In d (map value (q_choices q)).
Proof.
  intros Hq Hne.
  set (vs := map reformat (catalogPartition byType deviceType esr)).
  exists (menuQuestion vs).
  assert (Hdef : exists v, nullish (find isRecommended vs) (head vs) = Some v
                           /\ In v vs).
  { destruct (find isRecommended vs) as [v|] eqn:Hfind.
    - exists v. split; [reflexivity|]. now apply List.find_some in Hfind.
    - subst vs. destruct (catalogPartition byType deviceType esr) as [|u us];
        [congruence|].
      exists (reformat u). split; [reflexivity | now left]. }
  destruct Hdef as (v & Hv & Hin).
  exists (rawVersion v). split; [|split].
  - rewrite (selectOSVersionFromMenu_run _ _ _ _ _ Hq Hne). fold vs.
    cbn [snd effects logged]. now rewrite <- List.app_assoc.
  - simpl. now rewrite Hv.
  - simpl. rewrite List.map_map. simpl.
    now apply (List.in_map rawVersion).
Qed.

Lemma selectOSVersionFromMenu_default_is_listed_witness :
  getAvailableOsVersions exampleWorld ["raspberrypi3"] = Fulfilled exampleCatalog
  /\ catalogPartition exampleCatalog "raspberrypi3" true <> []
  /\ exists q d,
       effects (snd (selectOSVersionFromMenu exampleWorld "raspberrypi3" true
                       emptyState))
       = [GetAvailableOsVersions ["raspberrypi3"]; CliFormAsk q]
       /\ q_default q = Some d.
Proof.
  assert (Hne : catalogPartition exampleCatalog "raspberrypi3" true <> [])
    by (vm_compute; discriminate).
  split; [reflexivity|]. split; [exact Hne|].
  destruct (selectOSVersionFromMenu_default_is_listed exampleWorld "raspberrypi3"
              true emptyState exampleCatalog eq_refl Hne) as (q & d & He & Hd & _).
  exists q, d. split; [exact He | exact Hd].
Defined.

(** ** Fetching again *)

Lemma reformat_fields (v : OsVersion) :
  reformat v
  = {| rawVersion := rawVersion v;
       formattedVersion := formattedVersion (reformat v);
       osType := osType v;
       isRecommended := isRecommended v |}.
Proof. reflexivity. Qed.

Lemma spaceless_v (raw : string) : spaceless raw -> spaceless ("v" +:+ raw).
Proof. intros H. apply spaceless_cons; [discriminate | exact H]. Qed.

Lemma reformat_idempotent (v : OsVersion) :
  spaceless (rawVersion v) -> reformat (reformat v) = reformat v.
Proof.
  intros Hraw.
  enough (H : formattedVersion (reformat (reformat v)) = formattedVersion (reformat v))
    by (rewrite (reformat_fields (reformat v)), H; reflexivity).
  pose proof (spaceless_v _ Hraw) as Hv.
  destruct (reformat_label (reformat v)) as [[Hs ->]|(pre & post & Heq & Hpre & ->)];
    destruct (reformat_label v) as [[_ Hl]|(pre' & post' & _ & _ & Hl)];
    cbn [rawVersion reformat].
  - now rewrite Hl.
  - rewrite Hl in Hs. exfalso. apply (Hs ("v" +:+ rawVersion v) post').
    now rewrite string_app_assoc.
  - rewrite Hl in Heq. exfalso. exact (Hv pre post Heq).
  - rewrite Hl in Heq. rewrite Hl.
    rewrite <- (string_app_assoc "v" (rawVersion v)) in Heq.
    destruct (first_space_unique _ _ _ _ Heq Hv Hpre) as [_ ->].
    reflexivity.
Qed.

Lemma filter_reformat_all (wanted : string) (l : list OsVersion) :
  Forall (fun v => osType v = wanted) l ->
  List.filter (fun v => String.eqb (osType v) wanted) (map reformat l)
  = map reformat l.
Proof.
  intros H. induction H as [|u us Hu _ IH]; [reflexivity|].
  simpl. rewrite Hu, String.eqb_refl. now rewrite IH.
Qed.

(** X12: fetching again changes nothing. [getFormattedOsVersions]
    rewrites the labels of the catalog's descriptors; when the descriptors
    it returned are what the catalog lists for the device type the next
    time, and no raw version contains a space, the next fetch returns them
    unchanged: labels are not prefixed or extended a second time. *)
Theorem getFormattedOsVersions_again
    (w w' : World) (deviceType : string) (esr : bool) (s s' : CliState)
    (byType byType' : gmap string (list OsVersion)) (versions : list OsVersion) :
  getAvailableOsVersions w [deviceType] = Fulfilled byType ->
  Forall (fun v => spaceless (rawVersion v)) (catalogPartition byType deviceType esr) ->
  fst (getFormattedOsVersions w deviceType esr s) = Returned versions ->
  getAvailableOsVersions w' [deviceType] = Fulfilled byType' ->
  byType' !! deviceType = Some versions ->
  fst (getFormattedOsVersions w' deviceType esr s') = Returned versions.
Proof.
  intros Hq Hraw Hfirst Hq' Hlook.
  rewrite (getFormattedOsVersions_run _ _ _ _ _ Hq) in Hfirst.
  assert (Hvs : versions = map reformat (catalogPartition byType deviceType esr)
                /\ versions <> []).
  { destruct (map reformat (catalogPartition byType deviceType esr)) as [|v vs];
      [discriminate|]. inversion Hfirst. now split. }
  destruct Hvs as [Hvs Hne].
  assert (Hpart : catalogPartition byType' deviceType esr = versions).
  { unfold catalogPartition. rewrite Hlook.
    change (default [] (Some versions)) with versions. rewrite Hvs.
    apply filter_reformat_all, catalogPartition_osType. }
  rewrite (getFormattedOsVersions_run _ _ _ _ _ Hq'), Hpart.
  assert (Hsame : map reformat versions = versions).
  { rewrite Hvs. clear Hvs Hne Hpart Hfirst Hlook.
    induction Hraw as [|u us Hu _ IH]; [reflexivity|].
    simpl. now rewrite (reformat_idempotent u Hu), IH. }
  rewrite Hsame. destruct versions; [congruence | reflexivity].
Qed.

Lemma getFormattedOsVersions_again_witness :
  getAvailableOsVersions exampleWorld ["raspberrypi3"] = Fulfilled exampleCatalog
  /\ Forall (fun v => spaceless (rawVersion v))
       (catalogPartition exampleCatalog "raspberrypi3" true)
  /\ fst (getFormattedOsVersions exampleWorld "raspberrypi3" true emptyState)
     = Returned [fetchedEsr]
  /\ getAvailableOsVersions refetchWorld ["raspberrypi3"] = Fulfilled refetchCatalog
  /\ refetchCatalog !! "raspberrypi3" = Some [fetchedEsr]
  /\ fst (getFormattedOsVersions refetchWorld "raspberrypi3" true emptyState)
     = Returned [fetchedEsr].
Proof.
  assert (Hraw : Forall (fun v => spaceless (rawVersion v))
                   (catalogPartition exampleCatalog "raspberrypi3" true)).
  { change (catalogPartition exampleCatalog "raspberrypi3" true)
      with [{| rawVersion := "2023.10.0"; formattedVersion := "2023.10.0 ESR sunset";
               osType := "esr"; isRecommended := false |}].
    repeat constructor. simpl. intros pre post Heq.
    assert (Hidx : indexOf "2023.10.0" " " = (-1)%Z) by reflexivity.
    destruct (indexOfFrom_space "2023.10.0" 0) as [[_ Hs]|(p & q & Hpq & _ & Hi)];
      [lia | exact (Hs pre post Heq) |].
    unfold indexOf in Hidx. rewrite Hidx in Hi. lia. }
  assert (Hfirst : fst (getFormattedOsVersions exampleWorld "raspberrypi3" true
                          emptyState) = Returned [fetchedEsr])
    by (vm_compute; reflexivity).
  assert (Hlook : refetchCatalog !! "raspberrypi3" = Some [fetchedEsr])
    by (vm_compute; reflexivity).
  split; [reflexivity|]. split; [exact Hraw|]. split; [exact Hfirst|].
  split; [reflexivity|]. split; [exact Hlook|].
  exact (getFormattedOsVersions_again exampleWorld refetchWorld "raspberrypi3" true
           emptyState emptyState exampleCatalog refetchCatalog [fetchedEsr]
           eq_refl Hraw Hfirst eq_refl Hlook).
Defined.

(** ** The memoized lookups, call by call *)

Lemma serviceIdToName_step (sdk : Memo.BalenaSDK) (serviceId : Z) (s : Memo.MemoState) :
  let run := Memo.serviceIdToName (sdk, serviceId) s in
  (is_Some (Memo.serviceCache s !! pretty serviceId) /\ snd run = s)
  \/ (Memo.serviceCache s !! pretty serviceId = None
      /\ Memo.requests (snd run) = Memo.requests s ++ [Memo.PineGetService serviceId]
      /\ Memo.serviceCache (snd run)
         = <[pretty serviceId := fst run]> (Memo.serviceCache s)
      /\ Memo.deviceAndAppCache (snd run) = Memo.deviceAndAppCache s
      /\ Memo.deviceAndMaybeAppCache (snd run) = Memo.deviceAndMaybeAppCache s
      /\ fst run = match Memo.pineGetService sdk serviceId with
                   | Fulfilled (Some sn) => Returned (Some (Memo.service_name sn))
                   | Fulfilled None => Returned None
                   | Rejected e => Thrown e
                   end).
Proof.
  unfold Memo.serviceIdToName, Memo.memoize. cbv zeta.
  destruct (Memo.serviceCache s !! pretty serviceId) as [r|] eqn:Hlook.
  - left. split; [now exists r | reflexivity].
  - right. split; [reflexivity|].
    unfold bind, Memo.request, modify, await.
    destruct (Memo.pineGetService sdk serviceId) as [[sn|]|e]; simpl;
      now repeat split.
Qed.

Lemma getDeviceAndMaybeAppFromUUID_step (sdk : Memo.BalenaSDK) (deviceUUID : string)
    (selectDeviceFields selectAppFields : option (list string)) (s : Memo.MemoState) :
  let run := Memo.getDeviceAndMaybeAppFromUUID
               (sdk, deviceUUID, selectDeviceFields, selectAppFields) s in
  (is_Some (Memo.deviceAndMaybeAppCache s !! deviceUUID) /\ snd run = s)
  \/ (Memo.deviceAndMaybeAppCache s !! deviceUUID = None
      /\ (exists options,
            Memo.requests (snd run)
            = Memo.requests s ++ [Memo.DeviceGet deviceUUID options])
      /\ Memo.serviceCache (snd run) = Memo.serviceCache s
      /\ Memo.deviceAndAppCache (snd run) = Memo.deviceAndAppCache s
      /\ Memo.deviceAndMaybeAppCache (snd run)
         = <[deviceUUID := fst run]> (Memo.deviceAndMaybeAppCache s)
      /\ forall device app, fst run = Returned (device, Some app) -> app <> []).
Proof.
  unfold Memo.getDeviceAndMaybeAppFromUUID, Memo.memoize. cbv zeta.
  destruct (Memo.deviceAndMaybeAppCache s !! deviceUUID) as [r|] eqn:Hlook.
  - left. split; [now exists r | reflexivity].
  - right. split; [reflexivity|].
    unfold bind, Memo.request, modify, await.
    match goal with |- context [Memo.deviceGet sdk deviceUUID ?o] =>
      destruct (Memo.deviceGet sdk deviceUUID o) as [device|e]; simpl;
      [destruct (Memo.belongs_to__application device) as [[|app apps]|];
       [|destruct app as [|field app']|]; simpl|];
      (split; [now exists o|]); (split; [reflexivity|]); (split; [reflexivity|]);
      (split; [reflexivity|]); intros d a Hda; inversion Hda; discriminate
    end.
Qed.

Lemma getDeviceAndAppFromUUID_step (w : World) (sdk : Memo.BalenaSDK)
    (deviceUUID : string) (selectDeviceFields selectAppFields : option (list string))
    (s : Memo.MemoState) :
  let args := (sdk, deviceUUID, selectDeviceFields, selectAppFields) in
  let run := Memo.getDeviceAndAppFromUUID w args s in
  let inner := Memo.getDeviceAndMaybeAppFromUUID args s in
  (is_Some (Memo.deviceAndAppCache s !! deviceUUID) /\ snd run = s)
  \/ (Memo.deviceAndAppCache s !! deviceUUID = None
      /\ Memo.requests (snd run) = Memo.requests (snd inner)
      /\ Memo.serviceCache (snd run) = Memo.serviceCache (snd inner)
      /\ Memo.deviceAndMaybeAppCache (snd run) = Memo.deviceAndMaybeAppCache (snd inner)
      /\ Memo.deviceAndAppCache (snd run)
         = <[deviceUUID := fst run]> (Memo.deviceAndAppCache (snd inner))
      /\ fst run = appRequired w deviceUUID (fst inner)).
Proof.
  cbv zeta. unfold Memo.getDeviceAndAppFromUUID, Memo.memoize.
  destruct (Memo.deviceAndAppCache s !! deviceUUID) as [r|] eqn:Hlook.
  - left. split; [now exists r | reflexivity].
  - right. split; [reflexivity|]. unfold bind.
    destruct (Memo.getDeviceAndMaybeAppFromUUID
                (sdk, deviceUUID, selectDeviceFields, selectAppFields) s)
      as [[[device [app|]]|e|] s1]; simpl; now repeat split.
Qed.

Lemma NoDup_snoc {A} (l : list A) (x : A) :
  List.NoDup l -> ~ In x l -> List.NoDup (l ++ [x]).
Proof.
  intros Hl; induction Hl as [|a l Ha _ IH]; intros Hx; simpl.
  - constructor; [intros [] | constructor].
  - constructor.
    + intros Hin. apply in_app_or in Hin. destruct Hin as [Hin|[Heq|[]]];
        [contradiction|]. subst. apply Hx. now left.
    + apply IH. intros Hin. apply Hx. now right.
Qed.

Lemma requestsCached_call (w : World) (c : Memo.Call) (s : Memo.MemoState) :
  requestsCached s -> requestsCached (Memo.runCall w c s).
Proof.
  intros Hinv.
  assert (Hservice : forall sdk id,
             requestsCached (snd (Memo.serviceIdToName (sdk, id) s))).
  { intros sdk id. destruct Hinv as (Hnd & Hsvc & Hdev).
    destruct (serviceIdToName_step sdk id s)
      as [[_ ->]|(Hmiss & Hreq & Hcache & _ & Hmaybe & _)]; [now repeat split|].
    unfold requestsCached. rewrite Hreq, Hcache, Hmaybe, map_app. simpl.
    split; [|split].
    - apply NoDup_snoc; [exact Hnd|].
      intros Hk. apply Hsvc in Hk. rewrite Hmiss in Hk. now destruct Hk.
    - intros id' Hin. apply in_app_or in Hin. destruct Hin as [Hin|[Heq|[]]].
      + destruct (decide (pretty id = pretty id')) as [<-|Hne];
          [rewrite lookup_insert_eq; eauto|].
        rewrite lookup_insert_ne by exact Hne. now apply Hsvc.
      + inversion Heq; subst. rewrite lookup_insert_eq. eauto.
    - intros uuid Hin. apply in_app_or in Hin. destruct Hin as [Hin|[Heq|[]]];
        [now apply Hdev | discriminate]. }
  assert (Hmaybe : forall args,
             requestsCached (snd (Memo.getDeviceAndMaybeAppFromUUID args s))).
  { intros [[[sdk uuid] sd] sa]. destruct Hinv as (Hnd & Hsvc & Hdev).
    destruct (getDeviceAndMaybeAppFromUUID_step sdk uuid sd sa s)
      as [[_ ->]|(Hmiss & [o Hreq] & Hcache & _ & Hm & _)]; [now repeat split|].
    unfold requestsCached. rewrite Hreq, Hcache, Hm, map_app. simpl.
    split; [|split].
    - apply NoDup_snoc; [exact Hnd|].
      intros Hk. apply Hdev in Hk. rewrite Hmiss in Hk. now destruct Hk.
    - intros id Hin. apply in_app_or in Hin. destruct Hin as [Hin|[Heq|[]]];
        [now apply Hsvc | discriminate].
    - intros uuid' Hin. apply in_app_or in Hin. destruct Hin as [Hin|[Heq|[]]].
      + destruct (decide (uuid = uuid')) as [<-|Hne];
          [rewrite lookup_insert_eq; eauto|].
        rewrite lookup_insert_ne by exact Hne. now apply Hdev.
      + inversion Heq; subst. rewrite lookup_insert_eq. eauto. }
  destruct c as [sdk serviceId|[[[sdk uuid] sd] sa]|args]; simpl.
  - apply Hservice.
  - destruct (getDeviceAndAppFromUUID_step w sdk uuid sd sa s)
      as [[_ ->]|(_ & Hreq & Hsvc & Hm & _)]; [exact Hinv|].
    specialize (Hmaybe (sdk, uuid, sd, sa)).
    unfold requestsCached in *. now rewrite Hreq, Hsvc, Hm.
  - apply Hmaybe.
Qed.

Lemma requestsCached_calls (w : World) (cs : list Memo.Call) (s : Memo.MemoState) :
  requestsCached s -> requestsCached (Memo.runCalls w cs s).
Proof.
  revert s; induction cs as [|c cs IH]; intros s Hinv; [exact Hinv|].
  simpl. apply IH. now apply requestsCached_call.
Qed.

(** X13: in one process no lookup is sent twice. Whatever calls of
    [serviceIdToName], [getDeviceAndAppFromUUID] and
    [getDeviceAndMaybeAppFromUUID] are made, with whatever SDK objects and
    field selections, at most one request is sent for each service id and
    at most one for each device UUID. *)
Theorem memoized_lookups_request_once (w : World) (cs : list Memo.Call) :
  List.NoDup (map requestKey (Memo.requests (Memo.runCalls w cs emptyMemo))).
Proof.
  apply (requestsCached_calls w cs emptyMemo).
  split; [constructor|]. split; intros k [].
Qed.

Lemma deviceCachesAgree_maybe (w : World) (args : Memo.DeviceArgs) (s : Memo.MemoState) :
  deviceCachesAgree w s ->
  deviceCachesAgree w (snd (Memo.getDeviceAndMaybeAppFromUUID args s)).
Proof.
  destruct args as [[[sdk uuid] sd] sa]. intros (Hagree & Hfull).
  destruct (getDeviceAndMaybeAppFromUUID_step sdk uuid sd sa s)
    as [[_ ->]|(Hmiss & _ & _ & Happ & Hm & Hnew)]; [now split|].
  split.
  - intros uuid' r Hr. rewrite Happ in Hr.
    destruct (Hagree uuid' r Hr) as (maybe & Hmaybe & Heq).
    exists maybe. split; [|exact Heq]. rewrite Hm.
    rewrite lookup_insert_ne; [exact Hmaybe|]. congruence.
  - intros uuid' device app Hentry. rewrite Hm in Hentry.
    destruct (decide (uuid = uuid')) as [<-|Hne].
    + rewrite lookup_insert_eq in Hentry. inversion Hentry as [Hrun].
      exact (Hnew device app Hrun).
    + rewrite lookup_insert_ne in Hentry by exact Hne.
      exact (Hfull uuid' device app Hentry).
Qed.

Lemma deviceCachesAgree_call (w : World) (c : Memo.Call) (s : Memo.MemoState) :
  deviceCachesAgree w s -> deviceCachesAgree w (Memo.runCall w c s).
Proof.
  intros Hinv. destruct c as [sdk serviceId|[[[sdk uuid] sd] sa]|args]; simpl.
  - destruct (serviceIdToName_step sdk serviceId s)
      as [[_ ->]|(_ & _ & _ & Happ & Hm & _)]; [exact Hinv|].
    unfold deviceCachesAgree in *. now rewrite Happ, Hm.
  - destruct (getDeviceAndAppFromUUID_step w sdk uuid sd sa s)
      as [[_ ->]|(Hmiss & _ & _ & Hm & Happ & Hrun)]; [exact Hinv|].
    pose proof (deviceCachesAgree_maybe w (sdk, uuid, sd, sa) s Hinv)
      as (Hagree & Hfull).
    destruct (getDeviceAndMaybeAppFromUUID_spec sdk uuid sd sa s) as (Hhit & _ & _).
    split.
    + intros uuid' r Hr. rewrite Happ in Hr. rewrite Hm.
      destruct (decide (uuid = uuid')) as [<-|Hne].
      * rewrite lookup_insert_eq in Hr.
        eexists. split; [exact Hhit|]. rewrite <- Hrun. congruence.
      * rewrite lookup_insert_ne in Hr by exact Hne. exact (Hagree uuid' r Hr).
    + intros uuid' device app Hentry. rewrite Hm in Hentry.
      exact (Hfull uuid' device app Hentry).
  - now apply deviceCachesAgree_maybe.
Qed.

Lemma deviceCachesAgree_calls (w : World) (cs : list Memo.Call) (s : Memo.MemoState) :
  deviceCachesAgree w s -> deviceCachesAgree w (Memo.runCalls w cs s).
Proof.
  revert s; induction cs as [|c cs IH]; intros s Hinv; [exact Hinv|].
  simpl. apply IH. now apply deviceCachesAgree_call.
Qed.

(** X14: the two device lookups agree. At any point of a process, after
    [getDeviceAndAppFromUUID] has been called for a UUID, a call of
    [getDeviceAndMaybeAppFromUUID] for the same UUID sends no request and
    changes nothing, and the two promises fit: when the first one gave a
    device and an application, the second gives the same device with that
    application, which is not an empty object; when the second one gives a
    device without application, the first one was rejected with the
    [ExpectedError] whose message is built for that UUID. *)
Theorem device_lookups_agree
    (w : World) (cs : list Memo.Call) (sdk1 sdk2 : Memo.BalenaSDK)
    (deviceUUID : string)
    (selectDevice1 selectApp1 selectDevice2 selectApp2 : option (list string)) :
  let s := Memo.runCalls w cs emptyMemo in
  let first := Memo.getDeviceAndAppFromUUID w
                 (sdk1, deviceUUID, selectDevice1, selectApp1) s in
  let second := Memo.getDeviceAndMaybeAppFromUUID
                  (sdk2, deviceUUID, selectDevice2, selectApp2) (snd first) in
  snd second = snd first
  /\ fst first = appRequired w deviceUUID (fst second)
  /\ (forall device app,
        fst first = Returned (device, app) ->
        app <> [] /\ fst second = Returned (device, Some app))
  /\ (forall device,
        fst second = Returned (device, None) ->
        fst first
        = Thrown (ExpectedError
                    (stripIndent w Memo.noFleetAccessTemplate [deviceUUID]))).
Proof.
  intros s first second.
  assert (Hinv : deviceCachesAgree w (snd first)).
  { apply (deviceCachesAgree_call w
             (Memo.CallGetDeviceAndAppFromUUID
                (sdk1, deviceUUID, selectDevice1, selectApp1)) s).
    apply deviceCachesAgree_calls. split.
    - intros uuid r H. simpl in H. rewrite lookup_empty in H. discriminate.
    - intros uuid device app H. simpl in H. rewrite lookup_empty in H.
      discriminate. }
  destruct (getDeviceAndAppFromUUID_spec w sdk1 deviceUUID selectDevice1 selectApp1 s)
    as [Hhit _].
  fold first in Hhit. destruct Hinv as (Hagree & Hfull).
  destruct (Hagree deviceUUID (fst first) Hhit) as (maybe & Hmaybe & Heq).
  assert (Hsecond : second = (maybe, snd first)).
  { subst second. unfold Memo.getDeviceAndMaybeAppFromUUID, Memo.memoize.
    now rewrite Hmaybe. }
  rewrite Hsecond. cbn [fst snd].
  split; [reflexivity|]. split; [exact Heq|]. split.
  - intros device app Hret. rewrite Heq in Hret.
    destruct maybe as [[d [a|]]|e|]; simpl in Hret; try discriminate.
    inversion Hret; subst d a. split; [|reflexivity].
    exact (Hfull deviceUUID device app Hmaybe).
  - intros device ->. exact Heq.
Qed.

Example device_lookups_agree_orphan :
  let first := Memo.getDeviceAndAppFromUUID exampleWorld
                 (sdkOrphan, "7dc3a4f", None, None) emptyMemo in
  fst first
  = Thrown (ExpectedError (interpolate Memo.noFleetAccessTemplate ["7dc3a4f"]))
  /\ fst (Memo.getDeviceAndMaybeAppFromUUID (sdkOne, "7dc3a4f", None, Some ["id"])
            (snd first))
     = Returned (orphanDevice, None)
  /\ length (Memo.requests (snd first)) = 1%nat.
Proof. vm_compute. repeat split. Qed.

(** ** The [os download] command *)

Lemma downloadOSImage_returns_outputPath (w : World) (deviceType outputPath : string)
    (OSVersion : option string) (s : CliState) (p : string) (s' : CliState) :
  downloadOSImage w deviceType outputPath OSVersion s = (Returned p, s') ->
  p = outputPath.
Proof.
  unfold downloadOSImage, bind.
  destruct (requestedVersion w deviceType OSVersion s) as [[v|e|] s1];
    [|discriminate..].
  unfold setEnv, emit, modify, await. cbn [fst snd].
  destruct (managerGet w deviceType v) as [stream|e]; [|discriminate].
  intros Hrun.
  match type of Hrun with transfer _ _ _ ?s0 = _ => set (s2 := s0) in * end.
  destruct (awaitResolvedVersion (events stream) []) as [[ver remaining]|e|] eqn:Hres.
  - destruct (transfer_resolved w stream outputPath s2 ver remaining Hres)
      as (d & _ & _ & _ & Hret).
    refine (proj1 (Hret p _)). now rewrite Hrun.
  - rewrite transfer_unresolved in Hrun by (intros x; rewrite Hres; discriminate).
    rewrite Hres in Hrun. discriminate.
  - rewrite transfer_unresolved in Hrun by (intros x; rewrite Hres; discriminate).
    rewrite Hres in Hrun. discriminate.
Qed.

(** X15: ESR downloads are gated by authentication, and only they are.
    When a version is given and it is ['menu-esr'] or an ESR version, a
    user who is not logged in gets an [ExpectedError] built from the login
    error's message, and any other failure of the login check is passed
    on; in both cases nothing of the download has started (the state is
    untouched) and the rejection carries no device type. When no version is
    given, or the version is neither ['menu-esr'] nor an ESR version, the
    login check plays no part: the run is the same whatever it says. *)
Theorem os_download_login_gate
    (sv : OsDownload.Services) (w : World) (s : CliState)
    (type output version : string) :
  OsDownload.parse sv = inr (type, output, Some version) ->
  version <> EmptyString ->
  (version = "menu-esr" \/ OsDownload.isESR sv version = true ->
   (forall message,
       OsDownload.checkLoggedIn sv = OsDownload.NotLoggedIn message ->
       OsDownload.run sv w s
       = (OsDownload.RejectedWith
            (ExpectedError
               (stripIndent w OsDownload.authenticationTemplate [message])) None,
          s))
   /\ (forall e,
         OsDownload.checkLoggedIn sv = OsDownload.LoginFailed e ->
         OsDownload.run sv w s = (OsDownload.RejectedWith e None, s)))
  /\ (version <> "menu-esr" -> OsDownload.isESR sv version = false ->
      forall login,
        OsDownload.run
          {| OsDownload.parse := OsDownload.parse sv;
             OsDownload.isESR := OsDownload.isESR sv;
             OsDownload.checkLoggedIn := login |} w s
        = OsDownload.run sv w s).
Proof.
  intros Hparse Hne. destruct version as [|c rest]; [congruence|]. split.
  - intros Hesr.
    assert (Hgate : (String.eqb (String c rest) "menu-esr"
                     || OsDownload.isESR sv (String c rest)) = true).
    { destruct Hesr as [-> | ->]; [reflexivity | apply orb_true_r]. }
    split.
    + intros message Hlogin. unfold OsDownload.run, OsDownload.loginGate.
      now rewrite Hparse, Hgate, Hlogin.
    + intros e Hlogin. unfold OsDownload.run, OsDownload.loginGate.
      now rewrite Hparse, Hgate, Hlogin.
  - intros Hmenu Hesr login.
    apply String.eqb_neq in Hmenu.
    unfold OsDownload.run, OsDownload.loginGate. cbn [OsDownload.parse
      OsDownload.isESR OsDownload.checkLoggedIn].
    now rewrite Hparse, Hmenu, Hesr.
Qed.

Lemma os_download_login_gate_witness :
  OsDownload.parse anonymousEsr = inr ("raspberrypi3", "out.img", Some "menu-esr")
  /\ "menu-esr" <> EmptyString
  /\ OsDownload.run anonymousEsr exampleWorld emptyState
     = (OsDownload.RejectedWith
          (ExpectedError
             (interpolate OsDownload.authenticationTemplate ["You have to log in"]))
          None,
        emptyState).
Proof.
  assert (Hne : "menu-esr" <> EmptyString) by discriminate.
  split; [reflexivity|]. split; [exact Hne|].
  destruct (os_download_login_gate anonymousEsr exampleWorld emptyState
              "raspberrypi3" "out.img" "menu-esr" eq_refl Hne) as [Hgate _].
  destruct (Hgate (or_introl eq_refl)) as [Hnot _].
  exact (Hnot "You have to log in" eq_refl).
Defined.

(** X16: what a rejection of [os download] carries. In every run, a
    rejection that carries a device type is a failure of [downloadOSImage]
    itself, with the same error and the final state of the download, and
    the device type is the parsed argument; a rejection without device
    type happened before the download, which has not started (the state is
    untouched); and the command completes exactly when [downloadOSImage]
    returns. *)
Theorem os_download_rejections
    (sv : OsDownload.Services) (w : World) (s : CliState) :
  match OsDownload.run sv w s with
  | (OsDownload.RejectedWith e (Some slug), s') =>
      exists output version,
        OsDownload.parse sv = inr (slug, output, version)
        /\ OsDownload.loginGate sv w version = None
        /\ downloadOSImage w slug output version s = (Thrown e, s')
  | (OsDownload.RejectedWith e None, s') =>
      s' = s
      /\ (OsDownload.parse sv = inl e
          \/ exists type output version,
               OsDownload.parse sv = inr (type, output, version)
               /\ OsDownload.loginGate sv w version = Some e)
  | (OsDownload.Completed, s') =>
      exists type output version,
        OsDownload.parse sv = inr (type, output, version)
        /\ downloadOSImage w type output version s = (Returned output, s')
  | (OsDownload.NeverSettles, s') =>
      exists type output version,
        OsDownload.parse sv = inr (type, output, version)
        /\ downloadOSImage w type output version s = (Pending, s')
  end.
Proof.
  unfold OsDownload.run.
  destruct (OsDownload.parse sv) as [e|[[type output] version]] eqn:Hparse.
  - split; [reflexivity | now left].
  - destruct (OsDownload.loginGate sv w version) as [e|] eqn:Hgate.
    + split; [reflexivity|]. right. now exists type, output, version.
    + destruct (downloadOSImage w type output version s) as [[p|e|] s'] eqn:Hrun.
      * exists type, output, version. split; [reflexivity|].
        rewrite Hrun.
        now rewrite (downloadOSImage_returns_outputPath _ _ _ _ _ _ _ Hrun).
      * now exists output, version.
      * now exists type, output, version.
Qed.

Example os_download_unknown_device :
  OsDownload.run anonymousMenu exampleWorld emptyState
  = (OsDownload.RejectedWith
       (ExpectedError (interpolate noVersionsTemplate ["no-such-device"]))
       (Some "no-such-device"),
     {| effects := [ConsoleInfo "Getting device operating system for no-such-device";
                    GetAvailableOsVersions ["no-such-device"]];
        env := ∅; fs := ∅ |}).
Proof. vm_compute. reflexivity. Qed.

(** ** More about the release commands *)

(** X17: what [release export] writes. In every run a file is written at
    most once, and only at the [--output] path with the bundle that
    [create] built for the release that was found: nothing is written when
    the release lookup or [create] fails. When the flags cannot be parsed
    the run is rejected with that error before anything is done; when the
    release is not found it is rejected with the lookup's error, having
    printed nothing. *)
Theorem runExport_writes_the_built_bundle
    (sv : Release.Services) (log : list Release.Action) :
  let run := Release.runExport sv log in
  exists d,
    snd run = log ++ d
    /\ (length (List.filter isWriteFile d) <= 1)%nat
    /\ (forall path data,
          In (Release.WriteFile path data) d ->
          exists commitOrId releaseId,
            Release.parseExport sv = Fulfilled (commitOrId, path)
            /\ Release.releaseGet sv commitOrId = Fulfilled releaseId
            /\ Release.create sv releaseId = Fulfilled data)
    /\ (forall e, Release.parseExport sv = Rejected e -> run = (Thrown e, log))
    /\ (forall commitOrId output e,
          Release.parseExport sv = Fulfilled (commitOrId, output) ->
          Release.releaseGet sv commitOrId = Rejected e ->
          run = (Thrown e, log ++ [Release.ReleaseGet commitOrId])).
Proof.
  intros run. subst run.
  unfold Release.runExport, bind, await, tryCatch, Release.act, modify.
  destruct (Release.parseExport sv) as [[commitOrId output]|e0] eqn:Hparse;
    cbn [fst snd].
  2: { exists []. rewrite app_nil_r. split; [reflexivity|].
       split; [simpl; lia|]. split; [intros path data []|].
       split; [intros e He; congruence | intros c o e He; discriminate]. }
  destruct (Release.releaseGet sv commitOrId) as [releaseId|e1] eqn:Hget;
    cbn [fst snd].
  2: { exists [Release.ReleaseGet commitOrId]. split; [reflexivity|].
       split; [simpl; lia|].
       split; [intros path data [H|[]]; discriminate|].
       split; [intros e He; discriminate|].
       intros c o e He Hrej. inversion He; subst c o.
       rewrite Hget in Hrej. now inversion Hrej. }
  destruct (Release.create sv releaseId) as [bundle|e2] eqn:Hcreate; cbn [fst snd].
  - destruct (Release.writeFile sv output bundle) as [[]|e3]; cbn [fst snd];
      eexists; (split; [rewrite <- !List.app_assoc; cbn [app]; reflexivity|]);
      (split; [simpl; lia|]);
      (split; [|split; [intros e He; discriminate|
                        intros c o e He Hrej; inversion He; subst c o;
                        rewrite Hget in Hrej; discriminate]]);
      intros path data Hin; simpl in Hin;
      repeat (destruct Hin as [Hin|Hin]; try discriminate); try contradiction;
      inversion Hin; subst path data; now exists commitOrId, releaseId.
  - eexists. split; [rewrite <- !List.app_assoc; cbn [app]; reflexivity|].
    split; [simpl; lia|].
    split; [|split; [intros e He; discriminate|
                      intros c o e He Hrej; inversion He; subst c o;
                      rewrite Hget in Hrej; discriminate]].
    intros path data Hin; simpl in Hin.
    repeat (destruct Hin as [Hin|Hin]; try discriminate); contradiction.
Qed.

(** X18: what [release import] touches. The bundle file is opened first
    in every run whose flags are parsed, before the fleet is looked at.
    Without [--fleet] the SDK is not used at all: the run logs that the
    fleet must be a number or slug and then that the bundle has been
    applied to [undefined], and is fulfilled. In every run [apply] is
    called at most for the application that the fleet lookup found, with
    the bundle that was given. When the flags cannot be parsed the run is
    rejected before anything is done. *)
Theorem runImport_uses_of_the_sdk
    (sv : Release.Services) (log : list Release.Action) :
  let run := Release.runImport sv log in
  exists d,
    snd run = log ++ d
    /\ (forall e, Release.parseImport sv = Rejected e -> run = (Thrown e, log))
    /\ (forall bundle fleet,
          Release.parseImport sv = Fulfilled (bundle, fleet) ->
          exists d', d = Release.CreateReadStream bundle :: d')
    /\ (forall bundle,
          Release.parseImport sv = Fulfilled (bundle, None) ->
          fst run = Returned tt
          /\ d = [Release.CreateReadStream bundle;
                  Release.ConsoleLog
                    ("Could not apply release bundle to fleet undefined. "
                       +:+ "Fleet must be a number or slug.");
                  Release.ConsoleLog
                    ("Release bundle " +:+ bundle
                       +:+ " has been applied to undefined.")])
    /\ (forall application bundle,
          In (Release.Apply application bundle) d ->
          exists fleet,
            Release.parseImport sv = Fulfilled (bundle, Some fleet)
            /\ Release.applicationGet sv fleet = Fulfilled application).
Proof.
  intros run. subst run.
  unfold Release.runImport, bind, await, tryCatch, Release.act, modify, throw.
  destruct (Release.parseImport sv) as [[bundle fleet]|e0] eqn:Hparse;
    cbn [fst snd].
  2: { exists []. rewrite app_nil_r. split; [reflexivity|].
       split; [intros e He; congruence|].
       split; [intros b f He; discriminate|].
       split; [intros b He; discriminate | intros a b []]. }
  destruct fleet as [f|]; cbn [fst snd].
  - destruct (Release.applicationGet sv f) as [application|e1] eqn:Happ;
      cbn [fst snd].
    + destruct (Release.apply sv application bundle) as [[]|e2]; cbn [fst snd];
        eexists; (split; [rewrite <- !List.app_assoc; cbn [app]; reflexivity|]);
        (split; [intros e He; discriminate|]);
        (split; [intros b fl He; inversion He; subst; eexists; reflexivity|]);
        (split; [intros b He; discriminate|]);
        intros a b Hin; simpl in Hin;
        repeat (destruct Hin as [Hin|Hin]; try discriminate); try contradiction;
        inversion Hin; subst a b; now exists f.
    + eexists. split; [rewrite <- !List.app_assoc; cbn [app]; reflexivity|].
      split; [intros e He; discriminate|].
      split; [intros b fl He; inversion He; subst; eexists; reflexivity|].
      split; [intros b He; discriminate|].
      intros a b Hin; simpl in Hin.
      repeat (destruct Hin as [Hin|Hin]; try discriminate); contradiction.
  - eexists. split; [rewrite <- !List.app_assoc; cbn [app]; reflexivity|].
    split; [intros e He; discriminate|].
    split; [intros b fl He; inversion He; subst; eexists; reflexivity|].
    split.
    + intros b He. inversion He; subst b. split; reflexivity.
    + intros a b Hin; simpl in Hin.
      repeat (destruct Hin as [Hin|Hin]; try discriminate); contradiction.
Qed.

Example runImport_without_fleet :
  Release.runImport noFleet []
  = (Returned tt,
     [Release.CreateReadStream "release.tar";
      Release.ConsoleLog
        "Could not apply release bundle to fleet undefined. Fleet must be a number or slug.";
      Release.ConsoleLog "Release bundle release.tar has been applied to undefined."]).
Proof. reflexivity. Qed.

(** ** The [quickstart] wizard *)

Ltac wizard_run :=
  unfold Wizard.chain, Wizard.chooseApplication, bind, await, ret,
    Wizard.act, modify;
  repeat (cbn [fst snd];
          match goal with
          | |- context [match ?p with Fulfilled _ => _ | Rejected _ => _ end] =>
              let H := fresh "Hp" in destruct p eqn:H
          | |- context [if ?b then _ else _] =>
              let H := fresh "Hb" in destruct b eqn:H
          end);
  cbn [fst snd]; rewrite <- ?List.app_assoc; cbn [app].

Ltac wizard_in H :=
  simpl in H;
  repeat (destruct H as [H|H]; try discriminate);
  try contradiction.

Lemma wizard_chain_run (sv : Wizard.Services) (name : option string)
    (log : list Wizard.Action) :
  exists d,
    snd (Wizard.chain sv name log) = log ++ d
    /\ List.filter isDone d = []
    /\ match fst (Wizard.chain sv name log) with
       | Returned _ => In (Wizard.ConsoleLog Wizard.readyMessage) d
       | Thrown _ => ~ In (Wizard.ConsoleLog Wizard.readyMessage) d
       | Pending => False
       end.
Proof.
  destruct name as [n|]; wizard_run;
    (eexists; split; [reflexivity|]; split; [reflexivity|]);
    first [ intros H; wizard_in H | simpl; tauto ].
Qed.

(** X19: the wizard reports once. In every run of the [quickstart] action
    the [done] callback is called exactly once, as the last thing the
    action does. It is called without an error exactly when the ready
    message has been printed, and the promise is then fulfilled; otherwise
    it is called with the error of the step that failed, the promise is
    rejected with that error and the ready message is not printed. *)
Theorem wizard_reports_once
    (sv : Wizard.Services) (name : option string) (log : list Wizard.Action) :
  let run := Wizard.action sv name log in
  exists d r,
    snd run = log ++ d ++ [Wizard.Done r]
    /\ List.filter isDone d = []
    /\ (r = None <-> In (Wizard.ConsoleLog Wizard.readyMessage) d)
    /\ fst run = match r with
                 | None => Returned tt
                 | Some e => Thrown e
                 end.
Proof.
  cbv zeta. unfold Wizard.action.
  destruct (wizard_chain_run sv name log) as (d & Hlog & Hdone & Hready).
  destruct (Wizard.chain sv name log) as [[u|e|] log'] eqn:Hchain;
    cbn [fst snd] in *; subst log'.
  - exists d, None. rewrite <- List.app_assoc.
    split; [reflexivity|]. split; [exact Hdone|]. split; [tauto|reflexivity].
  - exists d, (Some e). rewrite <- List.app_assoc.
    split; [reflexivity|]. split; [exact Hdone|].
    split; [|reflexivity]. split; [discriminate|]. intros H. now elim Hready.
  - contradiction.
Qed.

(** X20: with a name on the command line the wizard never selects or
    creates an application. Its first step is [device init] for that name;
    any later command is [device <uuid>] for the uuid that [device init]
    passed back, run only after [awaitDevice] has succeeded for that
    uuid. *)
Theorem wizard_with_name
    (sv : Wizard.Services) (n : string) (log : list Wizard.Action) :
  exists d,
    snd (Wizard.action sv (Some n) log)
      = log ++ Wizard.RunCommand ("device init --application " +:+ n) :: d
    /\ ~ In Wizard.SelectOrCreateApplication d
    /\ (forall application, ~ In (Wizard.ApplicationHas application) d)
    /\ (forall command, In (Wizard.RunCommand command) d ->
          exists uuid,
            Wizard.runAsync sv ("device init --application " +:+ n) = Fulfilled uuid
            /\ Wizard.awaitDevice sv uuid = Fulfilled tt
            /\ command = "device " +:+ uuid)
    /\ (forall uuid, In (Wizard.AwaitDevice uuid) d ->
          Wizard.runAsync sv ("device init --application " +:+ n) = Fulfilled uuid).
Proof.
  unfold Wizard.action. wizard_run;
    (eexists; split; [reflexivity|]);
    (split; [intros H; wizard_in H|]);
    (split; [intros ? H; wizard_in H|]);
    (split; [intros ? H; wizard_in H; inversion H; subst;
             repeat match goal with u : unit |- _ => destruct u end;
             (eexists; split; [reflexivity|split; [assumption|reflexivity]])
            | intros ? H; wizard_in H; inversion H; subst; reflexivity]).
Qed.

(** X21: without a name on the command line the wizard first lets the
    user select or create an application. [app create] is run exactly when
    the selected application does not exist yet; [device init] is run for
    the selected name (never for what [app create] passed back), and only
    when the application exists or has just been created; [device <uuid>]
    is run for the uuid of [device init], after [awaitDevice]. *)
Theorem wizard_without_name (sv : Wizard.Services) (log : list Wizard.Action) :
  exists d,
    snd (Wizard.action sv None log) = log ++ Wizard.SelectOrCreateApplication :: d
    /\ (forall command, In (Wizard.RunCommand command) d ->
          exists application,
            Wizard.selectOrCreateApplication sv = Fulfilled application
            /\ ((command = "app create " +:+ application
                 /\ Wizard.applicationHas sv application = Fulfilled false)
                \/ (command = "device init --application " +:+ application
                    /\ (Wizard.applicationHas sv application = Fulfilled true
                        \/ exists created,
                             Wizard.runAsync sv ("app create " +:+ application)
                               = Fulfilled created))
                \/ (exists uuid,
                      command = "device " +:+ uuid
                      /\ Wizard.runAsync sv ("device init --application " +:+ application)
                           = Fulfilled uuid
                      /\ Wizard.awaitDevice sv uuid = Fulfilled tt)))
    /\ (forall application,
          Wizard.selectOrCreateApplication sv = Fulfilled application ->
          Wizard.applicationHas sv application = Fulfilled false ->
          exists d',
            d = Wizard.ApplicationHas application
                  :: Wizard.RunCommand ("app create " +:+ application) :: d').
Proof.
  unfold Wizard.action. wizard_run;
    (eexists; split; [reflexivity|]);
    (split;
     [ intros ? H; wizard_in H; inversion H; subst;
       repeat match goal with u : unit |- _ => destruct u end;
       (eexists; split; [reflexivity|]); eauto 8
     | intros ? H1 H2; inversion H1; subst;
       try congruence; eauto ]).
Qed.

Example wizard_device_never_online :
  Wizard.action deviceNeverOnline None []
  = (Thrown (JsError "timeout"),
     [Wizard.SelectOrCreateApplication;
      Wizard.ApplicationHas "MyApp";
      Wizard.RunCommand "device init --application MyApp";
      Wizard.AwaitDevice "7dc3a4f";
      Wizard.Done (Some (JsError "timeout"))]).
Proof. reflexivity. Qed.
